(** * Invio-Freelancer: the invoice calculation engine and the rate-modifier store

    A shallow embedding of
    - [backend/src/database/init.ts]: [calculateTimeBasedLineTotal],
      [calculateInvoiceTotals];
    - the invoice controller: [calculatePerLineTotals] and the totals
      computed by [createInvoice] / [updateInvoice];
    - [backend/src/controllers/rate_modifiers.ts]: [createRateModifier],
      [updateRateModifier], [deleteRateModifier].

    The engine is written once, over an interface [JsNum] of the operations
    the TypeScript source applies to its [number]s.  Two instances are given:
    - [binary64]: IEEE 754 double precision, the numbers the program runs on
      (Rocq's primitive floats; [Math.round], [Math.max], [Math.min] and
      truthiness written out with their ECMAScript corner cases);
    - [exact]: the rationals [Q], the same program text read with exact
      arithmetic, amounts being exact decimals.
    What only follows the control flow of the program is proved on
    [binary64], or on both instances; the identities and bounds between
    amounts are proved on [exact]; concrete runs of the program are evaluated
    on [binary64]. *)

From Stdlib Require Import ZArith QArith Qround Qabs Floats Uint63 Bool List Lia Lqa.
From Stdlib Require Import Ascii String SetoidList Sorted.
From stdpp Require Import gmap strings.
Import ListNotations.

Set Warnings "-inexact-float".

(** ** The number interface *)

Class JsNum (num : Type) : Type := {
  of_Z : Z -> num;                  (* an integer literal *)
  add : num -> num -> num;
  sub : num -> num -> num;
  mul : num -> num -> num;
  div : num -> num -> num;
  gt : num -> num -> bool;          (* x > y *)
  strict_eq : num -> num -> bool;   (* x === y *)
  truthy : num -> bool;             (* ToBoolean(x) *)
  Math_round : num -> num;
  Math_max : num -> num -> num;
  Math_min : num -> num -> num
}.

Declare Scope js_scope.
Delimit Scope js_scope with js.
Notation "x + y" := (add x y) : js_scope.
Notation "x - y" := (sub x y) : js_scope.
Notation "x * y" := (mul x y) : js_scope.
Notation "x / y" := (div x y) : js_scope.
Notation "x >? y" := (gt x y) (at level 70) : js_scope.
Notation "x === y" := (strict_eq x y) (at level 70) : js_scope.

(** ** IEEE 754 binary64 *)

Module B64.

Definition of_Z (z : Z) : float :=
  match z with
  | Z0 => 0%float
  | Zpos _ => PrimFloat.of_uint63 (Uint63.of_Z z)
  | Zneg p => (- PrimFloat.of_uint63 (Uint63.of_Z (Zpos p)))%float
  end.

(** ToBoolean: [+0], [-0] and [NaN] are falsy. *)
Definition truthy (x : float) : bool :=
  negb (PrimFloat.is_zero x || PrimFloat.is_nan x).

(** [Math.round]: the nearest integer, ties towards [+∞]; [NaN], the
    infinities, the zeros and every integral value are returned as they
    are; a negative argument that rounds to zero gives [-0]. *)
Definition round (x : float) : float :=
  match Prim2SF x with
  | S754_finite s m e =>
      if (0 <=? e)%Z then x
      else
        let sm := if s then Zneg m else Zpos m in
        let n := ((2 * sm + 2 ^ (- e)) / 2 ^ (1 - e))%Z in
        if (n =? 0)%Z then (if s then (-0)%float else 0%float) else of_Z n
  | _ => x
  end.

(** [Math.max]: [NaN] if either argument is; [+0] is larger than [-0]. *)
Definition max (x y : float) : float :=
  if PrimFloat.is_nan x || PrimFloat.is_nan y then nan
  else if (x <? y)%float then y
  else if (y <? x)%float then x
  else if PrimFloat.get_sign x then y else x.

(** [Math.min]: [NaN] if either argument is; [-0] is smaller than [+0]. *)
Definition min (x y : float) : float :=
  if PrimFloat.is_nan x || PrimFloat.is_nan y then nan
  else if (x <? y)%float then x
  else if (y <? x)%float then y
  else if PrimFloat.get_sign x then x else y.

(** A number that [x || 0] leaves as it is: neither [NaN] nor [-0]. *)
Definition plain (x : float) : Prop := PrimFloat.is_nan x = false /\ x <> (-0)%float.

End B64.

#[export] Instance binary64 : JsNum float := {|
  of_Z := B64.of_Z;
  add := PrimFloat.add;
  sub := PrimFloat.sub;
  mul := PrimFloat.mul;
  div := PrimFloat.div;
  gt := fun x y => PrimFloat.ltb y x;
  strict_eq := PrimFloat.eqb;
  truthy := B64.truthy;
  Math_round := B64.round;
  Math_max := B64.max;
  Math_min := B64.min
|}.

(** ** Exact rational arithmetic *)

Module Exact.

Definition gt (x y : Q) : bool := negb (Qle_bool x y).
Definition truthy (x : Q) : bool := negb (Qeq_bool x 0).
Definition round (x : Q) : Q := inject_Z (Qfloor (x + (1 # 2))).
Definition max (x y : Q) : Q := if Qle_bool x y then y else x.
Definition min (x y : Q) : Q := if Qle_bool x y then x else y.

End Exact.

#[export] Instance exact : JsNum Q := {|
  of_Z := inject_Z;
  add := Qplus;
  sub := Qminus;
  mul := Qmult;
  div := Qdiv;
  gt := Exact.gt;
  strict_eq := Qeq_bool;
  truthy := Exact.truthy;
  Math_round := Exact.round;
  Math_max := Exact.max;
  Math_min := Exact.min
|}.

(** ** The calculation engine *)

Inductive RoundingMode := Line | Total.

Record CalculatedTotals (num : Type) := {
  subtotal : num;
  discountAmount : num;
  taxAmount : num;
  total : num
}.
Arguments subtotal {num} _.
Arguments discountAmount {num} _.
Arguments taxAmount {num} _.
Arguments total {num} _.

Record LineTaxInput (num : Type) := {
  percent : num;
  note : option string
}.
Arguments percent {num} _.
Arguments note {num} _.

(** A line item as a request carries it: every numeric field may be absent. *)
Record ItemInput (num : Type) := {
  description : string;
  quantity : option num;
  unitPrice : option num;
  hours : option num;
  rate : option num;
  rateModifierId : option string;
  distance : option num;
  taxes : option (list (LineTaxInput num))
}.
Arguments description {num} _.
Arguments quantity {num} _.
Arguments unitPrice {num} _.
Arguments hours {num} _.
Arguments rate {num} _.
Arguments rateModifierId {num} _.
Arguments distance {num} _.
Arguments taxes {num} _.

(** The parameter object of [calculateTimeBasedLineTotal]. *)
Record TimeParams (num : Type) := {
  p_rate : num;
  p_hours : num;
  p_modifierMultiplier : num;
  p_distance : option num;
  p_mileageRate : option num
}.
Arguments p_rate {num} _.
Arguments p_hours {num} _.
Arguments p_modifierMultiplier {num} _.
Arguments p_distance {num} _.
Arguments p_mileageRate {num} _.


(** One entry of [perItem[i].taxes]. *)
Record ItemTax (num : Type) := {
  t_percent : num;
  t_amount : num;
  t_note : option string
}.
Arguments t_percent {num} _.
Arguments t_amount {num} _.
Arguments t_note {num} _.

Record PerItem (num : Type) := {
  taxable : num;
  item_taxes : list (ItemTax num)
}.
Arguments taxable {num} _.
Arguments item_taxes {num} _.

(** One row of the summary grouped by percent. *)
Record SummaryRow (num : Type) := {
  s_percent : num;
  s_taxable : num;
  s_amount : num
}.
Arguments s_percent {num} _.
Arguments s_taxable {num} _.
Arguments s_amount {num} _.

(** [PerLineCalc]: the four totals, then [perItem] and [summary]. *)
Record PerLineCalc (num : Type) := {
  totals : CalculatedTotals num;
  perItem : list (PerItem num);
  summary : list (SummaryRow num)
}.
Arguments totals {num} _.
Arguments perItem {num} _.
Arguments summary {num} _.

(** A row of the table [rate_modifiers]; a [Date] is kept as its time
    value. *)
Record RateModifier (num : Type) := {
  name : string;
  multiplier : num;
  rm_description : option string;
  isDefault : bool;
  createdAt : Z;
  updatedAt : Z
}.
Arguments name {num} _.
Arguments multiplier {num} _.
Arguments rm_description {num} _.
Arguments isDefault {num} _.
Arguments createdAt {num} _.
Arguments updatedAt {num} _.

(** The fields of a create or update request that the totals depend on. *)
Record CreateInvoiceRequest (num : Type) := {
  req_items : list (ItemInput num);
  req_discountPercentage : option num;
  req_discountAmount : option num;
  req_taxRate : option num;
  req_pricesIncludeTax : option bool;
  req_roundingMode : option RoundingMode
}.
Arguments req_items {num} _.
Arguments req_discountPercentage {num} _.
Arguments req_discountAmount {num} _.
Arguments req_taxRate {num} _.
Arguments req_pricesIncludeTax {num} _.
Arguments req_roundingMode {num} _.

(** The settings [createInvoice] reads, after their conversion to values. *)
Record Settings (num : Type) := {
  defaultPricesIncludeTax : bool;
  defaultRoundingMode : RoundingMode;
  defaultTaxRate : num;
  mileageRateSetting : option num
}.
Arguments defaultPricesIncludeTax {num} _.
Arguments defaultRoundingMode {num} _.
Arguments defaultTaxRate {num} _.
Arguments mileageRateSetting {num} _.

(** The fields of the stored invoice that [updateInvoice] falls back to. *)
Record ExistingInvoice (num : Type) := {
  ex_discountPercentage : num;
  ex_discountAmount : num;
  ex_taxRate : num;
  ex_pricesIncludeTax : bool;
  ex_roundingMode : option RoundingMode
}.
Arguments ex_discountPercentage {num} _.
Arguments ex_discountAmount {num} _.
Arguments ex_taxRate {num} _.
Arguments ex_pricesIncludeTax {num} _.
Arguments ex_roundingMode {num} _.

Section Engine.

Context {num : Type} `{JsNum num}.
Local Open Scope js_scope.

Definition zero : num := of_Z 0.
Definition one : num := of_Z 1.
Definition hundred : num := of_Z 100.

(** A decimal literal [n/d], as the parser of the source reads it. *)
Definition dec (n : Z) (d : positive) : num := of_Z n / of_Z (Zpos d).

(** [x || d] on a number. *)
Definition or_else (x d : num) : num := if truthy x then x else d.

(** [Number(o) || d] (and [o || d]) on a field that may be [undefined]:
    [Number(undefined)] is [NaN], which is falsy. *)
Definition number_or (o : option num) (d : num) : num :=
  match o with
  | Some x => or_else x d
  | None => d
  end.

(** [o ?? d] *)
Definition nullish (o : option num) (d : num) : num :=
  match o with
  | Some x => x
  | None => d
  end.

(** [const r2 = (n) => Math.round(n * 100) / 100] *)
Definition r2 (n : num) : num := Math_round (n * hundred) / hundred.

(** [items.reduce((a, b) => a + b, 0)] *)
Definition sum (l : list num) : num := fold_left add l zero.

Definition calculateTimeBasedLineTotal (params : TimeParams num) : num :=
  let basePay :=
    or_else (p_rate params) zero * or_else (p_hours params) zero
    * or_else (p_modifierMultiplier params) one in
  let mileage :=
    number_or (p_distance params) zero * number_or (p_mileageRate params) zero in
  r2 (basePay + mileage).

(** [(Number(it.quantity) || 0) * (Number(it.unitPrice) || 0)] *)
Definition lineGross (it : ItemInput num) : num :=
  number_or (quantity it) zero * number_or (unitPrice it) zero.

(** The discount resolution shared by [calculateInvoiceTotals] and
    [calculatePerLineTotals]. *)
Definition finalDiscount (subtotal discountPercentage discountAmount : num) : num :=
  let finalDiscountAmount := or_else discountAmount zero in
  let finalDiscountAmount :=
    if discountPercentage >? zero
    then subtotal * (discountPercentage / hundred)
    else finalDiscountAmount in
  Math_min (Math_max finalDiscountAmount zero) subtotal.

(** [lineGrosses.map((g, idx) => ...)] of [calculateInvoiceTotals], with the
    captured variable [distributed] passed along. *)
Fixpoint lineDiscounts (final subtotal : num) (grosses : list num)
         (distributed : num) : list num :=
  match grosses with
  | [] => []
  | g :: rest =>
      match rest with
      | [] => [r2 (final - distributed)]
      | _ :: _ =>
          let share := g / subtotal in
          let d := r2 (final * share) in
          d :: lineDiscounts final subtotal rest (distributed + d)
      end
  end.

(** The [for] loop of the line rounding mode: returns [(sumTax, sumTotal)]. *)
Definition lineStep (rate : num) (pricesIncludeTax : bool)
           (acc : num * num) (gl : num * num) : num * num :=
  let sumTax := fst acc in
  let sumTotal := snd acc in
  let gross := fst gl in
  let ld := or_else (snd gl) zero in
  let afterDiscount := Math_max zero (gross - ld) in
  if pricesIncludeTax then
    let net := if rate >? zero then afterDiscount / (one + rate) else afterDiscount in
    let tax := afterDiscount - net in
    (sumTax + r2 tax, sumTotal + r2 afterDiscount)
  else
    let tax := afterDiscount * rate in
    (sumTax + r2 tax, sumTotal + r2 (afterDiscount + r2 tax)).

Definition calculateInvoiceTotals (items : list (ItemInput num))
           (discountPercentage discountAmount taxRate : num)
           (pricesIncludeTax : bool) (roundingMode : RoundingMode)
  : CalculatedTotals num :=
  let rate := Math_max zero (or_else taxRate zero) / hundred in
  let lineGrosses := map lineGross items in
  let subtotal := sum lineGrosses in
  let finalDiscountAmount := finalDiscount subtotal discountPercentage discountAmount in
  (* the pair (taxAmount, total) *)
  let tt :=
    if match roundingMode with Line => subtotal >? zero | Total => false end then
      let lds := lineDiscounts finalDiscountAmount subtotal lineGrosses zero in
      let sums :=
        fold_left (lineStep rate pricesIncludeTax) (combine lineGrosses lds) (zero, zero) in
      (r2 (fst sums), r2 (snd sums))
    else
      let afterDiscount := subtotal - finalDiscountAmount in
      if pricesIncludeTax then
        let net := if rate >? zero then afterDiscount / (one + rate) else afterDiscount in
        (r2 (afterDiscount - net), r2 afterDiscount)
      else
        let taxAmount := r2 (afterDiscount * rate) in
        (taxAmount, r2 (afterDiscount + taxAmount)) in
  {| subtotal := r2 subtotal;
     discountAmount := r2 finalDiscountAmount;
     taxAmount := r2 (fst tt);
     total := r2 (snd tt) |}.


(** *** [calculatePerLineTotals] *)

(** [lineGrosses.map((g, idx) => ...)] of [calculatePerLineTotals]: as
    [lineDiscounts], behind the test [subtotal === 0]. *)
Fixpoint perLineDiscounts (final subtotal : num) (grosses : list num)
         (distributed : num) : list num :=
  match grosses with
  | [] => []
  | g :: rest =>
      if subtotal === zero then zero :: perLineDiscounts final subtotal rest distributed
      else
        match rest with
        | [] => [r2 (final - distributed)]
        | _ :: _ =>
            let share := g / subtotal in
            let d := r2 (final * share) in
            d :: perLineDiscounts final subtotal rest (distributed + d)
        end
  end.

(** [summaryMap]: a [Map] from percent to [{taxable, amount}], kept in
    insertion order.  Its keys are [r2(p * 100)] with [p] never [NaN], so
    the key comparison of [Map] agrees with [===]; a key [-0] is stored as
    [+0]. *)
Definition SummaryMap : Type := list (num * (num * num)).

Definition map_key (k : num) : num := if k === zero then zero else k.

Fixpoint summary_get (m : SummaryMap) (k : num) : option (num * num) :=
  match m with
  | [] => None
  | (k', v) :: rest => if k' === k then Some v else summary_get rest k
  end.

Fixpoint summary_set (m : SummaryMap) (k : num) (v : num * num) : SummaryMap :=
  match m with
  | [] => [(map_key k, v)]
  | (k', v') :: rest =>
      if k' === k then (k', v) :: rest else (k', v') :: summary_set rest k v
  end.

(** The inner loop [for (const t of taxes)]: returns the entries pushed on
    [itemTaxes] and the updated [summaryMap]. *)
Fixpoint taxLoop (net : num) (taxes : list (LineTaxInput num))
         (itemTaxes : list (ItemTax num)) (summaryMap : SummaryMap)
  : list (ItemTax num) * SummaryMap :=
  match taxes with
  | [] => (itemTaxes, summaryMap)
  | t :: rest =>
      let p := or_else (percent t) zero / hundred in
      let amt := r2 (net * p) in
      let key := r2 (p * hundred) in
      let itemTaxes := itemTaxes ++ [{| t_percent := key; t_amount := amt; t_note := note t |}] in
      let s := match summary_get summaryMap key with
               | Some s => s
               | None => (zero, zero)
               end in
      let s := (r2 (fst s + net), r2 (snd s + amt)) in
      taxLoop net rest itemTaxes (summary_set summaryMap key s)
  end.

(** The state of the outer loop: [perItem], [taxAmount], [total],
    [summaryMap]. *)
Record PerLineState := {
  st_perItem : list (PerItem num);
  st_taxAmount : num;
  st_total : num;
  st_summaryMap : SummaryMap
}.

Definition perLineStep (pricesIncludeTax : bool) (st : PerLineState)
           (x : ItemInput num * (num * num)) : PerLineState :=
  let item := fst x in
  let gross := or_else (fst (snd x)) zero in
  let afterDiscount := Math_max zero (gross - or_else (snd (snd x)) zero) in
  let taxes := match taxes item with Some ts => ts | None => [] end in
  let rateSum :=
    fold_left (fun s t => s + or_else (percent t) zero) taxes zero / hundred in
  let net :=
    if pricesIncludeTax && (rateSum >? zero)
    then afterDiscount / (one + rateSum) else afterDiscount in
  let loop := taxLoop net taxes [] (st_summaryMap st) in
  let itemTaxes := fst loop in
  let summaryMap := snd loop in
  let itemTaxSum := r2 (fold_left (fun a b => a + t_amount b) itemTaxes zero) in
  let perItem := st_perItem st ++ [{| taxable := r2 net; item_taxes := itemTaxes |}] in
  if pricesIncludeTax then
    {| st_perItem := perItem;
       st_taxAmount := r2 (st_taxAmount st + itemTaxSum);
       st_total := r2 (st_total st + afterDiscount);
       st_summaryMap := summaryMap |}
  else
    {| st_perItem := perItem;
       st_taxAmount := r2 (st_taxAmount st + itemTaxSum);
       st_total := r2 (st_total st + net + itemTaxSum);
       st_summaryMap := summaryMap |}.

(** [.sort((a, b) => a.percent - b.percent)]: a stable sort, ascending. *)
Fixpoint sort_insert (x : SummaryRow num) (l : list (SummaryRow num))
  : list (SummaryRow num) :=
  match l with
  | [] => [x]
  | y :: rest =>
      if (s_percent y - s_percent x) >? zero then x :: y :: rest
      else y :: sort_insert x rest
  end.

Definition sort_summary (l : list (SummaryRow num)) : list (SummaryRow num) :=
  fold_left (fun acc x => sort_insert x acc) l [].

Definition calculatePerLineTotals (items : list (ItemInput num))
           (discountPercentage discountAmount : num)
           (pricesIncludeTax : bool) (_roundingMode : RoundingMode)
  : PerLineCalc num :=
  let lineGrosses := map lineGross items in
  let subtotal := sum lineGrosses in
  let finalDiscountAmount := finalDiscount subtotal discountPercentage discountAmount in
  let lds := perLineDiscounts finalDiscountAmount subtotal lineGrosses zero in
  let st :=
    fold_left (perLineStep pricesIncludeTax)
              (combine items (combine lineGrosses lds))
              {| st_perItem := []; st_taxAmount := zero; st_total := zero;
                 st_summaryMap := [] |} in
  let summary :=
    sort_summary
      (map (fun kv => {| s_percent := fst kv;
                         s_taxable := r2 (fst (snd kv));
                         s_amount := r2 (snd (snd kv)) |})
           (st_summaryMap st)) in
  {| totals := {| subtotal := r2 subtotal;
                  discountAmount := r2 finalDiscountAmount;
                  taxAmount := r2 (st_taxAmount st);
                  total := r2 (st_total st) |};
     perItem := st_perItem st;
     summary := summary |}.

(** *** The totals of [createInvoice] and [updateInvoice] *)

(** [if (item.rateModifierId) { SELECT multiplier ... }]: the multiplier
    a time-based line is valued with. *)
Definition resolveModifierMultiplier (rate_modifiers : gmap string (RateModifier num))
           (rateModifierId : option string) : num :=
  match rateModifierId with
  | Some rid =>
      if String.eqb rid "" then one
      else match rate_modifiers !! rid with
           | Some m => or_else (multiplier m) one
           | None => one
           end
  | None => one
  end.

(** [mileageRate = 0.70], replaced by [Number(value) || 0.70] when the
    settings table has a row for the key [mileageRate]. *)
Definition resolveMileageRate (setting : option num) : num :=
  match setting with
  | Some v => or_else v (dec 70 100)
  | None => dec 70 100
  end.

(** The [lineTotal] persisted for one item. *)
Definition lineTotal (rate_modifiers : gmap string (RateModifier num))
           (mileageSetting : option num) (item : ItemInput num) : num :=
  match hours item with
  | Some h =>
      if h >? zero then
        calculateTimeBasedLineTotal
          {| p_rate := number_or (rate item) zero;
             p_hours := or_else h zero;
             p_modifierMultiplier :=
               resolveModifierMultiplier rate_modifiers (rateModifierId item);
             p_distance := distance item;
             p_mileageRate := Some (resolveMileageRate mileageSetting) |}
      else nullish (quantity item) zero * nullish (unitPrice item) zero
  | None => nullish (quantity item) zero * nullish (unitPrice item) zero
  end.

(** "Recalculate totals from actual line totals": the block that ends
    [createInvoice] and [updateInvoice] when no line carries taxes. *)
Definition recalculateTotals (lineTotals : list num)
           (discountAmount discountPercentage : option num)
           (taxRate : num) (pricesIncludeTax : bool) : CalculatedTotals num :=
  let subtotal := sum lineTotals in
  let finalDiscountAmount := number_or discountAmount zero in
  let finalDiscountAmount :=
    match discountPercentage with
    | Some pct =>
        if truthy pct && (pct >? zero) then subtotal * (pct / hundred)
        else finalDiscountAmount
    | None => finalDiscountAmount
    end in
  let finalDiscountAmount := Math_min (Math_max finalDiscountAmount zero) subtotal in
  let afterDiscount := subtotal - finalDiscountAmount in
  (* the pair (taxAmount, total) *)
  let tt :=
    if pricesIncludeTax then
      let divisor := one + taxRate / hundred in
      let total := afterDiscount in
      (total - total / divisor, total)
    else
      let taxAmount := afterDiscount * (taxRate / hundred) in
      (taxAmount, afterDiscount + taxAmount) in
  {| subtotal := r2 subtotal;
     discountAmount := r2 finalDiscountAmount;
     taxAmount := r2 (fst tt);
     total := r2 (snd tt) |}.

Definition hasPerLineTaxes (items : list (ItemInput num)) : bool :=
  existsb (fun i => match taxes i with
                    | Some (_ :: _) => true
                    | _ => false
                    end) items.

Definition or_default {A : Type} (o : option A) (d : A) : A :=
  match o with Some x => x | None => d end.

(** The totals [createInvoice] computes first, before any line is stored. *)
Definition createInvoice_initialTotals (settings : Settings num)
           (data : CreateInvoiceRequest num) : CalculatedTotals num :=
  let pricesIncludeTax :=
    or_default (req_pricesIncludeTax data) (defaultPricesIncludeTax settings) in
  let roundingMode :=
    or_default (req_roundingMode data) (defaultRoundingMode settings) in
  if hasPerLineTaxes (req_items data) then
    totals (calculatePerLineTotals (req_items data)
              (number_or (req_discountPercentage data) zero)
              (number_or (req_discountAmount data) zero)
              pricesIncludeTax roundingMode)
  else
    calculateInvoiceTotals (req_items data)
      (number_or (req_discountPercentage data) zero)
      (number_or (req_discountAmount data) zero)
      (or_else (nullish (req_taxRate data) (defaultTaxRate settings)) zero)
      pricesIncludeTax roundingMode.

(** The totals [createInvoice] leaves on the invoice row. *)
Definition createInvoice_totals (rate_modifiers : gmap string (RateModifier num))
           (settings : Settings num) (data : CreateInvoiceRequest num)
  : CalculatedTotals num :=
  if hasPerLineTaxes (req_items data) then createInvoice_initialTotals settings data
  else
    recalculateTotals
      (map (lineTotal rate_modifiers (mileageRateSetting settings)) (req_items data))
      (req_discountAmount data) (req_discountPercentage data)
      (or_else (nullish (req_taxRate data) (defaultTaxRate settings)) zero)
      (or_default (req_pricesIncludeTax data) (defaultPricesIncludeTax settings)).

(** The totals [updateInvoice] computes first when the request replaces the
    items and none of them carries taxes; every setting the request omits is
    read from the [existing] invoice. *)
Definition updateInvoice_initialTotals (existing : ExistingInvoice num)
           (data : CreateInvoiceRequest num) : CalculatedTotals num :=
  calculateInvoiceTotals (req_items data)
    (nullish (req_discountPercentage data) (ex_discountPercentage existing))
    (nullish (req_discountAmount data) (ex_discountAmount existing))
    (nullish (req_taxRate data) (ex_taxRate existing))
    (or_default (req_pricesIncludeTax data) (ex_pricesIncludeTax existing))
    (or_default (req_roundingMode data)
                (or_default (ex_roundingMode existing) Line)).

(** The totals [updateInvoice] then leaves on the invoice row. *)
Definition updateInvoice_totals (rate_modifiers : gmap string (RateModifier num))
           (mileageSetting : option num) (existing : ExistingInvoice num)
           (data : CreateInvoiceRequest num) : CalculatedTotals num :=
  recalculateTotals
    (map (lineTotal rate_modifiers mileageSetting) (req_items data))
    (Some (nullish (req_discountAmount data) (ex_discountAmount existing)))
    (Some (nullish (req_discountPercentage data) (ex_discountPercentage existing)))
    (nullish (req_taxRate data) (ex_taxRate existing))
    (or_default (req_pricesIncludeTax data) (ex_pricesIncludeTax existing)).

End Engine.


(** ** The rate-modifier store

    The table [rate_modifiers] has [id] as its primary key: a finite map from
    ids to rows.  Of [invoice_items] only the column [rate_modifier_id] is
    read. *)

Inductive DomainError :=
| NotFound                 (* "Rate modifier not found" *)
| DefaultModifier          (* "Cannot delete the default rate modifier. ..." *)
| InUse (count : nat)      (* "Cannot delete rate modifier: N invoice item(s) are using it." *)
| PrimaryKeyConflict.      (* the INSERT rejected by the primary key *)

Record CreateRateModifierData (num : Type) := {
  c_name : string;
  c_multiplier : num;
  c_description : option string;
  c_isDefault : option bool
}.
Arguments c_name {num} _.
Arguments c_multiplier {num} _.
Arguments c_description {num} _.
Arguments c_isDefault {num} _.

Record UpdateRateModifierData (num : Type) := {
  u_name : option string;
  u_multiplier : option num;
  u_description : option string;
  u_isDefault : option bool
}.
Arguments u_name {num} _.
Arguments u_multiplier {num} _.
Arguments u_description {num} _.
Arguments u_isDefault {num} _.

Section RateModifiers.

Context {num : Type}.

Record Db := {
  rate_modifiers : gmap string (RateModifier num);
  invoice_items : list (option string)
}.

(** [UPDATE rate_modifiers SET is_default = 0] *)
Definition unset_default (m : RateModifier num) : RateModifier num :=
  {| name := name m; multiplier := multiplier m;
     rm_description := rm_description m; isDefault := false;
     createdAt := createdAt m; updatedAt := updatedAt m |}.

Definition unset_all_defaults (tbl : gmap string (RateModifier num))
  : gmap string (RateModifier num) := unset_default <$> tbl.

Definition getRateModifierById (db : Db) (id : string) : option (RateModifier num) :=
  rate_modifiers db !! id.

(** [now] is the time of [new Date()], [id] the value [generateUUID()]
    returned. *)
Definition createRateModifier (now : Z) (id : string) (data : CreateRateModifierData num)
           (db : Db) : Db * (DomainError + RateModifier num) :=
  let new_default := match c_isDefault data with Some b => b | None => false end in
  let tbl := if new_default then unset_all_defaults (rate_modifiers db)
             else rate_modifiers db in
  let row := {| name := c_name data; multiplier := c_multiplier data;
                rm_description := c_description data; isDefault := new_default;
                createdAt := now; updatedAt := now |} in
  match tbl !! id with
  | Some _ =>
      ({| rate_modifiers := tbl; invoice_items := invoice_items db |},
       inl PrimaryKeyConflict)
  | None =>
      ({| rate_modifiers := <[id := row]> tbl; invoice_items := invoice_items db |},
       inr row)
  end.

Definition updateRateModifier (now : Z) (id : string) (data : UpdateRateModifierData num)
           (db : Db) : Db * option (RateModifier num) :=
  match getRateModifierById db id with
  | None => (db, None)
  | Some existing =>
      let new_name := match u_name data with Some n => n | None => name existing end in
      let new_multiplier :=
        match u_multiplier data with Some x => x | None => multiplier existing end in
      let new_description :=
        match u_description data with
        | Some d => Some d
        | None => rm_description existing
        end in
      let new_default :=
        match u_isDefault data with Some b => b | None => isDefault existing end in
      let tbl := if new_default && negb (isDefault existing)
                 then unset_all_defaults (rate_modifiers db)
                 else rate_modifiers db in
      let tbl := alter (fun row => {| name := new_name; multiplier := new_multiplier;
                                      rm_description := new_description;
                                      isDefault := new_default;
                                      createdAt := createdAt row;
                                      updatedAt := now |}) id tbl in
      let db' := {| rate_modifiers := tbl; invoice_items := invoice_items db |} in
      (db', getRateModifierById db' id)
  end.

(** [SELECT COUNT( * ) FROM invoice_items WHERE rate_modifier_id = ?] *)
Definition usage_count (db : Db) (id : string) : nat :=
  length (List.filter (fun r => match r with
                                | Some r => String.eqb r id
                                | None => false
                                end) (invoice_items db)).

Definition deleteRateModifier (id : string) (db : Db) : Db * option DomainError :=
  match getRateModifierById db id with
  | None => (db, Some NotFound)
  | Some modifier =>
      if isDefault modifier then (db, Some DefaultModifier)
      else
        let count := usage_count db id in
        if (0 <? count)%nat then (db, Some (InUse count))
        else ({| rate_modifiers := delete id (rate_modifiers db);
                 invoice_items := invoice_items db |}, None)
  end.

(** The number of rows flagged [is_default]. *)
Definition default_count (tbl : gmap string (RateModifier num)) : nat :=
  size (filter (fun kv => isDefault (snd kv) = true) tbl).

End RateModifiers.
Arguments Db : clear implicits.

(** [INSERT OR IGNORE INTO rate_modifiers ... VALUES ('standard', 'Standard',
    1.0, 'Regular daytime work', 1)] of [migrations.sql], which [initDatabase]
    executes at every start: the row is inserted unless the id exists.
    [now] is [CURRENT_TIMESTAMP]. *)
Definition seedRateModifiers {num : Type} `{JsNum num} (now : Z) (db : Db num) : Db num :=
  match rate_modifiers db !! "standard" with
  | Some _ => db
  | None =>
      {| rate_modifiers :=
           <["standard" := {| name := "Standard"; multiplier := of_Z 1;
                              rm_description := Some "Regular daytime work";
                              isDefault := true;
                              createdAt := now; updatedAt := now |}]>
             (rate_modifiers db);
         invoice_items := invoice_items db |}
  end.

(** [SELECT ... WHERE is_default = 1 LIMIT 1]: the first flagged row, in the
    order the table is read, with its id. *)
Definition getDefaultRateModifier {num : Type} (db : Db num)
  : option (string * RateModifier num) :=
  head (List.filter (fun kv => isDefault (snd kv)) (map_to_list (rate_modifiers db))).


(** ** Texts

    A text is the sequence of its code units, taken below 256. *)

Section Texts.

Local Open Scope string_scope.

(** The characters of a text. *)
Definition chars (s : string) : list ascii := list_ascii_of_string s.

(** The white space and line terminators below 256: TAB, LF, VT, FF, CR,
    SP and NBSP. *)
Definition is_space (c : ascii) : bool :=
  let n := nat_of_ascii c in
  ((9 <=? n) && (n <=? 13) || (n =? 32) || (n =? 160))%nat.

Fixpoint trimStart (s : string) : string :=
  match s with
  | EmptyString => EmptyString
  | String a rest => if is_space a then trimStart rest else s
  end.

Definition reverse (s : string) : string :=
  string_of_list_ascii (rev (list_ascii_of_string s)).

Definition trimEnd (s : string) : string := reverse (trimStart (reverse s)).

(** [s.trim()] *)
Definition trim (s : string) : string := trimEnd (trimStart s).

(** [s.padStart(n, "0")] *)
Definition padStart0 (n : nat) (s : string) : string :=
  string_of_list_ascii (repeat "0"%char (n - String.length s)) ++ s.

(** [s.slice(i, j)] for [0 <= i <= j]. *)
Definition slice (i j : nat) (s : string) : string := String.substring i (j - i) s.

(** [s.replace(/c/g, by)] for a one-character [c] and a replacement text
    without [$]. *)
Fixpoint replace_char (c : ascii) (by_ : string) (s : string) : string :=
  match s with
  | EmptyString => EmptyString
  | String a rest =>
      if Ascii.eqb a c then by_ ++ replace_char c by_ rest
      else String a (replace_char c by_ rest)
  end.

(** [s.replace(c, "")] for a one-character text [c]: the first [c] is
    dropped. *)
Fixpoint drop_first (c : ascii) (s : string) : string :=
  match s with
  | EmptyString => EmptyString
  | String a rest => if Ascii.eqb a c then rest else String a (drop_first c rest)
  end.

(** [p.lastIndexOf(c)] for a one-character [c]: the scan keeps the last index
    seen, starting from [-1]. *)
Fixpoint lastIndexOf_from (c : ascii) (p : string) (i found : Z) : Z :=
  match p with
  | EmptyString => found
  | String a rest =>
      lastIndexOf_from c rest (i + 1) (if Ascii.eqb a c then i else found)
  end.

Definition lastIndexOf (c : ascii) (p : string) : Z := lastIndexOf_from c p 0 (-1).

(** ** [simpleDirname] *)

Definition simpleDirname (p : string) : string :=
  let i := lastIndexOf "/" p in
  if (i <=? 0)%Z then "/" else slice 0 (Z.to_nat i) p.

(** ** [cryptoRandom] and [generateDraftInvoiceNumber] *)

Definition alphabet : string := "ABCDEFGHJKLMNPQRSTUVWXYZ23456789".

(** One round of the loop, [out += alphabet[bytes[i] % alphabet.length]];
    [alphabet[i]] is [undefined] past the end, and appending [undefined] to a
    text appends the word. *)
Definition cryptoRandom_step (out : string) (b : N) : string :=
  out ++ match String.get (N.to_nat (b mod N.of_nat (String.length alphabet))) alphabet with
         | Some c => String c ""
         | None => "undefined"
         end.

(** [cryptoRandom(len)], [bytes] being the [len] values that
    [crypto.getRandomValues] wrote. *)
Definition cryptoRandom (bytes : list N) : string :=
  fold_left cryptoRandom_step bytes "".

(** [bytes]: the six values drawn by [cryptoRandom(6)]. *)
Definition generateDraftInvoiceNumber (bytes : list N) : string :=
  "DRAFT-" ++ cryptoRandom bytes.

(** ** [escapeHtml] *)

(** [value] is [None] for [undefined] and [null], and otherwise the text
    [String(value)]. *)
Definition escapeHtml (value : option string) : string :=
  let str := match value with None => "" | Some s => s end in
  replace_char "'" "&#39;"
    (replace_char "034" "&quot;"
       (replace_char ">" "&gt;"
          (replace_char "<" "&lt;"
             (replace_char "&" "&amp;" str)))).

(** ** [normalizeHex] and [lighten] *)

Definition in_range (lo hi c : ascii) : bool :=
  (nat_of_ascii lo <=? nat_of_ascii c)%nat && (nat_of_ascii c <=? nat_of_ascii hi)%nat.

(** [[0-9a-fA-F]] *)
Definition is_hex (c : ascii) : bool :=
  in_range "0" "9" c || in_range "a" "f" c || in_range "A" "F" c.

(** [[0-9a-fA-F]{6}$] *)
Definition hex6 (s : string) : bool :=
  (String.length s =? 6)%nat && forallb is_hex (chars s).

(** [/^#?[0-9a-fA-F]{6}$/.test(h)] *)
Definition is_hex_colour (h : string) : bool :=
  match h with
  | String "#" rest => hex6 rest || hex6 h
  | _ => hex6 h
  end.

(** [hex] is [None] for [undefined]; the empty text is falsy too. *)
Definition normalizeHex (hex : option string) : option string :=
  match hex with
  | None => None
  | Some "" => None
  | Some hex =>
      let h := trim hex in
      if is_hex_colour h then
        Some (if String.prefix "#" h then h else "#" ++ h)
      else None
  end.

(** The value of a hexadecimal digit. *)
Definition hex_value (c : ascii) : Z :=
  let n := Z.of_nat (nat_of_ascii c) in
  if in_range "0" "9" c then n - 48
  else if in_range "a" "f" c then n - 87
  else n - 55.

Fixpoint take_hex (s : string) : list ascii :=
  match s with
  | EmptyString => []
  | String a rest => if is_hex a then a :: take_hex rest else []
  end.

(** [parseInt(s, 16)]: white space, a sign and [0x] are skipped, then the
    digits are read as far as they go; [NaN] when there is none.  (The
    conversion of the value is exact below [2^53]; the texts read here have
    two characters.) *)
Definition parseInt16 (s : string) : float :=
  let s := trimStart s in
  let signed :=
    match s with
    | String "-" rest => (true, rest)
    | String "+" rest => (false, rest)
    | _ => (false, s)
    end in
  let body :=
    match snd signed with
    | String "0" (String "x" rest) => rest
    | String "0" (String "X" rest) => rest
    | other => other
    end in
  match take_hex body with
  | [] => nan
  | ds =>
      let v := B64.of_Z (fold_left (fun acc d => acc * 16 + hex_value d)%Z ds 0%Z) in
      if fst signed then (- v)%float else v
  end.

Definition hex_digit (d : Z) : ascii :=
  ascii_of_nat (Z.to_nat (if (d <? 10)%Z then d + 48 else d + 87)).

(** The hexadecimal digits of a positive integer, most significant first. *)
Fixpoint hex_digits (fuel : nat) (n : Z) (acc : string) : string :=
  match fuel with
  | O => acc
  | S fuel =>
      let acc := String (hex_digit (n mod 16)) acc in
      if (n <? 16)%Z then acc else hex_digits fuel (n / 16) acc
  end.

(** [x.toString(16)] for a value of [Math.round]: an integer, an infinity
    or [NaN]. *)
Definition toString16 (x : float) : string :=
  match Prim2SF x with
  | S754_nan => "NaN"
  | S754_infinity false => "Infinity"
  | S754_infinity true => "-Infinity"
  | S754_zero _ => "0"
  | S754_finite s m e =>
      let n := if (0 <=? e)%Z then (Zpos m * 2 ^ e)%Z else (Zpos m / 2 ^ (- e))%Z in
      (if s then "-" else "") ++ hex_digits (Z.to_nat (Z.log2 n) + 1) n ""
  end.

Definition lighten (hex : string) (amount : float) : string :=
  let n := match normalizeHex (Some hex) with Some n => n | None => "#2563eb" end in
  let m := drop_first "#" n in
  let r := parseInt16 (slice 0 2 m) in
  let g := parseInt16 (slice 2 4 m) in
  let b := parseInt16 (slice 4 6 m) in
  let mix (c : float) := B64.round (c + (255 - c) * amount)%float in
  let rr := padStart0 2 (toString16 (mix r)) in
  let gg := padStart0 2 (toString16 (mix g)) in
  let bb := padStart0 2 (toString16 (mix b)) in
  "#" ++ rr ++ gg ++ bb.

End Texts.


(** ** [getNextInvoiceNumber] *)

Section InvoiceNumbers.

Local Open Scope string_scope.

(** [s.toLowerCase()] on code units below 256: the letters [A-Z] and the
    accented capitals of Latin-1. *)
Definition lower_char (c : ascii) : ascii :=
  let n := nat_of_ascii c in
  if ((65 <=? n) && (n <=? 90) || (192 <=? n) && (n <=? 222) && negb (n =? 215))%nat
  then ascii_of_nat (n + 32) else c.

Fixpoint toLowerCase (s : string) : string :=
  match s with
  | EmptyString => EmptyString
  | String a rest => String (lower_char a) (toLowerCase rest)
  end.

(** [o || d] on a text that may be [undefined] (or [null]): the empty text
    is falsy. *)
Definition text_or (o : option string) (d : string) : string :=
  match o with
  | Some (String a rest) => String a rest
  | _ => d
  end.

(** [[0-9]], that is [\d] *)
Definition is_digit (c : ascii) : bool := in_range "0" "9" c.

Definition digit_value (c : ascii) : Z := Z.of_nat (nat_of_ascii c) - 48.

Definition digits_value (ds : list ascii) : Z :=
  fold_left (fun acc d => acc * 10 + digit_value d)%Z ds 0%Z.

Fixpoint take_digits (s : string) : list ascii :=
  match s with
  | EmptyString => []
  | String a rest => if is_digit a then a :: take_digits rest else []
  end.

(** [parseInt(s, 10)]: white space and a sign are skipped, then the digits are
    read as far as they go; [None] is [NaN].  The value is the integer
    written; the program holds it as a double, which is the same number
    below [2^53]. *)
Definition parseInt10 (s : string) : option Z :=
  let s := trimStart s in
  let signed :=
    match s with
    | String "-" rest => (true, rest)
    | String "+" rest => (false, rest)
    | _ => (false, s)
    end in
  match take_digits (snd signed) with
  | [] => None
  | ds => Some (if fst signed then - digits_value ds else digits_value ds)%Z
  end.

Definition dec_digit (d : Z) : ascii := ascii_of_nat (Z.to_nat (d + 48)).

(** The decimal digits of a natural number, most significant first. *)
Fixpoint dec_digits (fuel : nat) (n : Z) (acc : string) : string :=
  match fuel with
  | O => acc
  | S fuel =>
      let acc := String (dec_digit (n mod 10)) acc in
      if (n <? 10)%Z then acc else dec_digits fuel (n / 10) acc
  end.

(** [String(n)] for an integer [n] below [10^21]. *)
Definition string_of_int (n : Z) : string :=
  if (n <? 0)%Z then "-" ++ dec_digits (Z.to_nat (Z.log2 (- n)) + 1) (- n) ""
  else dec_digits (Z.to_nat (Z.log2 n) + 1) n "".

(** [s.slice(-2)]: the last two characters. *)
Definition last_two (s : string) : string :=
  String.substring (String.length s - 2) 2 s.

(** [s.replace(/tok/g, ...)] for a literal, non-empty [tok]: the matches are
    taken from left to right without overlap; [by_ k] replaces the match
    number [k], and [skip] counts the characters of a match still to pass. *)
Fixpoint replace_all (tok : string) (by_ : nat -> string) (k skip : nat) (s : string)
  : string :=
  match s with
  | EmptyString => EmptyString
  | String a rest =>
      match skip with
      | S skip' => replace_all tok by_ k skip' rest
      | O =>
          if String.prefix tok s
          then by_ k ++ replace_all tok by_ (S k) (String.length tok - 1) rest
          else String a (replace_all tok by_ k 0 rest)
      end
  end.

(** [/tok/.test(s)] for a literal [tok] *)
Fixpoint contains (tok s : string) : bool :=
  String.prefix tok s
  || match s with
     | EmptyString => false
     | String _ rest => contains tok rest
     end.

(** [s.split(tok)[0]]: what stands before the first [tok]. *)
Fixpoint before (tok s : string) : string :=
  match s with
  | EmptyString => EmptyString
  | String a rest => if String.prefix tok s then EmptyString else String a (before tok rest)
  end.

(** [s.slice(n)] *)
Fixpoint drop_chars (n : nat) (s : string) : string :=
  match n, s with
  | S n, String _ rest => drop_chars n rest
  | _, _ => s
  end.

(** SQLite's [LIKE]: [%] stands for any text, [_] for one character, and
    the letters [A-Z] match in either case. *)
Definition like_char (p a : ascii) : bool :=
  let fold c := if in_range "A" "Z" c then ascii_of_nat (nat_of_ascii c + 32) else c in
  Ascii.eqb (fold p) (fold a).

Fixpoint like (pat : list ascii) : list ascii -> bool :=
  match pat with
  | [] => fun s => match s with [] => true | _ :: _ => false end
  | p :: pat' =>
      if Ascii.eqb p "%" then
        fix any (s : list ascii) : bool :=
          like pat' s || match s with [] => false | _ :: s' => any s' end
      else
        fun s =>
          match s with
          | [] => false
          | a :: s' => (Ascii.eqb p "_" || like_char p a) && like pat' s'
          end
  end.

(** [SELECT invoice_number FROM invoices WHERE invoice_number LIKE ?] with
    the pattern [start%] *)
Definition rows_like (start : string) (invoices : list string) : list string :=
  List.filter (fun inv => like (chars (start ++ "%")) (chars inv)) invoices.

(** The settings the numbering is read from. *)
Record Numbering := {
  nb_prefix : string;
  nb_includeYear : bool;
  nb_pad : nat;
  nb_pattern : option string;
  nb_enabled : bool
}.

(** The first part of [getNextInvoiceNumber]; [settings] is the table
    [settings] (a query that fails leaves the defaults, as an empty table
    does). *)
Definition numbering (settings : gmap string string) : Numbering :=
  let prefix := text_or (Some (trim (text_or (settings !! "invoicePrefix") "INV"))) "INV" in
  let includeYear :=
    negb (String.eqb (toLowerCase (text_or (settings !! "invoiceIncludeYear") "true"))
                     "false") in
  let p := parseInt10 (text_or (settings !! "invoiceNumberPadding") "3") in
  let pad :=
    match p with
    | Some p => if ((2 <=? p) && (p <=? 8))%Z then Z.to_nat p else 3%nat
    | None => 3%nat
    end in
  let pattern :=
    match trim (text_or (settings !! "invoiceNumberPattern") "") with
    | EmptyString => None
    | s => Some s
    end in
  let enabled :=
    match settings !! "invoiceNumberingEnabled" with
    | Some v => negb (String.eqb (toLowerCase v) "false")
    | None => true
    end in
  {| nb_prefix := prefix; nb_includeYear := includeYear; nb_pad := pad;
     nb_pattern := pattern; nb_enabled := enabled |}.

(** The local date [new Date()] gives: the year, the month from 0 and the
    day of the month. *)
Record Today := { year : Z; month : Z; day : Z }.

(** The largest integer below which every integer is a double. *)
Definition MAX_SAFE_INTEGER : Z := 2 ^ 53 - 1.

(** A double that holds a natural number, as that number, and [Infinity]:
    the sequence numbers are such doubles. *)
Inductive Natural := Num (z : Z) | PlusInfinity.

(** The double nearest to the natural number [z], ties to the even
    mantissa: a number of more than 53 binary digits loses the digits
    beyond, and [2^1024] and more is [Infinity]. *)
Definition to_double (z : Z) : Natural :=
  let d := (Z.log2 z + 1)%Z in
  if (d <=? 53)%Z then Num z
  else
    let sh := (d - 53)%Z in
    let q := (z / 2 ^ sh)%Z in
    let r := (z mod 2 ^ sh)%Z in
    let half := (2 ^ (sh - 1))%Z in
    let q' := if (r <? half)%Z then q
              else if (half <? r)%Z then (q + 1)%Z
              else if Z.even q then q else (q + 1)%Z in
    let v := (q' * 2 ^ sh)%Z in
    if (v <? 2 ^ 1024)%Z then Num v else PlusInfinity.

(** [Math.max(a, b)] and [a + 1] on these doubles. *)
Definition natural_max (a b : Natural) : Natural :=
  match a, b with
  | Num x, Num y => Num (Z.max x y)
  | _, _ => PlusInfinity
  end.

Definition natural_succ (a : Natural) : Natural :=
  match a with
  | Num z => to_double (z + 1)
  | PlusInfinity => PlusInfinity
  end.

(** The decimal digits of an integer, without the zeros at its end. *)
Fixpoint strip_zeros (ds : list ascii) : list ascii :=
  match ds with
  | [] => []
  | d :: rest =>
      match strip_zeros rest with
      | [] => if Ascii.eqb d "0" then [] else [d]
      | rest' => d :: rest'
      end
  end.

(** Whether the integer [c] reads back as the double [v]. *)
Definition reads_as (v c : Z) : bool :=
  match to_double c with
  | Num v' => (v' =? v)%Z
  | PlusInfinity => false
  end.

(** The integer with the fewest significant digits that reads back as the
    double [v], and of these the nearest to [v]: with [scale] a power of ten,
    the multiples of [scale] next to [v] are tried, then those of the tenth
    of it. *)
Fixpoint shortest_from (fuel : nat) (v scale : Z) : Z :=
  match fuel with
  | O => v
  | S fuel =>
      let lo := (v / scale * scale)%Z in
      let hi := (lo + scale)%Z in
      if reads_as v lo && reads_as v hi then
        if (v - lo <? hi - v)%Z then lo
        else if (hi - v <? v - lo)%Z then hi
        else if Z.even (lo / scale) then lo else hi
      else if reads_as v lo then lo
      else if reads_as v hi then hi
      else shortest_from fuel v (scale / 10)
  end.

Definition shortest (v : Z) : Z :=
  let n := String.length (string_of_int v) in
  shortest_from n v (10 ^ Z.of_nat (n - 1)).

(** [String(x)] for a double that holds a natural number: its digits when
    it is at most [2^53] (every integer below is a double, so none with fewer
    digits reads back as it); else the digits of the shortest integer that
    reads back as it, written with an exponent from [10^21] on. *)
Definition natural_to_string (x : Natural) : string :=
  match x with
  | PlusInfinity => "Infinity"
  | Num v =>
      if (v <=? 2 ^ 53)%Z then string_of_int v
      else
        let w := shortest v in
        if (w <? 10 ^ 21)%Z then string_of_int w
        else
          let ds := chars (string_of_int w) in
          let e := string_of_int (Z.of_nat (length ds) - 1) in
          match strip_zeros ds with
          | [] => "0"
          | [d] => String d ("e+" ++ e)
          | d :: rest => String d ("." ++ string_of_list_ascii rest ++ "e+" ++ e)
          end
  end.

(** The loop over the rows: [maxNum = Math.max(maxNum, parseInt(m[1], 10))]
    for every row that matches; [sequence inv] is [m[1]], a text of digits,
    which [parseInt] reads as the nearest double. *)
Definition max_sequence (sequence : string -> option (list ascii)) (rows : list string)
  : Natural :=
  fold_left (fun maxNum inv =>
               match sequence inv with
               | Some ds => natural_max maxNum (to_double (digits_value ds))
               | None => maxNum
               end) rows (Num 0).

(** [inv.match(/^base(\d+)$/)], the text [base] taken literally. *)
Definition legacy_sequence (base inv : string) : option (list ascii) :=
  if String.prefix base inv then
    match chars (drop_chars (String.length base) inv) with
    | [] => None
    | ds => if forallb is_digit ds then Some ds else None
    end
  else None.

(** The prefix and the year of the legacy numbers. *)
Definition legacy_base (nb : Numbering) (now : Today) : string :=
  if nb_includeYear nb
  then nb_prefix nb ++ "-" ++ string_of_int (year now) ++ "-"
  else nb_prefix nb ++ "-".

(** The characters that a regular expression does not take literally. *)
Definition is_regex_special (c : ascii) : bool :=
  existsb (Ascii.eqb c) (chars "\^$.|?*+()[]{}").

(** [.] matches all but the line terminators. *)
Definition is_line_terminator (c : ascii) : bool :=
  Ascii.eqb c "010" || Ascii.eqb c "013".

(** [inv.match(/^start(\d+).*?$/)] for a [start] without special
    characters. *)
Definition pattern_sequence (start inv : string) : option (list ascii) :=
  if String.prefix start inv then
    let rest := drop_chars (String.length start) inv in
    match take_digits rest with
    | [] => None
    | ds =>
        if existsb is_line_terminator (chars (drop_chars (length ds) rest))
        then None else Some ds
    end
  else None.

(** [getNextInvoiceNumber()].  [rand4 k] is the text the callback of
    [{RAND4}] returns at its call number [k].  The result is [None] in the
    one case left out: a [{SEQ}] pattern whose rendered start holds a
    character special in a regular expression (the start is put into the
    expression as it is). *)
Definition getNextInvoiceNumber (settings : gmap string string) (now : Today)
           (rand4 : nat -> string) (invoices : list string) : option string :=
  let nb := numbering settings in
  match (if nb_enabled nb then nb_pattern nb else None) with
  | Some pattern =>
      let YYYY := string_of_int (year now) in
      let YY := last_two YYYY in
      let MM := padStart0 2 (string_of_int (month now + 1)) in
      let DD := padStart0 2 (string_of_int (day now)) in
      let DATE := YYYY ++ MM ++ DD in
      let baseWithoutSeq :=
        replace_all "{RAND4}" rand4 0 0
          (replace_all "{DATE}" (fun _ => DATE) 0 0
             (replace_all "{DD}" (fun _ => DD) 0 0
                (replace_all "{MM}" (fun _ => MM) 0 0
                   (replace_all "{YY}" (fun _ => YY) 0 0
                      (replace_all "{YYYY}" (fun _ => YYYY) 0 0 pattern))))) in
      if negb (contains "{SEQ}" pattern) then Some baseWithoutSeq
      else
        let prefixForSeq := before "{SEQ}" baseWithoutSeq in
        if existsb is_regex_special (chars prefixForSeq) then None
        else
          let result := rows_like prefixForSeq invoices in
          let maxSeq := max_sequence (pattern_sequence prefixForSeq) result in
          let nextSeq := padStart0 3 (natural_to_string (natural_succ maxSeq)) in
          Some (replace_all "{SEQ}" (fun _ => nextSeq) 0 0 baseWithoutSeq)
  | None =>
      let base := legacy_base nb now in
      let result := rows_like base invoices in
      let maxNum := max_sequence (legacy_sequence base) result in
      let next := natural_succ maxNum in
      Some (base ++ padStart0 (nb_pad nb) (natural_to_string next))
  end.

End InvoiceNumbers.


(** ** The invoice store: [getInvoiceById], [publishInvoice],
       [unpublishInvoice], [deleteInvoice]

    Of the table [invoices] the columns these functions read or write are
    kept; [id] is its primary key, [invoice_number] and [share_token] are
    [UNIQUE]. *)

Inductive Status := Draft | Sent | Paid | Overdue.

(** A [Date]: invalid, or an instant, of which only the local calendar day
    is looked at (counted in days; years from 100 on, which
    [new Date(y, m, d)] takes as they are). *)
Inductive JsDate := InvalidDate | LocalDay (d : Z).

Record Invoice := {
  invoiceNumber : string;
  customerId : option string;
  currency : option string;
  status : Status;
  dueDate : option JsDate;       (* [row[4] ? new Date(row[4]) : undefined] *)
  shareToken : string
}.

Record InvoiceDb := {
  invoices : gmap string Invoice;
  customers : gmap string string;      (* the column [name], by [id] *)
  item_rows : list string              (* the column [invoice_id] of [invoice_items] *)
}.

(** [getInvoiceById] returns the row with its status derived, the name of
    its customer and the number of its items. *)
Record InvoiceWithDetails := {
  invoice : Invoice;
  customer_name : string;
  item_count : nat
}.

Inductive InvoiceError :=
| InvoiceNotFound                          (* "Invoice not found" *)
| MissingFields (missing : list string)    (* "Cannot publish invoice. Missing required fields: ..." *)
| UniqueConflict.                          (* the UPDATE rejected by a UNIQUE column *)

Section InvoiceStore.

Local Open Scope string_scope.

Definition with_status (inv : Invoice) (s : Status) : Invoice :=
  {| invoiceNumber := invoiceNumber inv; customerId := customerId inv;
     currency := currency inv; status := s; dueDate := dueDate inv;
     shareToken := shareToken inv |}.

Definition is_paid (s : Status) : bool := match s with Paid => true | _ => false end.
Definition is_draft (s : Status) : bool := match s with Draft => true | _ => false end.

(** [today]: the local calendar day of [new Date()].  An invalid date
    compares [false]. *)
Definition applyDerivedOverdue (today : Z) (inv : Invoice) : Invoice :=
  if is_paid (status inv) then inv
  else
    match dueDate inv with
    | None => inv
    | Some InvalidDate => inv
    | Some (LocalDay dd) => if (dd <? today)%Z then with_status inv Overdue else inv
    end.

(** [SELECT ... FROM customers WHERE id = ?], which finds nothing for
    [NULL]. *)
Definition getCustomerById (db : InvoiceDb) (id : option string) : option string :=
  match id with
  | Some id => customers db !! id
  | None => None
  end.

Definition getInvoiceById (today : Z) (db : InvoiceDb) (id : string)
  : option InvoiceWithDetails :=
  match invoices db !! id with
  | None => None
  | Some row =>
      let inv := applyDerivedOverdue today row in
      match getCustomerById db (customerId inv) with
      | None => None
      | Some name =>
          Some {| invoice := inv; customer_name := name;
                  item_count := length (List.filter (String.eqb id) (item_rows db)) |}
      end
  end.

(** A text that is [undefined], [null] or empty is falsy. *)
Definition falsy_text (o : option string) : bool :=
  match o with
  | Some (String _ _) => false
  | _ => true
  end.

(** The fields [publishInvoice] finds missing; [issueDate] is a [Date]
    object, which is never falsy. *)
Definition missing_fields (inv : InvoiceWithDetails) : list string :=
  ((if falsy_text (Some (customer_name inv)) then ["customer.name"] else [])
   ++ (if (item_count inv =? 0)%nat then ["items"] else [])
   ++ (if falsy_text (currency (invoice inv)) then ["currency"] else []))%list.

(** Some other row holds the number [num]. *)
Definition number_taken (db : InvoiceDb) (id num : string) : bool :=
  existsb (fun kv => negb (String.eqb (fst kv) id)
                     && String.eqb (invoiceNumber (snd kv)) num)
          (map_to_list (invoices db)).

Definition token_taken (db : InvoiceDb) (id tok : string) : bool :=
  existsb (fun kv => negb (String.eqb (fst kv) id)
                     && String.eqb (shareToken (snd kv)) tok)
          (map_to_list (invoices db)).

Definition set_invoice (db : InvoiceDb) (id : string) (row : Invoice) : InvoiceDb :=
  {| invoices := <[id := row]> (invoices db); customers := customers db;
     item_rows := item_rows db |}.

(** [publishInvoice(id)].  [next] is what [getNextInvoiceNumber()] returns
    when it is called, [base_url] the variable [BASE_URL].  The result is the
    pair of [shareToken] and [shareUrl]. *)
Definition publishInvoice (today : Z) (next : string) (base_url : option string)
           (id : string) (db : InvoiceDb)
  : InvoiceDb * (InvoiceError + string * string) :=
  match getInvoiceById today db id with
  | None => (db, inl InvoiceNotFound)
  | Some found =>
      match missing_fields found with
      | (_ :: _) as missing => (db, inl (MissingFields missing))
      | [] =>
          let shareUrl :=
            text_or base_url "http://localhost:3000"
            ++ "/api/v1/public/invoices/" ++ shareToken (invoice found) in
          let result := inr (shareToken (invoice found), shareUrl) in
          if is_draft (status (invoice found)) then
            let num :=
              if String.prefix "DRAFT-" (invoiceNumber (invoice found))
              then next else invoiceNumber (invoice found) in
            match invoices db !! id with
            | Some row =>
                if number_taken db id num then (db, inl UniqueConflict)
                else
                  (set_invoice db id
                     {| invoiceNumber := num; customerId := customerId row;
                        currency := currency row; status := Sent;
                        dueDate := dueDate row; shareToken := shareToken row |},
                   result)
            | None => (db, result)
            end
          else (db, result)
      end
  end.

(** [unpublishInvoice(id)]; [newToken] is what [generateShareToken()]
    returns. *)
Definition unpublishInvoice (today : Z) (newToken : string) (id : string) (db : InvoiceDb)
  : InvoiceDb * (InvoiceError + string) :=
  match getInvoiceById today db id with
  | None => (db, inl InvoiceNotFound)
  | Some _ =>
      match invoices db !! id with
      | Some row =>
          if token_taken db id newToken then (db, inl UniqueConflict)
          else
            (set_invoice db id
               {| invoiceNumber := invoiceNumber row; customerId := customerId row;
                  currency := currency row; status := Draft;
                  dueDate := dueDate row; shareToken := newToken |},
             inr newToken)
      | None => (db, inr newToken)
      end
  end.

(** [deleteInvoice(id)], which returns [true]. *)
Definition deleteInvoice (id : string) (db : InvoiceDb) : InvoiceDb * bool :=
  ({| invoices := delete id (invoices db); customers := customers db;
      item_rows := List.filter (fun r => negb (String.eqb r id)) (item_rows db) |},
   true).

End InvoiceStore.


(** * What the properties are stated with *)

(** ** The formulas of the specification that the code is compared with *)
Section Spec.

Context {num : Type} `{JsNum num}.
Local Open Scope js_scope.

(** The multiplier of the specification: the stored one, and 1.0 when the
    id is absent or does not resolve. *)
Definition spec_multiplier (rate_modifiers : gmap string (RateModifier num))
           (rateModifierId : option string) : num :=
  match rateModifierId with
  | Some rid =>
      match rate_modifiers !! rid with
      | Some m => multiplier m
      | None => one
      end
  | None => one
  end.

(** The mileage rate of the specification: the configured one, 0.70 when
    none is configured. *)
Definition spec_mileageRate (setting : option num) : num :=
  match setting with
  | Some v => v
  | None => dec 70 100
  end.

(** [round2(rate * hours * multiplier + distance * mileageRate)] *)
Definition spec_timeBasedGross (rate_modifiers : gmap string (RateModifier num))
           (mileageRate h : num) (item : ItemInput num) : num :=
  r2 (nullish (rate item) zero * h
      * spec_multiplier rate_modifiers (rateModifierId item)
      + nullish (distance item) zero * mileageRate).

(** [min(max(d, 0), subtotal)], [d] the percentage of the subtotal when the
    percentage is positive and the flat amount otherwise. *)
Definition spec_finalDiscount (subtotal discountPercentage discountAmount : num) : num :=
  let d := if discountPercentage >? zero
           then subtotal * (discountPercentage / hundred)
           else discountAmount in
  Math_min (Math_max d zero) subtotal.

(** The share of the discount that a line before the last one gets. *)
Definition share (F S g : num) : num := r2 (F * (g / S)).

End Spec.

(** Builders for the concrete inputs used below. *)
Definition quantityItem {num : Type} (q u : num) : ItemInput num :=
  {| description := "work"; quantity := Some q; unitPrice := Some u;
     hours := None; rate := None; rateModifierId := None; distance := None;
     taxes := None |}.

Definition timeItem {num : Type} (h r : num) (rid : option string) (d : option num)
  : ItemInput num :=
  {| description := "work"; quantity := None; unitPrice := None;
     hours := Some h; rate := Some r; rateModifierId := rid; distance := d;
     taxes := None |}.

Definition modifier {num : Type} (n : string) (m : num) (dflt : bool) : RateModifier num :=
  {| name := n; multiplier := m; rm_description := None; isDefault := dflt;
     createdAt := 0; updatedAt := 0 |}.

Definition request {num : Type} (items : list (ItemInput num))
           (taxRate : option num) (incl : option bool) (mode : option RoundingMode)
  : CreateInvoiceRequest num :=
  {| req_items := items; req_discountPercentage := None; req_discountAmount := None;
     req_taxRate := taxRate; req_pricesIncludeTax := incl; req_roundingMode := mode |}.

Definition plain_settings {num : Type} `{JsNum num} : Settings num :=
  {| defaultPricesIncludeTax := false; defaultRoundingMode := Line;
     defaultTaxRate := zero; mileageRateSetting := None |}.



(** ** Predicates on inputs and stores *)

(** Whole numbers of cents. *)
Definition is_cents (x : Q) : Prop := (exists k : Z, x == inject_Z k / 100)%Q.

(** A line valued by quantity and unit price: no hours, or hours not > 0. *)
Definition quantity_based {num : Type} `{JsNum num} (item : ItemInput num) : Prop :=
  match hours item with
  | Some h => (h >? zero)%js = false
  | None => True
  end.

Definition plain_quantities (item : ItemInput float) : Prop :=
  (forall q, quantity item = Some q -> B64.plain q)
  /\ (forall u, unitPrice item = Some u -> B64.plain u).

Section StorePredicates.

Context {num : Type}.
Implicit Types (tbl : gmap string (RateModifier num)) (db : Db num).

(** A modifier is in use when some invoice item refers to it. *)
Definition in_use db (id : string) : Prop := In (Some id) (invoice_items db).

Definition at_most_one_default tbl : Prop :=
  forall i j mi mj,
    tbl !! i = Some mi -> tbl !! j = Some mj ->
    isDefault mi = true -> isDefault mj = true -> i = j.

(** [id] is flagged default and no other row is. *)
Definition sole_default tbl (id : string) : Prop :=
  (exists m, tbl !! id = Some m /\ isDefault m = true)
  /\ forall j mj, tbl !! j = Some mj -> isDefault mj = true -> j = id.

End StorePredicates.

(** A store as the migrations leave it, with a second modifier. *)
Definition seeded_db : Db float :=
  {| rate_modifiers :=
       {[ "standard" := modifier "Standard" 1%float true;
          "holiday" := modifier "Holiday" 1.5%float false ]};
     invoice_items := [Some "holiday"; None] |}.

(** A store after a restart: from an empty table the first start seeds
    [standard]; a modifier [night] is created as the default; [standard],
    no longer the default, is deleted; the next start seeds [standard]
    again, flagged default. *)
Definition restarted_db : Db float :=
  seedRateModifiers 4
    (fst (deleteRateModifier "standard"
            (fst (createRateModifier 2 "night"
                    {| c_name := "Night"; c_multiplier := 2%float;
                       c_description := None; c_isDefault := Some true |}
                    (seedRateModifiers 1
                       {| rate_modifiers := ∅; invoice_items := [] |}))))).

(** ** Predicates and quantities used in the proofs *)





(** The sum of a list, from the right. *)
Fixpoint total_of (l : list Q) : Q :=
  match l with
  | [] => 0%Q
  | x :: l => (x + total_of l)%Q
  end.

(** What is left of a gross amount once its exact share of the discount is
    taken off. *)
Definition after (F S g : Q) : Q := (g - F * (g / S))%Q.




(** ** What the further properties are stated with *)

(** [items[i].taxes || []] *)
Definition taxes_of {num : Type} (item : ItemInput num) : list (LineTaxInput num) :=
  match taxes item with Some ts => ts | None => [] end.

(** The tax amounts of a list of [perItem] entries, and of a summary map. *)
Definition perItem_amounts (l : list (PerItem Q)) : list Q :=
  concat (map (fun p => map t_amount (item_taxes p)) l).

Definition summaryMap_amounts (m : list (Q * (Q * Q))) : list Q :=
  map (fun kv => snd (snd kv)) m.

(** A summary whose percents increase strictly. *)
Definition ascending (l : list (SummaryRow Q)) : Prop :=
  StronglySorted (fun a b => (s_percent a < s_percent b)%Q) l.

(** The entry [summaryMap.get(k) || {taxable: 0, amount: 0}] *)
Definition current (m : list (Q * (Q * Q))) (k : Q) : Q * Q :=
  match summary_get m k with Some s => s | None => (zero, zero) end.

(** What the outer loop of [calculatePerLineTotals] keeps true of its state:
    the amounts collected are whole cents and add up to the tax amount. *)
Definition state_adds_up (st : @PerLineState Q) : Prop :=
  is_cents (st_taxAmount st)
  /\ Forall is_cents (summaryMap_amounts (st_summaryMap st))
  /\ (total_of (summaryMap_amounts (st_summaryMap st)) == st_taxAmount st)%Q
  /\ (total_of (perItem_amounts (st_perItem st)) == st_taxAmount st)%Q.

Definition summary_keys (m : list (Q * (Q * Q))) : list Q := map fst m.

Definition percents (l : list (SummaryRow Q)) : list Q := map s_percent l.

(** The row [createRateModifier] inserts at the time [now]. *)
Definition created_row {num : Type} (now : Z) (data : CreateRateModifierData num)
  : RateModifier num :=
  {| name := c_name data; multiplier := c_multiplier data;
     rm_description := c_description data;
     isDefault := match c_isDefault data with Some b => b | None => false end;
     createdAt := now; updatedAt := now |}.

(** The row [updateRateModifier] writes over [existing] at the time [now]. *)
Definition updated_row {num : Type} (now : Z) (data : UpdateRateModifierData num)
           (existing : RateModifier num) : RateModifier num :=
  {| name := match u_name data with Some n => n | None => name existing end;
     multiplier := match u_multiplier data with Some x => x | None => multiplier existing end;
     rm_description := match u_description data with
                       | Some d => Some d
                       | None => rm_description existing
                       end;
     isDefault := match u_isDefault data with Some b => b | None => isDefault existing end;
     createdAt := createdAt existing; updatedAt := now |}.

(** The row [m] with [updated_at] set to [now]. *)
Definition touched {num : Type} (now : Z) (m : RateModifier num) : RateModifier num :=
  {| name := name m; multiplier := multiplier m; rm_description := rm_description m;
     isDefault := isDefault m; createdAt := createdAt m; updatedAt := now |}.

(** The same row but for the flag [is_default]. *)
Definition same_but_default {num : Type} (m m' : RateModifier num) : Prop :=
  name m = name m' /\ multiplier m = multiplier m'
  /\ rm_description m = rm_description m'
  /\ createdAt m = createdAt m' /\ updatedAt m = updatedAt m'.

Section TextPredicates.

Local Open Scope string_scope.

(** The byte values that [cryptoRandom] turns into the character [c]. *)
Definition bytes_giving (c : ascii) : list N :=
  List.filter (fun b => String.eqb (cryptoRandom [b]) (String c ""))
              (map N.of_nat (seq 0 256)).

(** A text without the character [c]. *)
Definition free_of (c : ascii) (s : string) : Prop := ~ In c (chars s).

(** What [escapeHtml] makes of one character. *)
Definition escaped (a : ascii) : string := escapeHtml (Some (String a "")).

(** The characters [escapeHtml] replaces. *)
Definition special (a : ascii) : bool :=
  Ascii.eqb a "&" || Ascii.eqb a "<" || Ascii.eqb a ">" || Ascii.eqb a "034"
  || Ascii.eqb a "'".

(** The characters that open or close markup, or end an attribute value. *)
Definition markup (c : ascii) : bool :=
  Ascii.eqb c "<" || Ascii.eqb c ">" || Ascii.eqb c "034" || Ascii.eqb c "'".

(** Two hexadecimal digits. *)
Definition hex2 (s : string) : bool :=
  (String.length s =? 2)%nat && forallb is_hex (chars s).

(** One channel of [lighten]: [mix(parseInt(text, 16))] written with two
    digits. *)
Definition channel (amount : float) (text : string) : string :=
  padStart0 2
    (toString16 (B64.round (parseInt16 text + (255 - parseInt16 text) * amount)%float)).

Definition all_ascii : list ascii := map ascii_of_nat (seq 0 256).

(** The hexadecimal digits. *)
Definition hex_chars : list ascii := List.filter is_hex all_ascii.

End TextPredicates.


(** ** Invoices: what the properties are stated with *)

(** The invoice numbers of the store. *)
Definition invoice_numbers (db : InvoiceDb) : list string :=
  map (fun kv => invoiceNumber (snd kv)) (map_to_list (invoices db)).

(** No two invoices share a number. *)
Definition numbers_unique (db : InvoiceDb) : Prop :=
  forall i j ri rj,
    invoices db !! i = Some ri -> invoices db !! j = Some rj ->
    invoiceNumber ri = invoiceNumber rj -> i = j.

(** The same row but for the status. *)
Definition same_but_status (a b : Invoice) : Prop :=
  with_status a (status b) = b.

(** An invoice that is not paid and whose due day is before [today]. *)
Definition past_due (today : Z) (inv : Invoice) : Prop :=
  status inv <> Paid /\ exists d, dueDate inv = Some (LocalDay d) /\ (d < today)%Z.

(** A store with one draft that was due on day 9. *)
Definition late_draft_db : InvoiceDb :=
  {| invoices :=
       {[ "i1" := {| invoiceNumber := "DRAFT-ABC234"; customerId := Some "c1";
                     currency := Some "EUR"; status := Draft;
                     dueDate := Some (LocalDay 9); shareToken := "t1" |} ]};
     customers := {[ "c1" := "ACME" ]};
     item_rows := ["i1"] |}.

(** One row of [invoices] before and after: the number, the status and the
    share token may differ, and the number only when it was a placeholder. *)
Definition row_kept (row row' : Invoice) : Prop :=
  customerId row' = customerId row /\ currency row' = currency row
  /\ dueDate row' = dueDate row
  /\ (String.prefix "DRAFT-" (invoiceNumber row) = false ->
      invoiceNumber row' = invoiceNumber row).

(** The rows of [db] are those of [db'], all but the row [id] unchanged. *)
Definition same_rows_but (id : string) (db db' : InvoiceDb) : Prop :=
  customers db' = customers db /\ item_rows db' = item_rows db
  /\ (forall j, invoices db !! j = None -> invoices db' !! j = None)
  /\ (forall j row, invoices db !! j = Some row ->
        exists row', invoices db' !! j = Some row' /\ row_kept row row'
                     /\ (j <> id -> row' = row)).

(** A store with one draft that is due on day 30. *)
Definition draft_db : InvoiceDb :=
  {| invoices :=
       {[ "i1" := {| invoiceNumber := "DRAFT-ABC234"; customerId := Some "c1";
                     currency := Some "EUR"; status := Draft;
                     dueDate := Some (LocalDay 30); shareToken := "t1" |} ]};
     customers := {[ "c1" := "ACME" ]};
     item_rows := ["i1"] |}.

(** A store with an invoice that has its number and a draft, and the same
    store with a sequence number of [2^53]. *)
Definition numbered_db : InvoiceDb :=
  {| invoices :=
       {[ "i0" := {| invoiceNumber := "INV-2026-001"; customerId := Some "c1";
                     currency := Some "EUR"; status := Sent;
                     dueDate := Some (LocalDay 30); shareToken := "t0" |};
          "i1" := {| invoiceNumber := "DRAFT-ABC234"; customerId := Some "c1";
                     currency := Some "EUR"; status := Draft;
                     dueDate := Some (LocalDay 30); shareToken := "t1" |} ]};
     customers := {[ "c1" := "ACME" ]};
     item_rows := ["i0"; "i1"] |}.

Definition huge_db : InvoiceDb :=
  {| invoices :=
       {[ "i0" := {| invoiceNumber := "INV-2026-9007199254740992";
                     customerId := Some "c1";
                     currency := Some "EUR"; status := Sent;
                     dueDate := Some (LocalDay 30); shareToken := "t0" |};
          "i1" := {| invoiceNumber := "DRAFT-ABC234"; customerId := Some "c1";
                     currency := Some "EUR"; status := Draft;
                     dueDate := Some (LocalDay 30); shareToken := "t1" |} ]};
     customers := {[ "c1" := "ACME" ]};
     item_rows := ["i0"; "i1"] |}.

(** The third of November 2026. *)
Definition a_day : Today := {| year := 2026; month := 10; day := 3 |}.


(** * Properties *)

(** Two float literals are different. *)
Ltac float_neq :=
  let E := fresh "E" in
  intro E; apply (f_equal Prim2SF) in E; vm_compute in E; discriminate E.

(** Exposes the rational operations behind the interface. *)
Ltac qsimpl :=
  unfold zero, one, hundred in *;
  cbn [add sub mul div of_Z exact] in *;
  change (inject_Z 0) with 0%Q in *;
  change (inject_Z 1) with 1%Q in *;
  change (inject_Z 100) with 100%Q in *.

(** ** Facts about binary64 *)

Module B64Facts.

Local Open Scope float_scope.

Lemma is_zero_inv (x : float) : PrimFloat.is_zero x = true -> x = 0 \/ x = -0.
Proof.
  unfold PrimFloat.is_zero. rewrite FloatAxioms.eqb_spec. intros Hx.
  rewrite <- (SF2Prim_Prim2SF x).
  destruct (Prim2SF x) as [[|]| [|] | | [|] m e]; try discriminate Hx.
  - right. reflexivity.
  - left. reflexivity.
Qed.

Lemma falsy_inv (x : float) :
  B64.truthy x = false -> PrimFloat.is_nan x = true \/ x = 0 \/ x = -0.
Proof.
  unfold B64.truthy. intros Hx. apply negb_false_iff, orb_true_iff in Hx.
  destruct Hx as [Hx | Hx]; [right; now apply is_zero_inv | now left].
Qed.

Lemma or_else_plain (x : float) : B64.plain x -> or_else x zero = x.
Proof.
  intros [Hnan Hneg]. unfold or_else. cbn.
  destruct (B64.truthy x) eqn:Ht; [reflexivity|].
  destruct (falsy_inv x Ht) as [Hn | [-> | ->]].
  - congruence.
  - reflexivity.
  - congruence.
Qed.

Lemma SFcompare_refl (f : spec_float) : f <> S754_nan -> SFcompare f f = Some Eq.
Proof.
  destruct f as [s | s | | s m e]; intros Hf; try congruence.
  - reflexivity.
  - destruct s; reflexivity.
  - simpl. rewrite Z.compare_refl, Pos.compare_cont_refl. destruct s; reflexivity.
Qed.

Lemma SFcompare_antisym (f g : spec_float) :
  SFcompare g f = option_map CompOpp (SFcompare f g).
Proof.
  destruct f as [s | s | | s m e], g as [s' | s' | | s' m' e']; simpl;
    try reflexivity; try (destruct s; reflexivity); try (destruct s'; reflexivity);
    try (destruct s, s'; reflexivity).
  destruct s, s'; simpl; try reflexivity.
  - rewrite (Z.compare_antisym e e'). destruct (e ?= e')%Z; simpl; try reflexivity.
    rewrite (Pos.compare_cont_antisym m m' Eq). reflexivity.
  - rewrite (Z.compare_antisym e e'). destruct (e ?= e')%Z; simpl; try reflexivity.
    rewrite (Pos.compare_cont_antisym m m' Eq). simpl. reflexivity.
Qed.

Lemma is_nan_false (x : float) :
  PrimFloat.is_nan x = false <-> Prim2SF x <> S754_nan.
Proof.
  unfold PrimFloat.is_nan. rewrite FloatAxioms.eqb_spec. unfold SFeqb. split.
  - intros Hx Hn. rewrite Hn in Hx. discriminate.
  - intros Hx. rewrite (SFcompare_refl _ Hx). reflexivity.
Qed.

Lemma SFcompare_None (f g : spec_float) :
  SFcompare f g = None -> f = S754_nan \/ g = S754_nan.
Proof.
  destruct f as [s | s | | s m e], g as [s' | s' | | s' m' e']; simpl;
    intros Hc; try discriminate; auto.
Qed.

Lemma ltb_leb (x y : float) : (x <? y) = true -> (x <=? y) = true.
Proof.
  rewrite FloatAxioms.ltb_spec, FloatAxioms.leb_spec. unfold SFltb, SFleb.
  destruct (SFcompare (Prim2SF x) (Prim2SF y)) as [[| |]|]; congruence.
Qed.

Lemma not_ltb_leb (x y : float) :
  PrimFloat.is_nan x = false -> PrimFloat.is_nan y = false ->
  (y <? x) = false -> (x <=? y) = true.
Proof.
  rewrite !is_nan_false, FloatAxioms.ltb_spec, FloatAxioms.leb_spec. unfold SFltb, SFleb. intros Hx Hy.
  rewrite (SFcompare_antisym (Prim2SF x) (Prim2SF y)).
  destruct (SFcompare (Prim2SF x) (Prim2SF y)) as [[| |]|] eqn:Hc; simpl;
    try congruence.
  destruct (SFcompare_None _ _ Hc); contradiction.
Qed.

Lemma ltb_not_nan (x y : float) :
  (x <? y) = true -> PrimFloat.is_nan x = false /\ PrimFloat.is_nan y = false.
Proof.
  rewrite !is_nan_false, FloatAxioms.ltb_spec. unfold SFltb. intros Hlt.
  split; intros Hn; rewrite Hn in Hlt; simpl in Hlt;
    [|destruct (Prim2SF x)]; discriminate.
Qed.

Lemma leb_not_nan (x y : float) :
  (x <=? y) = true -> PrimFloat.is_nan x = false /\ PrimFloat.is_nan y = false.
Proof.
  rewrite !is_nan_false, FloatAxioms.leb_spec. unfold SFleb. intros Hle.
  split; intros Hn; rewrite Hn in Hle; simpl in Hle;
    [|destruct (Prim2SF x)]; discriminate.
Qed.

Lemma gt_zero_truthy (h : float) : (0 <? h) = true -> B64.truthy h = true.
Proof.
  intros Hh. unfold B64.truthy.
  destruct (ltb_not_nan _ _ Hh) as [_ ->]. rewrite orb_false_r.
  apply negb_true_iff. unfold PrimFloat.is_zero.
  revert Hh. rewrite FloatAxioms.ltb_spec, FloatAxioms.eqb_spec. unfold SFltb, SFeqb.
  change (Prim2SF PrimFloat.zero) with (S754_zero false).
  change (Prim2SF 0) with (S754_zero false).
  destruct (Prim2SF h) as [s | s | | s m e]; simpl; try congruence;
    destruct s; congruence.
Qed.

Lemma leb_refl_eq (x y : float) :
  PrimFloat.is_nan x = false -> PrimFloat.is_nan y = false ->
  (x <? y) = false -> (y <? x) = false -> (x =? y) = true.
Proof.
  rewrite !is_nan_false, !FloatAxioms.ltb_spec, FloatAxioms.eqb_spec. unfold SFltb, SFeqb.
  intros Hx Hy. rewrite (SFcompare_antisym (Prim2SF x) (Prim2SF y)).
  destruct (SFcompare (Prim2SF x) (Prim2SF y)) as [[| |]|] eqn:Hc; simpl;
    try congruence.
  destruct (SFcompare_None _ _ Hc); contradiction.
Qed.

Lemma eqb_leb (x y : float) : (x =? y) = true -> (x <=? y) = true.
Proof.
  rewrite FloatAxioms.eqb_spec, FloatAxioms.leb_spec. unfold SFeqb, SFleb.
  destruct (SFcompare (Prim2SF x) (Prim2SF y)) as [[| |]|]; congruence.
Qed.

(** [Math.min] is below its second argument whenever it is a number. *)
Lemma min_le_r (x y : float) :
  PrimFloat.is_nan x = false -> PrimFloat.is_nan y = false ->
  (B64.min x y <=? y) = true.
Proof.
  intros Hx Hy. unfold B64.min. rewrite Hx, Hy. simpl.
  destruct (x <? y) eqn:Hxy; [now apply ltb_leb|].
  destruct (y <? x) eqn:Hyx.
  - apply not_ltb_leb; auto. apply not_true_iff_false. intros Hyy.
    pose proof (ltb_leb _ _ Hyy) as Hle.
    revert Hyy. rewrite FloatAxioms.ltb_spec. unfold SFltb.
    rewrite (SFcompare_refl (Prim2SF y)); [discriminate|]. now apply is_nan_false.
  - destruct (get_sign x); [|apply not_ltb_leb; auto].
    + apply eqb_leb. now apply leb_refl_eq.
    + apply not_true_iff_false. intros Hyy. revert Hyy. rewrite FloatAxioms.ltb_spec. unfold SFltb.
      rewrite (SFcompare_refl (Prim2SF y)); [discriminate|]. now apply is_nan_false.
Qed.

Lemma leb_not_ltb (x y : float) : (x <=? y) = true -> (y <? x) = false.
Proof.
  rewrite FloatAxioms.ltb_spec, FloatAxioms.leb_spec. unfold SFltb, SFleb.
  rewrite (SFcompare_antisym (Prim2SF x) (Prim2SF y)).
  destruct (SFcompare (Prim2SF x) (Prim2SF y)) as [[| |]|]; simpl; congruence.
Qed.

Lemma min_not_nan (x y : float) :
  PrimFloat.is_nan (B64.min x y) = false ->
  PrimFloat.is_nan x = false /\ PrimFloat.is_nan y = false.
Proof.
  unfold B64.min. destruct (PrimFloat.is_nan x || PrimFloat.is_nan y) eqn:Hn.
  - intros Hc. vm_compute in Hc. discriminate.
  - intros _. now apply orb_false_iff.
Qed.

Lemma max_not_nan (x y : float) :
  PrimFloat.is_nan (B64.max x y) = false ->
  PrimFloat.is_nan x = false /\ PrimFloat.is_nan y = false.
Proof.
  unfold B64.max. destruct (PrimFloat.is_nan x || PrimFloat.is_nan y) eqn:Hn.
  - intros Hc. vm_compute in Hc. discriminate.
  - intros _. now apply orb_false_iff.
Qed.

(** [Math.max(d, 0)] is not below 0. *)
Lemma max_zero_le (d : float) :
  PrimFloat.is_nan d = false -> (0 <=? B64.max d 0) = true.
Proof.
  intros Hd. unfold B64.max. rewrite Hd. change (PrimFloat.is_nan 0) with false.
  cbn [orb]. destruct (d <? 0) eqn:H1; [reflexivity|].
  destruct (0 <? d) eqn:H2; [now apply ltb_leb|].
  destruct (get_sign d); [reflexivity|]. now apply not_ltb_leb.
Qed.

Lemma lt_zero_le (s x : float) :
  (s <? 0) = true -> (0 <=? x) = true -> (s <? x) = true.
Proof.
  rewrite !FloatAxioms.ltb_spec, FloatAxioms.leb_spec. unfold SFltb, SFleb.
  change (Prim2SF 0) with (S754_zero false).
  destruct (Prim2SF s) as [[|]|[|]| |[|] ms es], (Prim2SF x) as [[|]|[|]| |[|] mx ex];
    simpl; congruence.
Qed.

End B64Facts.

(** ** The scenarios of the specification, run on binary64 *)

Lemma spec_scenarios_binary64 :
  (* 2: gross amounts [100; 300], flat discount 40 *)
  lineDiscounts 40%float 400%float [100; 300]%float zero = [10; 30]%float
  (* 3: 190 after discount, 8.5 %, tax on top *)
  /\ (let t := calculateInvoiceTotals [quantityItem 1 190]%float 0 0 8.5 false Line in
      taxAmount t = 16.15 /\ total t = 206.15)%float
  (* 4: 206.15 tax included, 8.5 % *)
  /\ (let t := calculateInvoiceTotals [quantityItem 1 206.15]%float 0 0 8.5 true Line in
      taxAmount t = 16.15 /\ total t = 206.15)%float
  (* 5: one line of 100 taxed at 20 % and 5 % *)
  /\ (let r := calculatePerLineTotals
                 [ {| description := "work"; quantity := Some 1; unitPrice := Some 100;
                      hours := None; rate := None; rateModifierId := None;
                      distance := None;
                      taxes := Some [ {| percent := 20; note := None |};
                                      {| percent := 5; note := None |} ] |} ]
                 0 0 false Line in
      taxAmount (totals r) = 25 /\ total (totals r) = 125
      /\ summary r = [ {| s_percent := 5; s_taxable := 100; s_amount := 5 |};
                       {| s_percent := 20; s_taxable := 100; s_amount := 20 |} ])%float
  (* 6: no item *)
  /\ calculateInvoiceTotals [] 0%float 0%float 0%float false Line
     = {| subtotal := 0; discountAmount := 0; taxAmount := 0; total := 0 |}%float.
Proof. vm_compute. repeat split; reflexivity. Qed.

(** ** Zero multipliers (C10) *)

Section ZeroMultiplier.

Context {num : Type} `{JsNum num}.
Hypothesis zero_falsy : forall x : num, (x === zero)%js = true -> truthy x = false.

Lemma resolve_zero_multiplier (tbl : gmap string (RateModifier num)) rid m :
  tbl !! rid = Some m -> (multiplier m === zero)%js = true ->
  resolveModifierMultiplier tbl (Some rid) = one.
Proof.
  intros Hm Hz. unfold resolveModifierMultiplier.
  destruct (String.eqb rid ""); [reflexivity|].
  rewrite Hm. unfold or_else. now rewrite (zero_falsy _ Hz).
Qed.

Lemma time_based_zero_multiplier (r h z : num) (d mr : option num) :
  (z === zero)%js = true ->
  calculateTimeBasedLineTotal
    {| p_rate := r; p_hours := h; p_modifierMultiplier := z;
       p_distance := d; p_mileageRate := mr |}
  = calculateTimeBasedLineTotal
      {| p_rate := r; p_hours := h; p_modifierMultiplier := one;
         p_distance := d; p_mileageRate := mr |}.
Proof.
  intros Hz. unfold calculateTimeBasedLineTotal, or_else. simpl.
  rewrite (zero_falsy _ Hz).
  destruct (truthy one); reflexivity.
Qed.

End ZeroMultiplier.

Lemma binary64_zero_falsy (x : float) : (x === zero)%js = true -> truthy x = false.
Proof.
  cbn. unfold B64.truthy, PrimFloat.is_zero. intros Hx.
  change PrimFloat.zero with 0%float. now rewrite Hx.
Qed.

Lemma exact_zero_falsy (x : Q) : (x === zero)%js = true -> truthy x = false.
Proof.
  cbn. unfold Exact.truthy. intros Hx.
  change (Qeq_bool x 0 = true) in Hx. now rewrite Hx.
Qed.

(** C10.  A stored multiplier of 0, and an argument [modifierMultiplier] of 0,
    are replaced by 1.0 by the falsy-or defaults: the modifier resolves to
    1.0, and [calculateTimeBasedLineTotal] returns with multiplier 0 what it
    returns with multiplier 1.0.  This holds on binary64 (for [+0] and [-0])
    and in exact arithmetic. *)
Theorem zero_multiplier_is_one :
  (forall (tbl : gmap string (RateModifier float)) rid m,
      tbl !! rid = Some m -> (multiplier m =? 0)%float = true ->
      resolveModifierMultiplier tbl (Some rid) = 1%float)
  /\ (forall (r h : float) (d mr : option float),
         calculateTimeBasedLineTotal
           {| p_rate := r; p_hours := h; p_modifierMultiplier := 0%float;
              p_distance := d; p_mileageRate := mr |}
         = calculateTimeBasedLineTotal
             {| p_rate := r; p_hours := h; p_modifierMultiplier := 1%float;
                p_distance := d; p_mileageRate := mr |})
  /\ (forall (tbl : gmap string (RateModifier Q)) rid m,
         tbl !! rid = Some m -> multiplier m == 0 ->
         resolveModifierMultiplier tbl (Some rid) = 1%Q)
  /\ (forall (r h : Q) (d mr : option Q),
         calculateTimeBasedLineTotal
           {| p_rate := r; p_hours := h; p_modifierMultiplier := 0%Q;
              p_distance := d; p_mileageRate := mr |}
         = calculateTimeBasedLineTotal
             {| p_rate := r; p_hours := h; p_modifierMultiplier := 1%Q;
                p_distance := d; p_mileageRate := mr |}).
Proof.
  split; [|split; [|split]].
  - intros tbl rid m Hm Hz.
    exact (resolve_zero_multiplier binary64_zero_falsy tbl rid m Hm Hz).
  - intros r h d mr.
    exact (time_based_zero_multiplier binary64_zero_falsy r h 0%float d mr eq_refl).
  - intros tbl rid m Hm Hz.
    apply (resolve_zero_multiplier exact_zero_falsy tbl rid m Hm).
    now apply Qeq_bool_iff.
  - intros r h d mr.
    exact (time_based_zero_multiplier exact_zero_falsy r h 0%Q d mr eq_refl).
Qed.

Lemma zero_multiplier_is_one_witness :
  resolveModifierMultiplier
    ({[ "zero" := modifier "Zero" 0%float false ]} : gmap string (RateModifier float))
    (Some "zero") = 1%float
  /\ resolveModifierMultiplier
       ({[ "zero" := modifier "Zero" 0%Q false ]} : gmap string (RateModifier Q))
       (Some "zero") = 1%Q.
Proof.
  split.
  - apply (proj1 zero_multiplier_is_one _ "zero" (modifier "Zero" 0%float false)).
    + reflexivity.
    + reflexivity.
  - apply (proj1 (proj2 (proj2 zero_multiplier_is_one)) _ "zero"
                 (modifier "Zero" 0%Q false)).
    + reflexivity.
    + reflexivity.
Defined.

(** ** Time-based line valuation (C3) *)

Section OrElse.

Context {num : Type} `{JsNum num}.

Lemma or_else_truthy (x d : num) : truthy x = true -> or_else x d = x.
Proof. intros Hx. unfold or_else. now rewrite Hx. Qed.

Lemma truthy_or_else (x d : num) : truthy d = true -> truthy (or_else x d) = true.
Proof. intros Hd. unfold or_else. destruct (truthy x) eqn:Hx; assumption. Qed.

Lemma truthy_resolveModifierMultiplier (tbl : gmap string (RateModifier num)) rid :
  truthy one = true -> truthy (resolveModifierMultiplier tbl rid) = true.
Proof.
  intros H1. unfold resolveModifierMultiplier.
  destruct rid as [rid|]; [|assumption].
  destruct (String.eqb rid ""); [assumption|].
  destruct (tbl !! rid); [now apply truthy_or_else | assumption].
Qed.

Lemma truthy_resolveMileageRate (setting : option num) :
  truthy (dec 70 100) = true -> truthy (resolveMileageRate setting) = true.
Proof.
  intros H1. unfold resolveMileageRate.
  destruct setting; [now apply truthy_or_else | assumption].
Qed.

End OrElse.

Lemma plain_zero : B64.plain 0%float.
Proof. split; [reflexivity | float_neq]. Qed.

Lemma number_or_plain (o : option float) :
  (forall x, o = Some x -> B64.plain x) ->
  number_or o zero = nullish o zero /\ B64.plain (nullish o zero).
Proof.
  intros Ho. destruct o as [x|]; simpl.
  - split; [apply B64Facts.or_else_plain|]; now apply Ho.
  - split; [reflexivity | apply plain_zero].
Qed.

(** The formula as the specification words it fails on a modifier whose stored
    multiplier is 0: the line is valued with 1.0. *)
Lemma time_based_valuation_counterexample :
  ~ (forall (tbl : gmap string (RateModifier float)) (setting : option float)
            (item : ItemInput float) (h : float),
        hours item = Some h -> (h >? zero)%js = true ->
        lineTotal tbl setting item
        = spec_timeBasedGross tbl (spec_mileageRate setting) h item).
Proof.
  intros Hall.
  specialize (Hall {[ "zero" := modifier "Zero" 0%float false ]} None
                     (timeItem 2%float 50%float (Some "zero") None) 2%float
                     eq_refl eq_refl).
  vm_compute in Hall. revert Hall. float_neq.
Qed.

(** It fails as well on a configured mileage rate of 0, which is replaced by
    0.70: 2 hours at 50 with 10 miles are valued 107, not 100. *)
Lemma configured_zero_mileage_rate :
  let item := timeItem 2%float 50%float None (Some 10%float) in
  lineTotal ∅ (Some 0%float) item = 107%float
  /\ spec_timeBasedGross ∅ (spec_mileageRate (Some 0%float)) 2%float item = 100%float.
Proof. vm_compute. split; reflexivity. Qed.

(** C3, amended.  On binary64, a time-based line (hours present and > 0,
    rate and distance ordinary numbers when present) is valued
    [r2(rate * hours * multiplier + distance * mileageRate)], an absent rate
    or distance counting as 0, where the multiplier is the stored one when
    the id resolves to a multiplier that is neither 0 nor NaN, and 1.0 in
    every other case (no id, unknown id, stored 0), and the mileage rate is
    the configured one when that is neither 0 nor NaN, and 0.70 in every
    other case (none configured, 0, not a number).  The line of the
    specification's first scenario is valued 208.50. *)
Theorem time_based_valuation :
  (forall (tbl : gmap string (RateModifier float)) (setting : option float)
          (item : ItemInput float) (h : float),
      hours item = Some h -> (0 <? h)%float = true ->
      (forall r, rate item = Some r -> B64.plain r) ->
      (forall d, distance item = Some d -> B64.plain d) ->
      lineTotal tbl setting item
      = r2 (nullish (rate item) 0 * h
            * resolveModifierMultiplier tbl (rateModifierId item)
            + nullish (distance item) 0 * resolveMileageRate setting)%float)
  /\ (forall tbl : gmap string (RateModifier float),
         resolveModifierMultiplier tbl None = 1%float)
  /\ (forall (tbl : gmap string (RateModifier float)) rid,
         tbl !! rid = None -> resolveModifierMultiplier tbl (Some rid) = 1%float)
  /\ (forall (tbl : gmap string (RateModifier float)) rid m,
         rid <> "" -> tbl !! rid = Some m -> B64.truthy (multiplier m) = true ->
         resolveModifierMultiplier tbl (Some rid) = multiplier m)
  /\ (forall (tbl : gmap string (RateModifier float)) rid m,
         tbl !! rid = Some m -> B64.truthy (multiplier m) = false ->
         resolveModifierMultiplier tbl (Some rid) = 1%float)
  /\ resolveMileageRate None = 0.7%float
  /\ (forall v : float, B64.truthy v = true -> resolveMileageRate (Some v) = v)
  /\ (forall v : float, B64.truthy v = false -> resolveMileageRate (Some v) = 0.7%float)
  /\ lineTotal {[ "holiday" := modifier "Holiday" 1.5%float false ]} (Some 0.70%float)
               (timeItem 2.5%float 50%float (Some "holiday") (Some 30%float))
     = 208.5%float.
Proof.
  split; [|split; [|split; [|split; [|split; [|split; [|split; [|split]]]]]]].
  - intros tbl setting item h Hh Hpos Hrate Hdist.
    unfold lineTotal. rewrite Hh.
    change ((h >? zero)%js) with (0 <? h)%float. rewrite Hpos.
    unfold calculateTimeBasedLineTotal.
    cbn [p_rate p_hours p_modifierMultiplier p_distance p_mileageRate].
    change (number_or (Some (resolveMileageRate setting)) zero)
      with (or_else (resolveMileageRate setting) zero).
    destruct (number_or_plain (rate item) Hrate) as [-> Hr].
    destruct (number_or_plain (distance item) Hdist) as [-> _].
    rewrite (B64Facts.or_else_plain _ Hr).
    pose proof (B64Facts.gt_zero_truthy h Hpos) as Hth.
    rewrite !(or_else_truthy h) by exact Hth.
    rewrite (or_else_truthy (resolveModifierMultiplier tbl (rateModifierId item)))
      by (apply truthy_resolveModifierMultiplier; reflexivity).
    rewrite (or_else_truthy (resolveMileageRate setting))
      by (apply truthy_resolveMileageRate; reflexivity).
    reflexivity.
  - reflexivity.
  - intros tbl rid Hnone. unfold resolveModifierMultiplier.
    destruct (String.eqb rid ""); [reflexivity|]. now rewrite Hnone.
  - intros tbl rid m Hrid Hm Ht. unfold resolveModifierMultiplier.
    apply String.eqb_neq in Hrid. rewrite Hrid, Hm. now apply or_else_truthy.
  - intros tbl rid m Hm Ht. unfold resolveModifierMultiplier.
    destruct (String.eqb rid ""); [reflexivity|]. rewrite Hm.
    unfold or_else. cbn. now rewrite Ht.
  - vm_compute. reflexivity.
  - intros v Hv. unfold resolveMileageRate. now apply or_else_truthy.
  - intros v Hv. unfold resolveMileageRate, or_else. cbn [truthy binary64].
    rewrite Hv. vm_compute. reflexivity.
  - vm_compute. reflexivity.
Qed.

Lemma time_based_valuation_witness :
  lineTotal (∅ : gmap string (RateModifier float)) None
            (timeItem 2%float 50%float None (Some 30%float))
  = r2 (50 * 2 * 1 + 30 * resolveMileageRate None)%float
  /\ resolveModifierMultiplier (∅ : gmap string (RateModifier float)) (Some "gone")
     = 1%float
  /\ resolveModifierMultiplier
       ({[ "holiday" := modifier "Holiday" 1.5%float false ]}
        : gmap string (RateModifier float)) (Some "holiday") = 1.5%float
  /\ resolveModifierMultiplier
       ({[ "zero" := modifier "Zero" 0%float false ]}
        : gmap string (RateModifier float)) (Some "zero") = 1%float
  /\ resolveMileageRate (Some 0.5%float) = 0.5%float
  /\ resolveMileageRate (Some 0%float) = 0.7%float.
Proof.
  destruct time_based_valuation
    as (Hline & _ & Hnone & Hsome & Hzero & _ & Hrate & Hdefault & _).
  split; [|split; [|split; [|split; [|split]]]].
  - apply (Hline ∅ None (timeItem 2%float 50%float None (Some 30%float)) 2%float).
    + reflexivity.
    + reflexivity.
    + intros r Hr. injection Hr as <-. split; [reflexivity | float_neq].
    + intros d Hd. injection Hd as <-. split; [reflexivity | float_neq].
  - apply Hnone. reflexivity.
  - apply (Hsome _ "holiday" (modifier "Holiday" 1.5%float false)).
    + discriminate.
    + reflexivity.
    + reflexivity.
  - apply (Hzero _ "zero" (modifier "Zero" 0%float false)).
    + reflexivity.
    + reflexivity.
  - apply Hrate. reflexivity.
  - apply Hdefault. reflexivity.
Defined.

(** ** Facts about exact arithmetic *)

Module ExactFacts.

Local Open Scope Q_scope.

Lemma Qle_bool_false (x y : Q) : Qle_bool x y = false <-> y < x.
Proof.
  rewrite <- not_true_iff_false, Qle_bool_iff. split.
  - apply Qnot_le_lt.
  - apply Qlt_not_le.
Qed.

Lemma gt_true (x y : Q) : (x >? y)%js = true <-> y < x.
Proof. cbn. unfold Exact.gt. rewrite negb_true_iff. apply Qle_bool_false. Qed.

Lemma gt_false (x y : Q) : (x >? y)%js = false <-> x <= y.
Proof. cbn. unfold Exact.gt. rewrite negb_false_iff. apply Qle_bool_iff. Qed.

Lemma or_else_zero (x : Q) : or_else x zero == x.
Proof.
  unfold or_else. cbn. unfold Exact.truthy.
  destruct (Qeq_bool x 0) eqn:Hx; simpl; [|reflexivity].
  apply Qeq_bool_iff in Hx. now rewrite Hx.
Qed.

Lemma max_spec (x y : Q) :
  (x <= y /\ Math_max x y = y) \/ (y < x /\ Math_max x y = x).
Proof.
  cbn. unfold Exact.max. destruct (Qle_bool x y) eqn:Hxy.
  - left. split; [now apply Qle_bool_iff | reflexivity].
  - right. split; [now apply Qle_bool_false | reflexivity].
Qed.

Lemma min_spec (x y : Q) :
  (x <= y /\ Math_min x y = x) \/ (y < x /\ Math_min x y = y).
Proof.
  cbn. unfold Exact.min. destruct (Qle_bool x y) eqn:Hxy.
  - left. split; [now apply Qle_bool_iff | reflexivity].
  - right. split; [now apply Qle_bool_false | reflexivity].
Qed.

#[global] Instance max_proper : Proper (Qeq ==> Qeq ==> Qeq) (Math_max (num := Q)).
Proof.
  intros x x' Hx y y' Hy.
  destruct (max_spec x y) as [[H1 ->] | [H1 ->]],
           (max_spec x' y') as [[H2 ->] | [H2 ->]]; lra.
Qed.

#[global] Instance min_proper : Proper (Qeq ==> Qeq ==> Qeq) (Math_min (num := Q)).
Proof.
  intros x x' Hx y y' Hy.
  destruct (min_spec x y) as [[H1 ->] | [H1 ->]],
           (min_spec x' y') as [[H2 ->] | [H2 ->]]; lra.
Qed.

Lemma r2_unfold (x : Q) : r2 x = inject_Z (Qfloor (x * 100 + (1 # 2))) / 100.
Proof. reflexivity. Qed.

Lemma Qfloor_unique (n : Z) (y : Q) :
  inject_Z n <= y -> y < inject_Z (n + 1) -> Qfloor y = n.
Proof.
  intros Hlo Hhi.
  pose proof (Qfloor_le y) as H1. pose proof (Qlt_floor y) as H2.
  assert (Ha : inject_Z n < inject_Z (Qfloor y + 1))
    by (eapply Qle_lt_trans; eassumption).
  assert (Hb : inject_Z (Qfloor y) < inject_Z (n + 1))
    by (eapply Qle_lt_trans; eassumption).
  rewrite <- Zlt_Qlt in Ha, Hb. lia.
Qed.

Lemma Qfloor_add_Z (y : Q) (k : Z) : Qfloor (y + inject_Z k) = (Qfloor y + k)%Z.
Proof.
  apply Qfloor_unique.
  - rewrite inject_Z_plus. pose proof (Qfloor_le y). lra.
  - replace (Qfloor y + k + 1)%Z with ((Qfloor y + 1) + k)%Z by lia.
    rewrite inject_Z_plus. pose proof (Qlt_floor y). lra.
Qed.

#[global] Instance r2_proper : Proper (Qeq ==> Qeq) (r2 (num := Q)).
Proof. intros x y Hxy. rewrite !r2_unfold. now rewrite Hxy. Qed.


Lemma r2_mono (x y : Q) : x <= y -> r2 x <= r2 y.
Proof.
  intros Hxy. rewrite !r2_unfold.
  assert (Hf : (Qfloor (x * 100 + (1 # 2)) <= Qfloor (y * 100 + (1 # 2)))%Z)
    by (apply Qfloor_resp_le; lra).
  rewrite Zle_Qle in Hf.
  unfold Qdiv. apply Qmult_le_compat_r; [exact Hf | discriminate].
Qed.

Lemma r2_add_cents (x : Q) (k : Z) :
  r2 (x + inject_Z k / 100) == r2 x + inject_Z k / 100.
Proof.
  rewrite !r2_unfold.
  assert (E : (x + inject_Z k / 100) * 100 + (1 # 2)
              == (x * 100 + (1 # 2)) + inject_Z k) by field.
  rewrite E, Qfloor_add_Z, inject_Z_plus. field.
Qed.

Lemma r2_cents (k : Z) : r2 (inject_Z k / 100) == inject_Z k / 100.
Proof.
  rewrite r2_unfold.
  assert (E : inject_Z k / 100 * 100 + (1 # 2) == (1 # 2) + inject_Z k) by field.
  rewrite E, Qfloor_add_Z. change (Qfloor (1 # 2)) with 0%Z. reflexivity.
Qed.

Lemma r2_is_cents (x : Q) : is_cents (r2 x).
Proof. exists (Qfloor (x * 100 + (1 # 2))). now rewrite r2_unfold. Qed.

Lemma r2_of_cents (x : Q) : is_cents x -> r2 x == x.
Proof. intros [k Hk]. rewrite Hk. apply r2_cents. Qed.

Lemma r2_idem (x : Q) : r2 (r2 x) == r2 x.
Proof. apply r2_of_cents, r2_is_cents. Qed.

Lemma r2_minus_cents (x c : Q) : is_cents c -> r2 (x - c) == r2 x - c.
Proof.
  intros [k Hk]. rewrite Hk.
  assert (E : x - inject_Z k / 100 == x + inject_Z (- k) / 100)
    by (rewrite inject_Z_opp; field).
  rewrite E, r2_add_cents, inject_Z_opp. field.
Qed.

Lemma r2_zero : r2 (num := Q) 0 == 0.
Proof. reflexivity. Qed.

Lemma r2_nonneg (x : Q) : 0 <= x -> 0 <= r2 x.
Proof. intros Hx. rewrite <- r2_zero. now apply r2_mono. Qed.

Lemma is_cents_zero : is_cents 0.
Proof. exists 0%Z. reflexivity. Qed.

Lemma is_cents_plus (x y : Q) : is_cents x -> is_cents y -> is_cents (x + y).
Proof.
  intros [k Hk] [l Hl]. exists (k + l)%Z. rewrite Hk, Hl, inject_Z_plus. field.
Qed.

Lemma is_cents_minus (x y : Q) : is_cents x -> is_cents y -> is_cents (x - y).
Proof.
  intros [k Hk] [l Hl]. exists (k - l)%Z.
  rewrite Hk, Hl. unfold Z.sub. rewrite inject_Z_plus, inject_Z_opp. field.
Qed.

#[global] Instance is_cents_proper : Proper (Qeq ==> iff) is_cents.
Proof. intros x y Hxy. unfold is_cents. now setoid_rewrite Hxy. Qed.

(** [reduce((a, b) => a + b, 0)] from another start. *)
Lemma fold_add_start (l : list Q) (a : Q) :
  fold_left Qplus l a == a + fold_left Qplus l 0.
Proof.
  revert a. induction l as [|x l IH]; intros a; simpl.
  - lra.
  - rewrite (IH (a + x)), (IH (0 + x)). lra.
Qed.

Lemma sum_cons (x : Q) (l : list Q) : sum (x :: l) == x + sum l.
Proof.
  unfold sum. cbn [fold_left add exact]. rewrite fold_add_start.
  change (zero (num := Q)) with 0. lra.
Qed.

End ExactFacts.

(** ** Discount resolution and clamp (C4) *)

Lemma binary64_finalDiscount (S pct amt : float) :
  PrimFloat.is_nan amt = false ->
  finalDiscount S pct amt = spec_finalDiscount S pct amt.
Proof.
  intros Hnan. unfold finalDiscount, spec_finalDiscount.
  destruct (pct >? zero)%js; [reflexivity|].
  unfold or_else. destruct (truthy amt) eqn:Ht; [reflexivity|].
  destruct (B64Facts.falsy_inv amt Ht) as [Hn | [-> | ->]].
  - congruence.
  - reflexivity.
  - reflexivity.
Qed.

Lemma exact_finalDiscount (S pct amt : Q) :
  finalDiscount S pct amt == spec_finalDiscount S pct amt.
Proof.
  unfold finalDiscount, spec_finalDiscount.
  destruct (pct >? zero)%js; [reflexivity|].
  now rewrite ExactFacts.or_else_zero.
Qed.

(** With a negative subtotal the final discount is the subtotal. *)
Lemma negative_subtotal_discount (S pct amt : float) :
  (S <? 0)%float = true -> PrimFloat.is_nan (spec_finalDiscount S pct amt) = false ->
  spec_finalDiscount S pct amt = S.
Proof.
  intros HS Hn. unfold spec_finalDiscount in *.
  set (d := if (pct >? zero)%js then _ else _) in *.
  cbn [Math_max Math_min binary64] in *. change zero with 0%float in *.
  destruct (B64Facts.min_not_nan _ _ Hn) as [Hx HS'].
  destruct (B64Facts.max_not_nan _ _ Hx) as [Hd _].
  pose proof (B64Facts.lt_zero_le S _ HS (B64Facts.max_zero_le d Hd)) as Hlt.
  unfold B64.min. rewrite Hx, HS'. cbn [orb].
  rewrite (B64Facts.leb_not_ltb _ _ (B64Facts.ltb_leb _ _ Hlt)), Hlt. reflexivity.
Qed.

Lemma exact_negative_subtotal_discount (S pct amt : Q) :
  (S < 0)%Q -> (spec_finalDiscount S pct amt == S)%Q.
Proof.
  intros HS. unfold spec_finalDiscount.
  set (d := if (pct >? zero)%js then _ else _).
  change (zero (num := Q)) with 0%Q.
  destruct (ExactFacts.max_spec d 0) as [[H1 E1] | [H1 E1]];
  destruct (ExactFacts.min_spec (Math_max d 0%Q) S) as [[H2 E2] | [H2 E2]];
  rewrite ?E2, ?E1 in *; try lra.
Qed.

(** A negative flat discount does not always clamp to 0: on one line of
    -100 a flat discount of -5 gives the discount amount -100. *)
Lemma discount_clamp_counterexample :
  ~ (forall (items : list (ItemInput float)) (pct amt taxRate : float)
            (incl : bool) (mode : RoundingMode),
        (amt <? 0)%float = true -> (0 <? pct)%float = false ->
        (discountAmount (calculateInvoiceTotals items pct amt taxRate incl mode) =? 0)%float
        = true).
Proof.
  intros Hall.
  specialize (Hall [quantityItem 1 (-100)]%float 0%float (-5)%float 0%float false Line
                   eq_refl eq_refl).
  vm_compute in Hall. discriminate Hall.
Qed.

(** C4, amended.  The final discount is [min(max(d, 0), subtotal)], with
    [d = subtotal * (discountPercentage / 100)] when the percentage is
    positive and [d = discountAmount] otherwise; both calculators return its
    [r2].  It never exceeds the subtotal; a negative flat discount clamps to
    0 when the subtotal is not negative, and with a negative subtotal the
    final discount is the subtotal itself.  Stated on binary64 (for a flat
    discount that is a number) and in exact arithmetic. *)
Theorem discount_resolution_and_clamp :
  (forall (items : list (ItemInput float)) (pct amt taxRate : float)
          (incl : bool) (mode : RoundingMode),
      PrimFloat.is_nan amt = false ->
      let S := sum (map lineGross items) in
      finalDiscount S pct amt = spec_finalDiscount S pct amt
      /\ discountAmount (calculateInvoiceTotals items pct amt taxRate incl mode)
         = r2 (spec_finalDiscount S pct amt)
      /\ discountAmount (totals (calculatePerLineTotals items pct amt incl mode))
         = r2 (spec_finalDiscount S pct amt)
      /\ (PrimFloat.is_nan (spec_finalDiscount S pct amt) = false ->
          (spec_finalDiscount S pct amt <=? S)%float = true)
      /\ ((amt <? 0)%float = true -> (0 <? pct)%float = false ->
          (0 <=? S)%float = true ->
          (spec_finalDiscount S pct amt =? 0)%float = true)
      /\ ((S <? 0)%float = true ->
          PrimFloat.is_nan (spec_finalDiscount S pct amt) = false ->
          spec_finalDiscount S pct amt = S))
  /\ (forall (items : list (ItemInput Q)) (pct amt taxRate : Q)
             (incl : bool) (mode : RoundingMode),
         let S := sum (map lineGross items) in
         finalDiscount S pct amt == spec_finalDiscount S pct amt
         /\ discountAmount (calculateInvoiceTotals items pct amt taxRate incl mode)
            == r2 (spec_finalDiscount S pct amt)
         /\ discountAmount (totals (calculatePerLineTotals items pct amt incl mode))
            == r2 (spec_finalDiscount S pct amt)
         /\ (spec_finalDiscount S pct amt <= S)%Q
         /\ (amt < 0 -> ~ 0 < pct -> 0 <= S -> spec_finalDiscount S pct amt == 0)%Q
         /\ (S < 0 -> spec_finalDiscount S pct amt == S)%Q).
Proof.
  split.
  - intros items pct amt taxRate incl mode Hnan S.
    pose proof (binary64_finalDiscount S pct amt Hnan) as Hfd.
    split; [exact Hfd|].
    split; [cbn [calculateInvoiceTotals discountAmount]; fold S; now rewrite Hfd|].
    split; [cbn [calculatePerLineTotals totals discountAmount]; fold S; now rewrite Hfd|].
    split; [|split].
    3:{ apply negative_subtotal_discount. }
    + unfold spec_finalDiscount. intros Hn.
      destruct (B64Facts.min_not_nan _ _ Hn) as [Ha HS].
      now apply B64Facts.min_le_r.
    + intros Hneg Hpct Hpos. unfold spec_finalDiscount.
      change ((pct >? zero)%js) with (0 <? pct)%float. rewrite Hpct.
      destruct (B64Facts.ltb_not_nan _ _ Hneg) as [Hamt _].
      destruct (B64Facts.leb_not_nan _ _ Hpos) as [_ HS].
      cbn [Math_max Math_min binary64]. unfold B64.max.
      rewrite Hamt. change (PrimFloat.is_nan zero) with false.
      change zero with 0%float. cbn [orb]. rewrite Hneg.
      unfold B64.min. rewrite HS. change (PrimFloat.is_nan 0) with false. cbn [orb].
      destruct (0 <? S)%float eqn:H0S; [reflexivity|].
      rewrite (B64Facts.leb_not_ltb _ _ Hpos).
      change (get_sign 0) with false. cbn iota.
      apply B64Facts.leb_refl_eq; auto. now apply B64Facts.leb_not_ltb.
  - intros items pct amt taxRate incl mode S.
    split; [apply exact_finalDiscount|].
    split.
    { cbn [calculateInvoiceTotals discountAmount]. fold S.
      now rewrite exact_finalDiscount. }
    split.
    { cbn [calculatePerLineTotals totals discountAmount]. fold S.
      now rewrite exact_finalDiscount. }
    split; [|split; [|apply exact_negative_subtotal_discount]];
      unfold spec_finalDiscount; set (d := if (pct >? zero)%js then _ else _).
    + destruct (ExactFacts.min_spec (Math_max d zero) S) as [[H1 ->] | [H1 ->]]; lra.
    + intros Hneg Hpct Hpos.
      assert (Hd : d = amt).
      { subst d. destruct (pct >? zero)%js eqn:Hp; [|reflexivity].
        apply ExactFacts.gt_true in Hp. contradiction. }
      rewrite Hd. change (zero (num := Q)) with 0%Q.
      destruct (ExactFacts.max_spec amt 0) as [[H1 ->] | [H1 ->]]; [|lra].
      destruct (ExactFacts.min_spec 0 S) as [[H2 ->] | [H2 ->]]; lra.
Qed.

Lemma discount_resolution_and_clamp_witness :
  (let S := sum (map lineGross [quantityItem 1%float 400%float]) in
   finalDiscount S 10%float 500%float = spec_finalDiscount S 10%float 500%float
   /\ (spec_finalDiscount S 10%float 500%float <=? S)%float = true
   /\ (spec_finalDiscount S 0%float (-5)%float =? 0)%float = true)
  /\ (let S := sum (map lineGross [quantityItem 1%Q 400%Q]) in
      spec_finalDiscount S 0%Q (-5)%Q == 0)%Q
  /\ (let S := sum (map lineGross [quantityItem 1%float (-100)%float]) in
      spec_finalDiscount S 0%float (-5)%float = S).
Proof.
  destruct discount_resolution_and_clamp as [Hfloat Hexact].
  split; [|split].
  - intros S.
    destruct (Hfloat [quantityItem 1%float 400%float] 10%float 500%float 0%float
                     false Line eq_refl) as (H1 & _ & _ & H4 & _).
    destruct (Hfloat [quantityItem 1%float 400%float] 0%float (-5)%float 0%float
                     false Line eq_refl) as (_ & _ & _ & _ & H5 & _).
    split; [exact H1|]. split; [apply H4; reflexivity|].
    apply H5; reflexivity.
  - intros S.
    destruct (Hexact [quantityItem 1%Q 400%Q] 0%Q (-5)%Q 0%Q false Line)
      as (_ & _ & _ & _ & H5 & _).
    apply H5.
    + reflexivity.
    + intros H. discriminate H.
    + vm_compute. discriminate.
  - intros S.
    destruct (Hfloat [quantityItem 1%float (-100)%float] 0%float (-5)%float 0%float
                     false Line eq_refl) as (_ & _ & _ & _ & _ & H6).
    apply H6; reflexivity.
Defined.

(** ** Division guards (C5) *)

(** C5.  The recalculation that ends [createInvoice] and [updateInvoice]
    divides by [1 + taxRate / 100] without a test: with a tax rate of -100 and
    tax-inclusive prices the divisor is 0, and the stored tax amount is
    [-Infinity] (or [NaN] on an empty subtotal), where
    [calculateInvoiceTotals] returns 0 on the same input. *)
Theorem recalculation_divides_by_zero :
  let items := [quantityItem 1%float 100%float] in
  let data := request items (Some (-100)%float) (Some true) None in
  let existing := {| ex_discountPercentage := 0%float; ex_discountAmount := 0%float;
                     ex_taxRate := 0%float; ex_pricesIncludeTax := false;
                     ex_roundingMode := None |} in
  taxAmount (createInvoice_totals ∅ plain_settings data) = neg_infinity
  /\ taxAmount (updateInvoice_totals ∅ None existing data) = neg_infinity
  /\ PrimFloat.is_nan
       (taxAmount (createInvoice_totals ∅ plain_settings
                     (request [] (Some (-100)%float) (Some true) None))) = true
  /\ taxAmount (calculateInvoiceTotals items 0%float 0%float (-100)%float true Line)
     = 0%float
  /\ taxAmount (createInvoice_initialTotals plain_settings data) = 0%float.
Proof. vm_compute. repeat split; reflexivity. Qed.

(** ** The rate-modifier store (C6, C7) *)

Section StoreFacts.

Context {num : Type}.
Implicit Types (tbl : gmap string (RateModifier num)) (db : Db num).

Lemma usage_count_pos db id : (0 < usage_count db id)%nat <-> in_use db id.
Proof.
  unfold usage_count, in_use. induction (invoice_items db) as [|r l IH]; simpl.
  - split; [lia | tauto].
  - destruct r as [r|].
    + destruct (String.eqb r id) eqn:Hr; simpl.
      * apply String.eqb_eq in Hr. subst r. split; [auto | lia].
      * apply String.eqb_neq in Hr. rewrite IH. split; [auto|].
        intros [Heq | Hin]; [congruence | assumption].
    + rewrite IH. split; [auto|]. intros [Heq | Hin]; [discriminate | assumption].
Qed.

Lemma lookup_unset_all_defaults tbl i :
  unset_all_defaults tbl !! i = unset_default <$> tbl !! i.
Proof. unfold unset_all_defaults. apply lookup_fmap. Qed.

Lemma unset_all_defaults_none tbl i m :
  unset_all_defaults tbl !! i = Some m -> isDefault m = false.
Proof.
  rewrite lookup_unset_all_defaults. destruct (tbl !! i); simpl; [|discriminate].
  intros [= <-]. reflexivity.
Qed.

(** Every mutation keeps at most one row flagged default. *)
Lemma insert_fresh_default_at_most_one tbl rid row :
  (forall i m, tbl !! i = Some m -> isDefault m = false) ->
  at_most_one_default (<[rid := row]> tbl).
Proof.
  intros Hnone i j mi mj Hi Hj Hdi Hdj.
  destruct (decide (rid = i)) as [Ei|Hne], (decide (rid = j)) as [Ej|Hne'];
    [congruence | | | ].
  - rewrite lookup_insert_ne in Hj; [|assumption].
    apply Hnone in Hj. congruence.
  - rewrite lookup_insert_ne in Hi; [|assumption].
    apply Hnone in Hi. congruence.
  - rewrite lookup_insert_ne in Hi; [|assumption].
    apply Hnone in Hi. congruence.
Qed.

Lemma insert_fresh_plain_at_most_one tbl rid row :
  isDefault row = false -> at_most_one_default tbl ->
  at_most_one_default (<[rid := row]> tbl).
Proof.
  intros Hrow Hinv i j mi mj Hi Hj Hdi Hdj.
  destruct (decide (rid = i)) as [Ei|Hne].
  { subst i. rewrite lookup_insert_eq in Hi. injection Hi as <-. congruence. }
  destruct (decide (rid = j)) as [Ej|Hne'].
  { subst j. rewrite lookup_insert_eq in Hj. injection Hj as <-. congruence. }
  rewrite lookup_insert_ne in Hi; [|assumption].
  rewrite lookup_insert_ne in Hj; [|assumption]. eauto.
Qed.

(** Every mutation keeps at most one row flagged default. *)
Lemma createRateModifier_at_most_one now rid data db :
  at_most_one_default (rate_modifiers db) ->
  at_most_one_default (rate_modifiers (fst (createRateModifier now rid data db))).
Proof.
  intros Hinv. unfold createRateModifier.
  destruct (c_isDefault data) as [[|]|]; simpl.
  - destruct (unset_all_defaults (rate_modifiers db) !! rid) eqn:Hid; simpl.
    + intros i j mi mj Hi Hj Hdi Hdj.
      apply unset_all_defaults_none in Hi. congruence.
    + apply insert_fresh_default_at_most_one.
      intros i m. apply unset_all_defaults_none.
  - destruct (rate_modifiers db !! rid) eqn:Hid; simpl; [assumption|].
    now apply insert_fresh_plain_at_most_one.
  - destruct (rate_modifiers db !! rid) eqn:Hid; simpl; [assumption|].
    now apply insert_fresh_plain_at_most_one.
Qed.

Lemma deleteRateModifier_at_most_one id db :
  at_most_one_default (rate_modifiers db) ->
  at_most_one_default (rate_modifiers (fst (deleteRateModifier id db))).
Proof.
  intros Hinv. unfold deleteRateModifier, getRateModifierById.
  destruct (rate_modifiers db !! id) as [m|]; [|assumption].
  destruct (isDefault m); [assumption|].
  destruct (0 <? usage_count db id)%nat; [assumption|]. simpl.
  intros i j mi mj Hi Hj. apply lookup_delete_Some in Hi, Hj.
  destruct Hi as [_ Hi], Hj as [_ Hj]. eauto.
Qed.

Lemma updateRateModifier_at_most_one now rid data db :
  at_most_one_default (rate_modifiers db) ->
  at_most_one_default (rate_modifiers (fst (updateRateModifier now rid data db))).
Proof.
  intros Hinv. unfold updateRateModifier, getRateModifierById.
  destruct (rate_modifiers db !! rid) as [existing|] eqn:Hid; [|assumption].
  simpl.
  set (nd := match u_isDefault data with Some b => b | None => isDefault existing end).
  set (row := fun r : RateModifier num =>
                {| name := _; multiplier := _; rm_description := _; isDefault := nd;
                   createdAt := createdAt r; updatedAt := now |}).
  intros i j mi mj Hi Hj Hdi Hdj.
  destruct (nd && negb (isDefault existing)) eqn:Hc.
  - (* every other row has been unset *)
    destruct (decide (i = rid)) as [Ei|Hne], (decide (j = rid)) as [Ej|Hne'];
      [congruence | | | ].
    + rewrite lookup_alter_ne in Hj; [|auto].
      apply unset_all_defaults_none in Hj. congruence.
    + rewrite lookup_alter_ne in Hi; [|auto].
      apply unset_all_defaults_none in Hi. congruence.
    + rewrite lookup_alter_ne in Hi; [|auto].
      apply unset_all_defaults_none in Hi. congruence.
  - (* the row keeps its flag or loses it *)
    assert (Hnd : nd = true -> isDefault existing = true).
    { intros Hn. rewrite Hn in Hc. now destruct (isDefault existing). }
    assert (Hrow : forall k mk,
               alter row rid (rate_modifiers db) !! k = Some mk ->
               isDefault mk = true ->
               exists mk', rate_modifiers db !! k = Some mk'
                           /\ isDefault mk' = true).
    { intros k mk Hk Hdk. destruct (decide (k = rid)) as [Ek|Hne].
      - subst k. rewrite lookup_alter_eq, Hid in Hk. simpl in Hk.
        injection Hk as <-. simpl in Hdk. exists existing. auto.
      - rewrite lookup_alter_ne in Hk; [|auto]. eauto. }
    destruct (Hrow i mi Hi Hdi) as (mi' & Hi' & Hdi').
    destruct (Hrow j mj Hj Hdj) as (mj' & Hj' & Hdj').
    eauto.
Qed.

(** [createRateModifier] with a fresh id and [deleteRateModifier] keep the
    number of default rows at one. *)
Lemma default_count_unset_all tbl : default_count (unset_all_defaults tbl) = 0%nat.
Proof.
  unfold default_count. apply map_size_empty_iff, map_empty_filter.
  intros i m Hi Hd. apply unset_all_defaults_none in Hi. simpl in Hd. congruence.
Qed.

Lemma default_count_insert_fresh tbl rid row :
  tbl !! rid = None ->
  default_count (<[rid := row]> tbl)
  = (if isDefault row then Datatypes.S (default_count tbl) else default_count tbl).
Proof.
  intros Hfresh. unfold default_count. destruct (isDefault row) eqn:Hd.
  - rewrite map_filter_insert_True; [|exact Hd].
    apply map_size_insert_None. apply map_lookup_filter_None. now left.
  - rewrite map_filter_insert_False; [|simpl; congruence].
    now rewrite delete_id.
Qed.

Lemma createRateModifier_one_default now rid data db :
  rate_modifiers db !! rid = None ->
  default_count (rate_modifiers db) = 1%nat ->
  default_count (rate_modifiers (fst (createRateModifier now rid data db))) = 1%nat.
Proof.
  intros Hfresh Hone. unfold createRateModifier.
  destruct (c_isDefault data) as [[|]|]; simpl.
  - assert (Hf : unset_all_defaults (rate_modifiers db) !! rid = None)
      by (rewrite lookup_unset_all_defaults, Hfresh; reflexivity).
    rewrite Hf. simpl. rewrite default_count_insert_fresh; [|exact Hf].
    simpl. now rewrite default_count_unset_all.
  - rewrite Hfresh. simpl. now rewrite default_count_insert_fresh.
  - rewrite Hfresh. simpl. now rewrite default_count_insert_fresh.
Qed.

Lemma deleteRateModifier_default_count rid db :
  default_count (rate_modifiers (fst (deleteRateModifier rid db)))
  = default_count (rate_modifiers db).
Proof.
  unfold deleteRateModifier, getRateModifierById.
  destruct (rate_modifiers db !! rid) as [m|] eqn:Hm; [|reflexivity].
  destruct (isDefault m) eqn:Hd; [reflexivity|].
  destruct (0 <? usage_count db rid)%nat; [reflexivity|]. simpl.
  unfold default_count. rewrite map_filter_delete_not; [reflexivity|].
  intros m' Hm'. simpl. congruence.
Qed.

End StoreFacts.

(** C6.  [updateRateModifier] breaks the invariant: clearing the flag of the
    only default modifier leaves no default at all. *)
Theorem update_can_leave_no_default :
  default_count (rate_modifiers seeded_db) = 1%nat
  /\ default_count
       (rate_modifiers
          (fst (updateRateModifier 1 "standard"
                  {| u_name := None; u_multiplier := None; u_description := None;
                     u_isDefault := Some false |} seeded_db))) = 0%nat.
Proof. vm_compute. split; reflexivity. Qed.

(** After a restart two modifiers can be flagged default. *)
Lemma restarted_db_two_defaults :
  getRateModifierById restarted_db "night"
  = Some {| name := "Night"; multiplier := 2%float; rm_description := None;
            isDefault := true; createdAt := 2; updatedAt := 2 |}
  /\ getRateModifierById restarted_db "standard"
     = Some {| name := "Standard"; multiplier := 1%float;
               rm_description := Some "Regular daytime work";
               isDefault := true; createdAt := 4; updatedAt := 4 |}.
Proof. vm_compute. split; reflexivity. Qed.

(** There [deleteRateModifier] raises for a modifier that is neither in use
    nor the sole default. *)
Lemma delete_protection_counterexample :
  ~ (forall (db : Db float) (id : string) (m : RateModifier float),
        getRateModifierById db id = Some m ->
        (snd (deleteRateModifier id db) <> None
         <-> (in_use db id \/ sole_default (rate_modifiers db) id))).
Proof.
  intros Hall.
  destruct restarted_db_two_defaults as [Hnight Hstd].
  destruct (Hall restarted_db "night" _ Hnight) as [Hraise _].
  destruct Hraise as [Hin | [_ Hsole]].
  - vm_compute. discriminate.
  - destruct Hin.
  - specialize (Hsole "standard" _ Hstd eq_refl). discriminate Hsole.
Qed.

(** C7, amended.  For an existing modifier, [deleteRateModifier] raises
    exactly when the modifier is flagged default or is in use, whether or not
    another modifier is flagged too; in a store with at most one default
    (which [createRateModifier], [updateRateModifier] and
    [deleteRateModifier] keep so) that is: exactly when it is in use or is
    the sole default.  When it raises the store is unchanged; otherwise the
    row is removed and nothing else changes. *)
Theorem delete_raises_iff_protected :
  forall (db : Db float) (id : string) (m : RateModifier float),
    getRateModifierById db id = Some m ->
    let result := deleteRateModifier id db in
    (snd result <> None <-> (isDefault m = true \/ in_use db id))
    /\ (at_most_one_default (rate_modifiers db) ->
        (snd result <> None <-> (in_use db id \/ sole_default (rate_modifiers db) id)))
    /\ (snd result <> None -> fst result = db)
    /\ (snd result = None ->
        rate_modifiers (fst result) = delete id (rate_modifiers db)
        /\ invoice_items (fst result) = invoice_items db
        /\ getRateModifierById (fst result) id = None).
Proof.
  intros db id m Hm result.
  assert (Hchar : snd result <> None <-> (isDefault m = true \/ in_use db id)).
  { subst result. unfold deleteRateModifier. rewrite Hm.
    destruct (isDefault m) eqn:Hd; simpl.
    - split; [auto | discriminate].
    - destruct (0 <? usage_count db id)%nat eqn:Hu; simpl.
      + apply Nat.ltb_lt, usage_count_pos in Hu. split; [auto | discriminate].
      + apply Nat.ltb_ge in Hu. split; [congruence|].
        intros [Hf | Hin]; [discriminate|].
        apply usage_count_pos in Hin. lia. }
  split; [exact Hchar|]. split; [|split].
  - intros Hinv. rewrite Hchar. split.
    + intros [Hd | Hin]; [right | now left].
      split; [eauto|]. intros j mj Hj Hdj. exact (Hinv j id mj m Hj Hm Hdj Hd).
    + intros [Hin | [(m' & Hm' & Hd') _]]; [now right | left].
      unfold getRateModifierById in Hm. congruence.
  - subst result. unfold deleteRateModifier. rewrite Hm.
    destruct (isDefault m); [reflexivity|].
    destruct (0 <? usage_count db id)%nat; [reflexivity|]. simpl. congruence.
  - subst result. unfold deleteRateModifier. rewrite Hm.
    destruct (isDefault m); [discriminate|].
    destruct (0 <? usage_count db id)%nat; [discriminate|]. simpl. intros _.
    split; [reflexivity|]. split; [reflexivity|].
    unfold getRateModifierById. simpl. apply lookup_delete_eq.
Qed.

Lemma seeded_db_at_most_one : at_most_one_default (rate_modifiers seeded_db).
Proof.
  assert (H : forall k m, rate_modifiers seeded_db !! k = Some m ->
                          isDefault m = true -> k = "standard").
  { intros k m Hk Hd. simpl in Hk.
    destruct (decide (k = "standard")) as [E|Hne]; [exact E|].
    rewrite lookup_insert_ne in Hk; [|congruence].
    apply lookup_singleton_Some in Hk. destruct Hk as [_ <-]. discriminate. }
  intros i j mi mj Hi Hj Hdi Hdj.
  rewrite (H i mi Hi Hdi), (H j mj Hj Hdj). reflexivity.
Qed.

Lemma delete_raises_iff_protected_witness :
  (snd (deleteRateModifier "holiday" seeded_db) <> None
   <-> (isDefault (modifier "Holiday" 1.5%float false) = true
        \/ in_use seeded_db "holiday"))
  /\ (snd (deleteRateModifier "holiday" seeded_db) <> None
      <-> (in_use seeded_db "holiday"
           \/ sole_default (rate_modifiers seeded_db) "holiday"))
  /\ fst (deleteRateModifier "holiday" seeded_db) = seeded_db.
Proof.
  destruct (delete_raises_iff_protected seeded_db "holiday"
              (modifier "Holiday" 1.5%float false) eq_refl)
    as (H1 & H2 & H3 & _).
  split; [exact H1|]. split; [exact (H2 seeded_db_at_most_one)|].
  apply H3. vm_compute. discriminate.
Defined.

(** ** Discount shares (C2) *)

Section Shares.

Context {num : Type} `{JsNum num}.
Local Open Scope js_scope.

Lemma lineDiscounts_snoc (F S : num) (gs : list num) (g D : num) :
  lineDiscounts F S (gs ++ [g]) D
  = map (share F S) gs ++ [r2 (F - fold_left add (map (share F S) gs) D)].
Proof.
  revert D. induction gs as [|a gs IH]; intros D.
  - reflexivity.
  - change ((a :: gs) ++ [g]) with (a :: (gs ++ [g])).
    cbn [map fold_left app].
    rewrite <- (IH (D + share F S a)).
    destruct gs; reflexivity.
Qed.

Lemma perLineDiscounts_zero (F S : num) (gs : list num) (D : num) :
  (S === zero) = true -> perLineDiscounts F S gs D = map (fun _ => zero) gs.
Proof.
  intros HS. revert D. induction gs as [|g gs IH]; intros D; simpl.
  - reflexivity.
  - rewrite HS. now rewrite IH.
Qed.

Lemma perLineDiscounts_nonzero (F S : num) (gs : list num) (D : num) :
  (S === zero) = false -> perLineDiscounts F S gs D = lineDiscounts F S gs D.
Proof.
  intros HS. revert D. induction gs as [|g gs IH]; intros D; simpl.
  - reflexivity.
  - rewrite HS. destruct gs as [|g' gs]; [reflexivity|]. now rewrite IH.
Qed.


End Shares.

Lemma exact_shares_sum (F S : Q) (gs : list Q) (D : Q) :
  is_cents D -> gs <> [] ->
  (fold_left Qplus (lineDiscounts F S gs D) 0 == r2 F - D)%Q.
Proof.
  revert D. induction gs as [|g gs IH]; intros D HD Hne; [congruence|].
  destruct gs as [|g' gs].
  - cbn [lineDiscounts fold_left]. qsimpl.
    rewrite (ExactFacts.r2_minus_cents F D HD). lra.
  - change (lineDiscounts F S (g :: g' :: gs) D)
      with (r2 (F * (g / S))%js
               :: lineDiscounts F S (g' :: gs) (D + r2 (F * (g / S)))%js).
    cbn [fold_left]. rewrite ExactFacts.fold_add_start.
    rewrite IH; [qsimpl; lra | | discriminate].
    apply ExactFacts.is_cents_plus; [assumption | apply ExactFacts.r2_is_cents].
Qed.

(** The shape of the shares, and their sum in exact arithmetic: every line
    but the last gets [r2(finalDiscount * (gross / subtotal))] and the last
    gets [r2(finalDiscount - distributed)], [distributed] the running sum of
    the shares before it (on binary64 and in exact arithmetic).  In exact
    arithmetic, with subtotal > 0, the shares sum to [r2(finalDiscount)], in
    [calculateInvoiceTotals] and in [calculatePerLineTotals].  When the
    subtotal is 0, [calculatePerLineTotals] gives every line the share 0. *)
Lemma shares_in_exact_arithmetic :
  (forall (F S : float) (gs : list float) (g : float),
      lineDiscounts F S (gs ++ [g]) zero
      = map (share F S) gs ++ [r2 (F - sum (map (share F S) gs))%float])
  /\ (forall (F S : float) (gs : list float),
         (S =? 0)%float = false ->
         perLineDiscounts F S gs zero = lineDiscounts F S gs zero)
  /\ (forall (F S : Q) (gs : list Q) (g : Q),
         lineDiscounts F S (gs ++ [g]) zero
         = map (share F S) gs ++ [r2 (F - sum (map (share F S) gs))%Q])
  /\ (forall (F S : Q) (gs : list Q),
         gs <> [] -> (0 < S)%Q ->
         (sum (lineDiscounts F S gs zero) == r2 F)%Q
         /\ (sum (perLineDiscounts F S gs zero) == r2 F)%Q)
  /\ (forall (F S : Q) (gs : list Q),
         (S == 0)%Q -> perLineDiscounts F S gs zero = map (fun _ => 0%Q) gs)
  /\ (forall (F S : float) (gs : list float),
         (S =? 0)%float = true ->
         perLineDiscounts F S gs zero = map (fun _ => 0%float) gs).
Proof.
  split; [|split; [|split; [|split; [|split]]]].
  - intros F S gs g. exact (lineDiscounts_snoc F S gs g zero).
  - intros F S gs HS. exact (perLineDiscounts_nonzero F S gs zero HS).
  - intros F S gs g. exact (lineDiscounts_snoc F S gs g zero).
  - intros F S gs Hne HS.
    assert (Hsum : (sum (lineDiscounts F S gs zero) == r2 F)%Q).
    { unfold sum. qsimpl.
      rewrite (exact_shares_sum F S gs 0 ExactFacts.is_cents_zero Hne). lra. }
    split; [exact Hsum|].
    rewrite perLineDiscounts_nonzero; [exact Hsum|].
    cbn. apply not_true_iff_false. intros HS0.
    apply Qeq_bool_iff in HS0. change (inject_Z 0) with 0%Q in HS0. lra.
  - intros F S gs HS.
    refine (perLineDiscounts_zero F S gs zero _).
    cbn. now apply Qeq_bool_iff.
  - intros F S gs HS. exact (perLineDiscounts_zero F S gs zero HS).
Qed.

(** C2.  On binary64 the shares do not always sum to [r2(finalDiscount)].
    For the gross amounts 1.00 and 11.50 and a discount of 5 % the final
    discount is 0.625, which both calculators return as 0.63; the first line
    gets 0.05 and the last [r2(0.625 - 0.05)], where the difference is the
    double written 0.575, which lies below 575/1000, and its product by 100
    is below 57.5, so the last share is 0.57 and the shares sum to 0.62, in
    [calculateInvoiceTotals] and in [calculatePerLineTotals] alike.  The
    lines are reduced by 0.62 in all, and the total is 11.88.  In exact
    arithmetic the same text gives the last line 0.58 and the total 11.87. *)
Theorem discount_shares_miss_a_cent :
  let items := [quantityItem 1 1; quantityItem 1 11.5]%float in
  let gs := map lineGross items in
  let S := sum gs in
  let F := finalDiscount S 5%float 0%float in
  gs = [1; 11.5]%float /\ S = 12.5%float /\ F = 0.625%float
  /\ r2 F = 0.63%float
  /\ lineDiscounts F S gs zero = [0.05; 0.57]%float
  /\ perLineDiscounts F S gs zero = [0.05; 0.57]%float
  /\ sum (lineDiscounts F S gs zero) = 0.62%float
  /\ (F - 0.05)%float = 0.575%float /\ (0.575 * 100 <? 57.5)%float = true
  /\ calculateInvoiceTotals items 5%float 0%float 0%float false Line
     = {| subtotal := 12.5; discountAmount := 0.63; taxAmount := 0;
          total := 11.88 |}%float
  /\ totals (calculatePerLineTotals items 5%float 0%float false Line)
     = {| subtotal := 12.5; discountAmount := 0.63; taxAmount := 0;
          total := 11.88 |}%float
  /\ (let itemsQ := [quantityItem 1 1; quantityItem 1 (23 # 2)]%Q in
      lineDiscounts (5 # 8) (25 # 2) [1; 23 # 2] zero = [5 # 100; 58 # 100]
      /\ (total (calculateInvoiceTotals itemsQ 5 0 0 false Line) == 1187 # 100))%Q.
Proof. vm_compute. repeat split; reflexivity. Qed.

(** ** Tax is never negative (C8) *)

Module TaxSign.

Local Open Scope Q_scope.

Lemma div_one_plus_le (a r : Q) : 0 <= a -> 0 < r -> 0 <= a / (1 + r) <= a.
Proof.
  intros Ha Hr. split.
  - apply Qle_shift_div_l; lra.
  - apply Qle_shift_div_r; [lra|]. nra.
Qed.

Lemma max_zero_nonneg (x : Q) : 0 <= Math_max zero x.
Proof.
  destruct (ExactFacts.max_spec zero x) as [[H1 ->] | [H1 ->]]; qsimpl; lra.
Qed.


(** The rate [Math.max(0, Number(taxRate) || 0) / 100] *)
Lemma rate_nonneg (t : Q) : 0 <= (Math_max zero (or_else t zero) / hundred)%js.
Proof.
  pose proof (max_zero_nonneg (or_else t zero)) as Hm. qsimpl.
  apply Qle_shift_div_l; lra.
Qed.

Lemma finalDiscount_le (S pct amt : Q) : finalDiscount S pct amt <= S.
Proof.
  unfold finalDiscount.
  match goal with |- Math_min ?a ?b <= _ =>
    destruct (ExactFacts.min_spec a b) as [[H1 ->] | [H1 ->]] end; lra.
Qed.

(** The net amount of a tax-inclusive price. *)
Lemma net_bounds (ad r : Q) :
  0 <= ad -> 0 <= r ->
  let net := if (r >? zero)%js then (ad / (one + r))%js else ad in
  0 <= net <= ad.
Proof.
  intros Had Hr net. subst net.
  destruct (r >? zero)%js eqn:Hgt.
  - apply ExactFacts.gt_true in Hgt. qsimpl. now apply div_one_plus_le.
  - lra.
Qed.

Lemma lineStep_tax_nonneg (rate : Q) (incl : bool) (acc gl : Q * Q) :
  0 <= rate -> 0 <= fst acc -> 0 <= fst (lineStep rate incl acc gl).
Proof.
  intros Hr Hacc. unfold lineStep.
  set (ad := Math_max zero _).
  assert (Had : 0 <= ad) by apply max_zero_nonneg.
  destruct incl; cbn [fst].
  - pose proof (net_bounds ad rate Had Hr) as Hnet. cbv zeta in Hnet.
    set (net := if (rate >? zero)%js then _ else _) in *.
    assert (Ht : 0 <= r2 (ad - net)%js) by (apply ExactFacts.r2_nonneg; qsimpl; lra).
    qsimpl. lra.
  - assert (Ht : 0 <= r2 (ad * rate)%js) by (apply ExactFacts.r2_nonneg; qsimpl; nra).
    qsimpl. lra.
Qed.

Lemma fold_lineStep_tax_nonneg (rate : Q) (incl : bool) (l : list (Q * Q)) (acc : Q * Q) :
  0 <= rate -> 0 <= fst acc -> 0 <= fst (fold_left (lineStep rate incl) l acc).
Proof.
  intros Hr. revert acc. induction l as [|gl l IH]; intros acc Hacc; simpl.
  - exact Hacc.
  - apply IH. now apply lineStep_tax_nonneg.
Qed.

Lemma calculateInvoiceTotals_tax_nonneg (items : list (ItemInput Q))
      (pct amt taxRate : Q) (incl : bool) (mode : RoundingMode) :
  0 <= taxAmount (calculateInvoiceTotals items pct amt taxRate incl mode).
Proof.
  unfold calculateInvoiceTotals. cbn [taxAmount].
  set (rate := (Math_max zero (or_else taxRate zero) / hundred)%js).
  assert (Hr : 0 <= rate) by apply rate_nonneg.
  set (S := sum (map lineGross items)).
  set (F := finalDiscount S pct amt).
  assert (HF : F <= S) by apply finalDiscount_le.
  apply ExactFacts.r2_nonneg.
  destruct (match mode with Line => (S >? zero)%js | Total => false end).
  - cbn [fst]. apply ExactFacts.r2_nonneg.
    apply fold_lineStep_tax_nonneg; [exact Hr | apply Qle_refl].
  - assert (Had : 0 <= (S - F)%js) by (qsimpl; lra).
    destruct incl; cbn [fst].
    + pose proof (net_bounds _ rate Had Hr) as Hnet. cbv zeta in Hnet.
      apply ExactFacts.r2_nonneg. qsimpl. lra.
    + apply ExactFacts.r2_nonneg. qsimpl. nra.
Qed.

(** The per-line path. *)








Lemma sort_insert_Forall (P : SummaryRow Q -> Prop) (x : SummaryRow Q)
      (l : list (SummaryRow Q)) :
  P x -> Forall P l -> Forall P (sort_insert x l).
Proof.
  intros Hx Hl. induction Hl as [|y l Hy Hl IH]; cbn [sort_insert].
  - constructor; [exact Hx | constructor].
  - destruct ((s_percent y - s_percent x)%js >? zero)%js.
    + constructor; [exact Hx|]. constructor; assumption.
    + constructor; assumption.
Qed.



End TaxSign.



(** ** Re-derivation from the persisted line totals (C1) *)

Section Rederivation.

Context {num : Type} `{JsNum num}.
Local Open Scope js_scope.
Hypothesis zero_not_positive : (zero >? zero) = false.

Lemma or_else_idem (x : num) : or_else (or_else x zero) zero = or_else x zero.
Proof.
  unfold or_else. destruct (truthy x) eqn:Hx; [now rewrite Hx|].
  destruct (truthy zero); reflexivity.
Qed.

Lemma number_or_idem (o : option num) :
  or_else (number_or o zero) zero = number_or o zero.
Proof.
  destruct o as [x|]; simpl; [apply or_else_idem|].
  unfold or_else. destruct (truthy zero); reflexivity.
Qed.

(** The discount of the recalculation is the discount [calculateInvoiceTotals]
    resolves from the arguments [createInvoice] passes it. *)
Lemma recalculated_discount (S : num) (amt pct : option num) :
  Math_min
    (Math_max
       (match pct with
        | Some p => if truthy p && (p >? zero) then S * (p / hundred)
                    else number_or amt zero
        | None => number_or amt zero
        end) zero) S
  = finalDiscount S (number_or pct zero) (number_or amt zero).
Proof.
  unfold finalDiscount. rewrite number_or_idem.
  destruct pct as [p|]; simpl.
  - unfold or_else. destruct (truthy p); simpl; [reflexivity|].
    now rewrite zero_not_positive.
  - now rewrite zero_not_positive.
Qed.

(** The same for the arguments [updateInvoice] passes. *)
Hypothesis positive_truthy : forall p : num, (p >? zero) = true -> truthy p = true.

Lemma recalculated_discount_update (S amt pct : num) :
  Math_min
    (Math_max
       (if truthy pct && (pct >? zero) then S * (pct / hundred)
        else number_or (Some amt) zero) zero) S
  = finalDiscount S pct amt.
Proof.
  unfold finalDiscount. simpl.
  destruct (pct >? zero) eqn:Hp.
  - now rewrite (positive_truthy pct Hp).
  - now rewrite andb_false_r.
Qed.

End Rederivation.

Lemma lineTotal_quantity_based (tbl : gmap string (RateModifier float))
      (ms : option float) (item : ItemInput float) :
  quantity_based item -> plain_quantities item ->
  lineTotal tbl ms item = lineGross item.
Proof.
  intros Hq [Hpq Hpu]. unfold lineTotal, lineGross.
  destruct (number_or_plain (quantity item) Hpq) as [-> _].
  destruct (number_or_plain (unitPrice item) Hpu) as [-> _].
  unfold quantity_based in Hq. destruct (hours item) as [h|]; [|reflexivity].
  now rewrite Hq.
Qed.

(** In exact arithmetic. *)
Module ExactRederivation.

Import ExactFacts.
Local Open Scope Q_scope.

Lemma sum_proper (l l' : list Q) : Forall2 Qeq l l' -> sum l == sum l'.
Proof.
  induction 1 as [|x y l l' Hxy Hl IH]; [reflexivity|].
  rewrite !sum_cons. now rewrite Hxy, IH.
Qed.

Lemma lineTotal_exact (tbl : gmap string (RateModifier Q))
      (ms : option Q) (item : ItemInput Q) :
  quantity_based item -> lineTotal tbl ms item == lineGross item.
Proof.
  intros Hq.
  assert (E : (nullish (quantity item) zero * nullish (unitPrice item) zero)%js
              == lineGross item).
  { unfold lineGross. qsimpl.
    destruct (quantity item) as [q|], (unitPrice item) as [u|];
      cbn [nullish number_or]; rewrite ?or_else_zero; reflexivity. }
  unfold lineTotal. unfold quantity_based in Hq.
  destruct (hours item) as [h|]; [|exact E]. now rewrite Hq.
Qed.

Lemma lineTotals_exact (tbl : gmap string (RateModifier Q))
      (ms : option Q) (items : list (ItemInput Q)) :
  Forall quantity_based items ->
  Forall2 Qeq (map (lineTotal tbl ms) items) (map lineGross items).
Proof.
  induction 1 as [|item items Hi Hl IH]; simpl; constructor;
    [now apply lineTotal_exact | exact IH].
Qed.

Lemma positive_truthy (p : Q) : (p >? zero)%js = true -> truthy p = true.
Proof.
  intros Hp. apply gt_true in Hp. cbn. unfold Exact.truthy.
  apply negb_true_iff. destruct (Qeq_bool p 0) eqn:E; [|reflexivity].
  apply Qeq_bool_iff in E. change (zero (num := Q)) with 0 in Hp. lra.
Qed.

Lemma finalDiscount_proper (S S' pct amt : Q) :
  S == S' -> finalDiscount S pct amt == finalDiscount S' pct amt.
Proof.
  intros E. unfold finalDiscount. destruct (pct >? zero)%js; qsimpl; now rewrite E.
Qed.

(** [Math.max(0, Number(taxRate) || 0) / 100] of a tax rate that is not
    negative *)
Lemma rate_of_nonneg (t : Q) :
  0 <= t -> (Math_max zero (or_else t zero) / hundred)%js == t / 100.
Proof.
  intros Ht.
  assert (E : Math_max zero (or_else t zero) == t).
  { destruct (max_spec zero (or_else t zero)) as [[_ ->] | [Hlt ->]].
    - apply or_else_zero.
    - rewrite or_else_zero in Hlt. qsimpl. lra. }
  qsimpl. now rewrite E.
Qed.

(** The recalculation against [calculateInvoiceTotals] in the total rounding
    mode, for line totals that are the line gross amounts and a discount
    resolved the same way. *)
Lemma recalculated_total_mode (lts : list Q) (items : list (ItemInput Q))
      (amt pct : option Q) (pct' amt' t : Q) (incl : bool) :
  Forall2 Qeq lts (map lineGross items) ->
  (forall S : Q,
      Math_min
        (Math_max
           (match pct with
            | Some p => if truthy p && (p >? zero)%js then (S * (p / hundred))%js
                        else number_or amt zero
            | None => number_or amt zero
            end) zero) S
      = finalDiscount S pct' amt') ->
  0 <= t ->
  taxAmount (recalculateTotals lts amt pct t incl)
  == taxAmount (calculateInvoiceTotals items pct' amt' t incl Total)
  /\ (incl = true ->
      total (recalculateTotals lts amt pct t incl)
      == total (calculateInvoiceTotals items pct' amt' t incl Total)).
Proof.
  intros Hl HD Ht.
  unfold recalculateTotals, calculateInvoiceTotals. cbn [taxAmount total].
  rewrite HD.
  pose proof (sum_proper _ _ Hl) as HS.
  pose proof (finalDiscount_proper _ _ pct' amt' HS) as HF.
  pose proof (rate_of_nonneg t Ht) as Hrate.
  set (S' := sum lts) in *. set (S := sum (map lineGross items)) in *.
  set (F' := finalDiscount S' pct' amt') in *. set (F := finalDiscount S pct' amt') in *.
  set (rate := (Math_max zero (or_else t zero) / hundred)%js) in *.
  assert (Had : (S' - F')%js == (S - F)%js) by (qsimpl; now rewrite HS, HF).
  set (ad' := (S' - F')%js) in *. set (ad := (S - F)%js) in *.
  destruct incl; cbn [fst snd]; rewrite !r2_idem.
  - split; [|intros _; now rewrite Had].
    apply r2_proper. qsimpl. rewrite Had, <- Hrate.
    destruct (rate >? 0)%js eqn:Hr; [reflexivity|].
    apply gt_false in Hr. pose proof (TaxSign.rate_nonneg t) as Hr'. fold rate in Hr'.
    assert (E : rate == 0) by (apply Qle_antisym; assumption).
    rewrite E. field.
  - split; [|discriminate].
    apply r2_proper. qsimpl. now rewrite Had, Hrate.
Qed.

End ExactRederivation.

(** The equality fails on a time-based line: [calculateInvoiceTotals] values it
    by quantity and unit price (both absent), the recalculation by its
    persisted [lineTotal]. *)
Lemma rederivation_counterexample :
  ~ (forall (tbl : gmap string (RateModifier float)) (settings : Settings float)
            (data : CreateInvoiceRequest float),
        hasPerLineTaxes (req_items data) = false ->
        createInvoice_totals tbl settings data
        = createInvoice_initialTotals settings data).
Proof.
  intros Hall.
  specialize (Hall ∅ plain_settings
                     (request [timeItem 2%float 50%float None None] None None None)
                     eq_refl).
  apply (f_equal subtotal) in Hall. vm_compute in Hall.
  revert Hall. float_neq.
Qed.

(** The recalculation also ignores the rounding mode: two lines of 0.10 at
    5 % give a total of 0.22 in line mode and 0.21 when recalculated. *)
Lemma recalculation_ignores_rounding_mode :
  let data := request [quantityItem 1%float 0.1%float; quantityItem 1%float 0.1%float]
                      (Some 5%float) None (Some Line) in
  total (createInvoice_initialTotals plain_settings data) = 0.22%float
  /\ total (createInvoice_totals ∅ plain_settings data) = 0.21%float.
Proof. vm_compute. split; reflexivity. Qed.

(** Even in the total rounding mode the recalculation adds the tax unrounded
    when prices exclude it: 10.50 less 5 % at 20 % totals 11.98, and 11.97
    when recalculated. *)
Lemma recalculation_adds_unrounded_tax :
  let data :=
    {| req_items := [quantityItem 1%float 10.5%float];
       req_discountPercentage := Some 5%float; req_discountAmount := None;
       req_taxRate := Some 20%float; req_pricesIncludeTax := Some false;
       req_roundingMode := Some Total |} in
  total (createInvoice_initialTotals plain_settings data) = 11.98%float
  /\ total (createInvoice_totals ∅ plain_settings data) = 11.970000000000001%float.
Proof. vm_compute. split; reflexivity. Qed.

(** C1, amended.  When every line is valued by quantity and unit price (no
    time-based line, no per-line taxes), the recalculation from the persisted
    line totals, in [createInvoice] and in [updateInvoice], reproduces
    - on binary64, for quantities and prices that are ordinary numbers, exactly
      the [subtotal] and the [discountAmount] that [calculateInvoiceTotals]
      computes from the original items, whatever the tax rate, pricing mode
      and rounding mode;
    - in exact arithmetic, in the total rounding mode and for a tax rate that
      is not negative, the [taxAmount] as well, and the [total] when prices
      include tax. *)
Theorem rederivation_reproduces_subtotal_and_discount :
  (forall (tbl : gmap string (RateModifier float)) (settings : Settings float)
          (data : CreateInvoiceRequest float),
      hasPerLineTaxes (req_items data) = false ->
      (forall item, In item (req_items data) ->
                    quantity_based item /\ plain_quantities item) ->
      createInvoice_initialTotals settings data
      = calculateInvoiceTotals (req_items data)
          (number_or (req_discountPercentage data) zero)
          (number_or (req_discountAmount data) zero)
          (or_else (nullish (req_taxRate data) (defaultTaxRate settings)) zero)
          (or_default (req_pricesIncludeTax data) (defaultPricesIncludeTax settings))
          (or_default (req_roundingMode data) (defaultRoundingMode settings))
      /\ subtotal (createInvoice_totals tbl settings data)
         = subtotal (createInvoice_initialTotals settings data)
      /\ discountAmount (createInvoice_totals tbl settings data)
         = discountAmount (createInvoice_initialTotals settings data)
      /\ (forall existing : ExistingInvoice float,
             subtotal (updateInvoice_totals tbl (mileageRateSetting settings) existing data)
             = subtotal (updateInvoice_initialTotals existing data)
             /\ discountAmount
                  (updateInvoice_totals tbl (mileageRateSetting settings) existing data)
                = discountAmount (updateInvoice_initialTotals existing data)))
  /\ (forall (tbl : gmap string (RateModifier Q)) (settings : Settings Q)
             (data : CreateInvoiceRequest Q),
         hasPerLineTaxes (req_items data) = false ->
         (forall item, In item (req_items data) -> quantity_based item) ->
         or_default (req_roundingMode data) (defaultRoundingMode settings) = Total ->
         (0 <= or_else (nullish (req_taxRate data) (defaultTaxRate settings)) zero)%Q ->
         (taxAmount (createInvoice_totals tbl settings data)
          == taxAmount (createInvoice_initialTotals settings data))%Q
         /\ (or_default (req_pricesIncludeTax data) (defaultPricesIncludeTax settings)
             = true ->
             (total (createInvoice_totals tbl settings data)
              == total (createInvoice_initialTotals settings data))%Q))
  /\ (forall (tbl : gmap string (RateModifier Q)) (mileageSetting : option Q)
             (existing : ExistingInvoice Q) (data : CreateInvoiceRequest Q),
         (forall item, In item (req_items data) -> quantity_based item) ->
         or_default (req_roundingMode data) (or_default (ex_roundingMode existing) Line)
         = Total ->
         (0 <= nullish (req_taxRate data) (ex_taxRate existing))%Q ->
         (taxAmount (updateInvoice_totals tbl mileageSetting existing data)
          == taxAmount (updateInvoice_initialTotals existing data))%Q
         /\ (or_default (req_pricesIncludeTax data) (ex_pricesIncludeTax existing) = true ->
             (total (updateInvoice_totals tbl mileageSetting existing data)
              == total (updateInvoice_initialTotals existing data))%Q)).
Proof.
  split; [|split].
  - intros tbl settings data Htaxes Hitems.
    unfold createInvoice_totals, createInvoice_initialTotals. rewrite Htaxes.
    split; [reflexivity|].
    assert (Hmap : map (lineTotal tbl (mileageRateSetting settings)) (req_items data)
                   = map lineGross (req_items data)).
    { apply map_ext_in. intros item Hin. destruct (Hitems item Hin).
      now apply lineTotal_quantity_based. }
    unfold updateInvoice_totals, updateInvoice_initialTotals.
    unfold recalculateTotals, calculateInvoiceTotals.
    cbn [subtotal discountAmount]. rewrite Hmap.
    split; [reflexivity|]. split.
    + f_equal. exact (recalculated_discount (num := float) eq_refl _ _ _).
    + intros existing. split; [reflexivity|]. f_equal.
      exact (recalculated_discount_update (num := float) B64Facts.gt_zero_truthy _ _ _).
  - intros tbl settings data Htaxes Hitems Hmode Hrate.
    unfold createInvoice_totals, createInvoice_initialTotals.
    rewrite Htaxes, Hmode.
    apply ExactRederivation.recalculated_total_mode; [| |exact Hrate].
    + apply ExactRederivation.lineTotals_exact, List.Forall_forall, Hitems.
    + intros S. exact (recalculated_discount (num := Q) eq_refl _ _ _).
  - intros tbl ms existing data Hitems Hmode Hrate.
    unfold updateInvoice_totals, updateInvoice_initialTotals. rewrite Hmode.
    apply ExactRederivation.recalculated_total_mode; [| |exact Hrate].
    + apply ExactRederivation.lineTotals_exact, List.Forall_forall, Hitems.
    + intros S.
      exact (recalculated_discount_update (num := Q)
               (fun p Hp => ExactRederivation.positive_truthy p Hp) _ _ _).
Qed.

Lemma rederivation_reproduces_subtotal_and_discount_witness :
  (let data := request [quantityItem 1%float 0.1%float; quantityItem 1%float 0.1%float]
                       (Some 5%float) None (Some Line) in
   subtotal (createInvoice_totals ∅ plain_settings data)
   = subtotal (createInvoice_initialTotals plain_settings data))
  /\ (let data := request [quantityItem 1%Q (105 # 10)%Q] (Some 20%Q) (Some true)
                          (Some Total) in
      taxAmount (createInvoice_totals ∅ plain_settings data)
      == taxAmount (createInvoice_initialTotals plain_settings data))%Q.
Proof.
  split; intros data.
  - refine (proj1 (proj2 (proj1 rederivation_reproduces_subtotal_and_discount
                                ∅ plain_settings data _ _))).
    + reflexivity.
    + intros item [<- | [<- | []]]; (split; [reflexivity|]);
        split; intros x [= <-]; (split; [reflexivity | float_neq]).
  - refine (proj1 (proj1 (proj2 rederivation_reproduces_subtotal_and_discount)
                         ∅ plain_settings data _ _ _ _)).
    + reflexivity.
    + intros item [<- | []]. exact I.
    + reflexivity.
    + vm_compute. discriminate.
Defined.

(** ** Line rounding against total rounding (C9) *)

Module Divergence.

Local Open Scope Q_scope.
Import ExactFacts.



Section Lines.

Variables (F S rate : Q) (incl : bool).
Hypothesis HS : 0 < S.
Hypothesis HF : 0 <= F <= S.
Hypothesis Hrate : 0 <= rate.




#[local] Instance after_proper : Proper (Qeq ==> Qeq) (after F S).
Proof. intros x y Hxy. unfold after. now rewrite Hxy. Qed.




End Lines.






End Divergence.





(** * Further properties *)


(** ** The totals of [calculateInvoiceTotals] *)

Section TaxInclusive.

Context {num : Type} `{JsNum num}.
Local Open Scope js_scope.

Lemma fold_lineStep_inclusive_total (r1 r2' : num) (L : list (num * num))
      (acc acc' : num * num) :
  snd acc = snd acc' ->
  snd (fold_left (lineStep r1 true) L acc) = snd (fold_left (lineStep r2' true) L acc').
Proof.
  revert acc acc'. induction L as [|gl L IH]; intros acc acc' E; simpl; [exact E|].
  apply IH. unfold lineStep. cbn [snd]. now rewrite E.
Qed.

Lemma inclusive_total_any_rate (items : list (ItemInput num)) (pct amt t1 t2 : num)
      (mode : RoundingMode) :
  total (calculateInvoiceTotals items pct amt t1 true mode)
  = total (calculateInvoiceTotals items pct amt t2 true mode).
Proof.
  unfold calculateInvoiceTotals. cbn [total].
  destruct (match mode with Line => _ | Total => false end); cbn [snd]; [|reflexivity].
  do 2 f_equal. now apply fold_lineStep_inclusive_total.
Qed.

End TaxInclusive.

(** X1.  With tax-inclusive prices the total does not depend on the tax rate,
    in either rounding mode; the subtotal and the discount depend on neither
    the tax rate, the pricing mode nor the rounding mode. *)
Theorem tax_inclusive_total_ignores_rate :
  forall (items : list (ItemInput float)) (pct amt t1 t2 : float)
         (incl1 incl2 : bool) (mode mode1 mode2 : RoundingMode),
    total (calculateInvoiceTotals items pct amt t1 true mode)
    = total (calculateInvoiceTotals items pct amt t2 true mode)
    /\ subtotal (calculateInvoiceTotals items pct amt t1 incl1 mode1)
       = subtotal (calculateInvoiceTotals items pct amt t2 incl2 mode2)
    /\ discountAmount (calculateInvoiceTotals items pct amt t1 incl1 mode1)
       = discountAmount (calculateInvoiceTotals items pct amt t2 incl2 mode2).
Proof.
  intros. split; [apply inclusive_total_any_rate|]. split; reflexivity.
Qed.

Module Accounts.

Import ExactFacts.
Local Open Scope Q_scope.

Lemma lineStep_tax_le_total (rate : Q) (incl : bool) (acc gl : Q * Q) :
  0 <= rate -> fst acc <= snd acc ->
  fst (lineStep rate incl acc gl) <= snd (lineStep rate incl acc gl).
Proof.
  intros Hr Hacc. unfold lineStep.
  set (ad := Math_max zero _).
  assert (Had : 0 <= ad) by apply TaxSign.max_zero_nonneg.
  destruct incl; cbn [fst snd].
  - pose proof (TaxSign.net_bounds ad rate Had Hr) as Hnet. cbv zeta in Hnet.
    set (net := if (rate >? zero)%js then _ else _) in *.
    assert (Ht : r2 (ad - net)%js <= r2 ad) by (apply r2_mono; qsimpl; lra).
    qsimpl. lra.
  - assert (H0 : 0 <= r2 (ad * rate)%js) by (apply r2_nonneg; qsimpl; nra).
    assert (Ht : r2 (r2 (ad * rate)%js) <= r2 (ad + r2 (ad * rate))%js)
      by (apply r2_mono; qsimpl; lra).
    rewrite r2_idem in Ht. qsimpl. lra.
Qed.

Lemma fold_lineStep_tax_le_total (rate : Q) (incl : bool) (l : list (Q * Q)) (acc : Q * Q) :
  0 <= rate -> fst acc <= snd acc ->
  fst (fold_left (lineStep rate incl) l acc) <= snd (fold_left (lineStep rate incl) l acc).
Proof.
  intros Hr. revert acc. induction l as [|gl l IH]; intros acc Hacc; simpl.
  - exact Hacc.
  - apply IH. now apply lineStep_tax_le_total.
Qed.

Lemma tax_le_total (items : list (ItemInput Q)) (pct amt taxRate : Q)
      (incl : bool) (mode : RoundingMode) :
  taxAmount (calculateInvoiceTotals items pct amt taxRate incl mode)
  <= total (calculateInvoiceTotals items pct amt taxRate incl mode).
Proof.
  unfold calculateInvoiceTotals. cbn [taxAmount total].
  set (rate := (Math_max zero (or_else taxRate zero) / hundred)%js).
  assert (Hr : 0 <= rate) by apply TaxSign.rate_nonneg.
  set (S := sum (map lineGross items)).
  set (F := finalDiscount S pct amt).
  assert (HF : F <= S) by apply TaxSign.finalDiscount_le.
  apply r2_mono.
  destruct (match mode with Line => (S >? zero)%js | Total => false end).
  - cbn [fst snd]. apply r2_mono.
    apply fold_lineStep_tax_le_total; [exact Hr | apply Qle_refl].
  - assert (Had : 0 <= (S - F)%js) by (qsimpl; lra).
    destruct incl; cbn [fst snd].
    + pose proof (TaxSign.net_bounds _ rate Had Hr) as Hnet. cbv zeta in Hnet.
      apply r2_mono. qsimpl. lra.
    + assert (H0 : 0 <= r2 ((S - F) * rate)%js) by (apply r2_nonneg; qsimpl; nra).
      rewrite <- (r2_idem ((S - F) * rate)%js) at 1.
      apply r2_mono. qsimpl. lra.
Qed.

End Accounts.

(** X2.  In exact arithmetic, whatever the items and the configuration, the
    tax amount of [calculateInvoiceTotals] is at most the total, and the total
    is not negative. *)
Theorem tax_is_part_of_total :
  forall (items : list (ItemInput Q)) (pct amt taxRate : Q)
         (incl : bool) (mode : RoundingMode),
    let r := calculateInvoiceTotals items pct amt taxRate incl mode in
    (taxAmount r <= total r)%Q /\ (0 <= total r)%Q.
Proof.
  intros items pct amt taxRate incl mode r. subst r.
  pose proof (Accounts.tax_le_total items pct amt taxRate incl mode) as H1.
  pose proof (TaxSign.calculateInvoiceTotals_tax_nonneg items pct amt taxRate incl mode)
    as H2.
  split; [exact H1|]. eapply Qle_trans; eassumption.
Qed.


Module AddUp.

Import ExactFacts.
Local Open Scope Q_scope.

Lemma is_cents_sum (l : list Q) : Forall is_cents l -> is_cents (sum l).
Proof.
  induction 1 as [|x l Hx Hl IH].
  - exact is_cents_zero.
  - rewrite sum_cons. now apply is_cents_plus.
Qed.

Lemma is_cents_max (x y : Q) : is_cents x -> is_cents y -> is_cents (Math_max x y).
Proof. intros Hx Hy. destruct (max_spec x y) as [[_ ->] | [_ ->]]; assumption. Qed.

Lemma is_cents_min (x y : Q) : is_cents x -> is_cents y -> is_cents (Math_min x y).
Proof. intros Hx Hy. destruct (min_spec x y) as [[_ ->] | [_ ->]]; assumption. Qed.

Lemma is_cents_flat_discount (S pct amt : Q) :
  is_cents S -> is_cents amt -> pct <= 0 -> is_cents (finalDiscount S pct amt).
Proof.
  intros HS Hamt Hpct. unfold finalDiscount.
  assert (E : (pct >? zero)%js = false) by (apply gt_false; exact Hpct).
  rewrite E. apply is_cents_min; [|exact HS].
  apply is_cents_max; [|exact is_cents_zero].
  rewrite or_else_zero. exact Hamt.
Qed.

Lemma total_mode_adds_up (items : list (ItemInput Q)) (pct amt taxRate : Q) (incl : bool) :
  let S := sum (map lineGross items) in
  is_cents S -> is_cents (finalDiscount S pct amt) ->
  let r := calculateInvoiceTotals items pct amt taxRate incl Total in
  total r == subtotal r - discountAmount r + (if incl then 0 else taxAmount r).
Proof.
  intros S HS HF r. subst r. unfold calculateInvoiceTotals.
  cbn [total subtotal discountAmount taxAmount]. fold S.
  set (F := finalDiscount S pct amt) in *.
  set (rate := (Math_max zero (or_else taxRate zero) / hundred)%js).
  rewrite (r2_of_cents S HS), (r2_of_cents F HF).
  assert (Had : is_cents (S - F)) by now apply is_cents_minus.
  destruct incl; cbn [fst snd]; rewrite !r2_idem.
  - qsimpl. rewrite (r2_of_cents _ Had). lra.
  - assert (Ht : is_cents (r2 ((S - F) * rate))) by apply r2_is_cents.
    qsimpl. rewrite (r2_of_cents (S - F + r2 ((S - F) * rate))).
    + lra.
    + now apply is_cents_plus.
Qed.

End AddUp.

(** X3.  In exact arithmetic and in the total rounding mode, when every line
    gross amount and the flat discount are whole numbers of cents and no
    discount percentage applies, the returned amounts add up:
    [total = subtotal - discountAmount + taxAmount] for tax-exclusive prices,
    and [total = subtotal - discountAmount] for tax-inclusive ones. *)
Theorem total_mode_amounts_add_up :
  forall (items : list (ItemInput Q)) (pct amt taxRate : Q) (incl : bool),
    Forall is_cents (map lineGross items) -> is_cents amt -> (pct <= 0)%Q ->
    let r := calculateInvoiceTotals items pct amt taxRate incl Total in
    (total r == subtotal r - discountAmount r + (if incl then 0 else taxAmount r))%Q.
Proof.
  intros items pct amt taxRate incl Hitems Hamt Hpct.
  assert (HS : is_cents (sum (map lineGross items))) by now apply AddUp.is_cents_sum.
  apply AddUp.total_mode_adds_up; [exact HS|].
  now apply AddUp.is_cents_flat_discount.
Qed.

Lemma total_mode_amounts_add_up_witness :
  let r := calculateInvoiceTotals
             [quantityItem 3%Q (1999 # 100)%Q; quantityItem 1%Q (5 # 10)%Q]
             0%Q (25 # 10)%Q 19%Q false Total in
  (total r == subtotal r - discountAmount r + taxAmount r)%Q.
Proof.
  apply (total_mode_amounts_add_up
           [quantityItem 3%Q (1999 # 100)%Q; quantityItem 1%Q (5 # 10)%Q]
           0%Q (25 # 10)%Q 19%Q false).
  - repeat constructor.
    + exists 5997%Z. reflexivity.
    + exists 50%Z. reflexivity.
  - exists 250%Z. reflexivity.
  - vm_compute. discriminate.
Defined.


(** ** The breakdowns of [calculatePerLineTotals] *)

Module TaxSummary.

Import ExactFacts.
Local Open Scope Q_scope.

Lemma total_of_app (l l' : list Q) : total_of (l ++ l') == total_of l + total_of l'.
Proof. induction l as [|x l IH]; simpl; [lra | rewrite IH; lra]. Qed.

Lemma is_cents_total_of (l : list Q) : Forall is_cents l -> is_cents (total_of l).
Proof.
  induction 1 as [|x l Hx Hl IH]; simpl; [exact is_cents_zero | now apply is_cents_plus].
Qed.

Lemma fold_amounts (l : list (ItemTax Q)) (a : Q) :
  fold_left (fun a b => (a + t_amount b)%js) l a == a + total_of (map t_amount l).
Proof.
  revert a. induction l as [|t l IH]; intros a; simpl; [lra|].
  rewrite IH. qsimpl. lra.
Qed.

Lemma current_cents (m : list (Q * (Q * Q))) (k : Q) :
  Forall is_cents (summaryMap_amounts m) -> is_cents (snd (current m k)).
Proof.
  unfold current. induction m as [|[k' v] m IH]; cbn [summary_get]; intros Hm.
  - exact is_cents_zero.
  - apply Forall_cons_iff in Hm. destruct Hm as [Hv Hm].
    destruct (k' === k)%js; [exact Hv | now apply IH].
Qed.

Lemma summary_set_cents (m : list (Q * (Q * Q))) (k : Q) (v : Q * Q) :
  Forall is_cents (summaryMap_amounts m) -> is_cents (snd v) ->
  Forall is_cents (summaryMap_amounts (summary_set m k v)).
Proof.
  induction m as [|[k' v'] m IH]; cbn [summary_set]; intros Hm Hv.
  - constructor; [exact Hv | constructor].
  - apply Forall_cons_iff in Hm. destruct Hm as [Hv' Hm].
    destruct (k' === k)%js; constructor; auto.
Qed.

Lemma summary_set_total (m : list (Q * (Q * Q))) (k : Q) (v : Q * Q) :
  total_of (summaryMap_amounts (summary_set m k v))
  == total_of (summaryMap_amounts m) - snd (current m k) + snd v.
Proof.
  unfold current. induction m as [|[k' v'] m IH]; cbn [summary_set summary_get].
  - simpl. qsimpl. lra.
  - destruct (k' === k)%js; simpl.
    + lra.
    + simpl in IH. rewrite IH. lra.
Qed.

Lemma taxLoop_total (net : Q) (ts : list (LineTaxInput Q))
      (itemTaxes : list (ItemTax Q)) (m : list (Q * (Q * Q))) :
  Forall is_cents (map t_amount itemTaxes) -> Forall is_cents (summaryMap_amounts m) ->
  let loop := taxLoop net ts itemTaxes m in
  Forall is_cents (map t_amount (fst loop))
  /\ Forall is_cents (summaryMap_amounts (snd loop))
  /\ total_of (summaryMap_amounts (snd loop)) - total_of (map t_amount (fst loop))
     == total_of (summaryMap_amounts m) - total_of (map t_amount itemTaxes).
Proof.
  revert itemTaxes m. induction ts as [|t ts IH]; intros itemTaxes m Hit Hm; cbn [taxLoop].
  - cbn [fst snd]. split; [exact Hit|]. split; [exact Hm|]. reflexivity.
  - cbv zeta.
    set (p := (or_else (percent t) zero / hundred)%js).
    set (key := r2 (p * hundred)%js). set (amt := r2 (net * p)%js).
    fold (current m key).
    assert (Hamt : is_cents amt) by apply r2_is_cents.
    pose proof (current_cents m key Hm) as Hcur.
    set (v := (r2 (fst (current m key) + net)%js, r2 (snd (current m key) + amt)%js)).
    assert (Hv : snd v == snd (current m key) + amt).
    { subst v. cbn [snd]. qsimpl. apply r2_of_cents. now apply is_cents_plus. }
    set (its := itemTaxes ++ [{| t_percent := key; t_amount := amt; t_note := note t |}]).
    assert (Hits : Forall is_cents (map t_amount its)).
    { subst its. rewrite map_app. apply Forall_app. split; [exact Hit|].
      constructor; [exact Hamt | constructor]. }
    assert (Hm' : Forall is_cents (summaryMap_amounts (summary_set m key v))).
    { apply summary_set_cents; [exact Hm|]. rewrite Hv. now apply is_cents_plus. }
    destruct (IH its (summary_set m key v) Hits Hm') as (H1 & H2 & H3).
    split; [exact H1|]. split; [exact H2|].
    rewrite H3, summary_set_total, Hv. subst its.
    rewrite map_app, total_of_app. simpl. lra.
Qed.

Lemma perLineStep_adds_up (incl : bool) (st : PerLineState)
      (x : ItemInput Q * (Q * Q)) :
  state_adds_up st -> state_adds_up (perLineStep incl st x).
Proof.
  intros (Htax & Hm & Hsum & Hper). unfold perLineStep.
  set (ad := Math_max zero _).
  set (ts := match taxes (fst x) with Some ts => ts | None => [] end).
  set (rateSum := (fold_left _ ts zero / hundred)%js).
  set (net := if incl && (rateSum >? zero)%js then _ else ad).
  destruct (taxLoop_total net ts [] (st_summaryMap st) ltac:(constructor) Hm)
    as (Hit & Hm' & Hloop).
  set (loop := taxLoop net ts [] (st_summaryMap st)) in *.
  simpl in Hloop.
  assert (Hitsum : r2 (fold_left (fun a b => (a + t_amount b)%js) (fst loop) zero)
                   == total_of (map t_amount (fst loop))).
  { rewrite fold_amounts. qsimpl.
    assert (E : 0 + total_of (map t_amount (fst loop))
                == total_of (map t_amount (fst loop))) by lra.
    rewrite E. apply r2_of_cents. now apply is_cents_total_of. }
  assert (Hnew : r2 (st_taxAmount st
                     + r2 (fold_left (fun a b => (a + t_amount b)%js)
                                     (fst loop) zero))%js
                 == st_taxAmount st + total_of (map t_amount (fst loop))).
  { qsimpl. rewrite Hitsum. apply r2_of_cents.
    apply is_cents_plus; [exact Htax | now apply is_cents_total_of]. }
  assert (Hper' : total_of (perItem_amounts
                              (st_perItem st
                               ++ [{| taxable := r2 net; item_taxes := fst loop |}]))
                  == st_taxAmount st + total_of (map t_amount (fst loop))).
  { unfold perItem_amounts. rewrite map_app, concat_app, total_of_app.
    fold (perItem_amounts (st_perItem st)). rewrite Hper. simpl.
    rewrite app_nil_r. reflexivity. }
  assert (Hc : is_cents (st_taxAmount st + total_of (map t_amount (fst loop))))
    by (apply is_cents_plus; [exact Htax | now apply is_cents_total_of]).
  destruct incl; unfold state_adds_up;
    cbn [st_taxAmount st_summaryMap st_perItem]; rewrite Hnew;
    (split; [exact Hc|]); (split; [exact Hm'|]); (split; [lra | exact Hper']).
Qed.

Lemma fold_perLineStep_adds_up (incl : bool)
      (l : list (ItemInput Q * (Q * Q))) (st : PerLineState) :
  state_adds_up st -> state_adds_up (fold_left (perLineStep incl) l st).
Proof.
  revert st. induction l as [|x l IH]; intros st Hst; simpl; [exact Hst|].
  apply IH. now apply perLineStep_adds_up.
Qed.

Lemma sort_insert_total (x : SummaryRow Q) (l : list (SummaryRow Q)) :
  total_of (map s_amount (sort_insert x l)) == s_amount x + total_of (map s_amount l).
Proof.
  induction l as [|y l IH]; cbn [sort_insert]; [reflexivity|].
  destruct ((s_percent y - s_percent x)%js >? zero)%js; simpl; [reflexivity|].
  simpl in IH. rewrite IH. lra.
Qed.

Lemma sort_summary_total (l : list (SummaryRow Q)) :
  total_of (map s_amount (sort_summary l)) == total_of (map s_amount l).
Proof.
  unfold sort_summary.
  assert (G : forall acc, total_of (map s_amount (fold_left (fun acc x => sort_insert x acc) l acc))
                          == total_of (map s_amount acc) + total_of (map s_amount l)).
  { induction l as [|x l IH]; intros acc; simpl; [lra|].
    rewrite IH, sort_insert_total. lra. }
  rewrite G. simpl. lra.
Qed.

Lemma rows_total (m : list (Q * (Q * Q))) :
  Forall is_cents (summaryMap_amounts m) ->
  total_of (map s_amount
                (map (fun kv => {| s_percent := fst kv;
                                   s_taxable := r2 (fst (snd kv));
                                   s_amount := r2 (snd (snd kv)) |}) m))
  == total_of (summaryMap_amounts m).
Proof.
  induction m as [|kv m IH]; intros Hm; simpl; [reflexivity|].
  apply Forall_cons_iff in Hm. destruct Hm as [Hv Hm].
  rewrite (r2_of_cents _ Hv). simpl in IH. rewrite (IH Hm). reflexivity.
Qed.

End TaxSummary.

(** X4.  In exact arithmetic the two tax breakdowns of
    [calculatePerLineTotals] add up to its tax amount: the amounts of the
    summary grouped by percent, and the amounts of all taxes of all lines. *)
Theorem tax_breakdowns_add_up :
  forall (items : list (ItemInput Q)) (pct amt : Q) (incl : bool) (mode : RoundingMode),
    let r := calculatePerLineTotals items pct amt incl mode in
    (total_of (map s_amount (summary r)) == taxAmount (totals r))%Q
    /\ (total_of (perItem_amounts (perItem r)) == taxAmount (totals r))%Q.
Proof.
  intros items pct amt incl mode r. subst r. unfold calculatePerLineTotals.
  cbn [totals taxAmount perItem summary].
  set (L := combine items _).
  set (st0 := {| st_perItem := []; st_taxAmount := zero; st_total := zero;
                 st_summaryMap := [] |}).
  assert (Hst0 : state_adds_up st0).
  { split; [exact ExactFacts.is_cents_zero|]. split; [constructor|].
    split; reflexivity. }
  destruct (TaxSummary.fold_perLineStep_adds_up incl L st0 Hst0)
    as (Htax & Hm & Hsum & Hper).
  rewrite (ExactFacts.r2_of_cents _ Htax). split; [|exact Hper].
  rewrite TaxSummary.sort_summary_total, TaxSummary.rows_total; assumption.
Qed.


Section PerItemShape.

Context {num : Type} `{JsNum num}.
Local Open Scope js_scope.

Lemma taxLoop_notes (net : num) (ts : list (LineTaxInput num))
      (itemTaxes : list (ItemTax num)) (m : SummaryMap) :
  map t_note (fst (taxLoop net ts itemTaxes m)) = map t_note itemTaxes ++ map note ts.
Proof.
  revert itemTaxes m. induction ts as [|t ts IH]; intros itemTaxes m; cbn [taxLoop].
  - cbn [fst]. simpl. now rewrite app_nil_r.
  - cbv zeta. rewrite IH, map_app. simpl. now rewrite <- app_assoc.
Qed.

Lemma perLineStep_notes (incl : bool) (st : PerLineState) (x : ItemInput num * (num * num)) :
  map (fun p => map t_note (item_taxes p)) (st_perItem (perLineStep incl st x))
  = map (fun p => map t_note (item_taxes p)) (st_perItem st)
    ++ [map note (taxes_of (fst x))].
Proof.
  unfold perLineStep. cbv zeta.
  destruct incl; cbn [st_perItem]; rewrite map_app; cbn [map item_taxes];
    now rewrite taxLoop_notes.
Qed.

Lemma fold_perLineStep_notes (incl : bool) (L : list (ItemInput num * (num * num)))
      (st : PerLineState) :
  map (fun p => map t_note (item_taxes p)) (st_perItem (fold_left (perLineStep incl) L st))
  = map (fun p => map t_note (item_taxes p)) (st_perItem st)
    ++ map (fun x => map note (taxes_of (fst x))) L.
Proof.
  revert st. induction L as [|x L IH]; intros st; simpl.
  - now rewrite app_nil_r.
  - rewrite IH, perLineStep_notes, <- app_assoc. reflexivity.
Qed.

Lemma length_perLineDiscounts (F S : num) (gs : list num) (D : num) :
  length (perLineDiscounts F S gs D) = length gs.
Proof.
  revert D. induction gs as [|g gs IH]; intros D; [reflexivity|].
  cbn [perLineDiscounts]. destruct (S === zero); [simpl; now rewrite IH|].
  destruct gs as [|g' gs]; [reflexivity|].
  cbv zeta. change (length (g :: g' :: gs)) with (Datatypes.S (length (g' :: gs))).
  rewrite <- (IH (D + r2 (F * (g / S)))). reflexivity.
Qed.

Lemma map_fst_combine_all {A B C : Type} (f : A -> C) (l : list A) (l' : list B) :
  length l = length l' -> map (fun x => f (fst x)) (combine l l') = map f l.
Proof.
  revert l'. induction l as [|a l IH]; intros [|b l'] Hlen; simpl in *;
    try reflexivity; try discriminate.
  f_equal. apply IH. now injection Hlen.
Qed.

Lemma perItem_notes (items : list (ItemInput num)) (pct amt : num) (incl : bool)
      (mode : RoundingMode) :
  map (fun p => map t_note (item_taxes p))
      (perItem (calculatePerLineTotals items pct amt incl mode))
  = map (fun it => map note (taxes_of it)) items.
Proof.
  unfold calculatePerLineTotals. cbn [perItem].
  rewrite fold_perLineStep_notes. cbn [st_perItem map app].
  apply (map_fst_combine_all (fun it => map note (taxes_of it))).
  rewrite length_combine, length_perLineDiscounts, length_map. lia.
Qed.

End PerItemShape.

(** X5.  [calculatePerLineTotals] returns in [perItem] one entry per item, in
    the order of the items, and in each entry one tax per tax of the item, in
    their order and with their notes. *)
Theorem perItem_follows_items :
  forall (items : list (ItemInput float)) (pct amt : float) (incl : bool)
         (mode : RoundingMode),
    let r := calculatePerLineTotals items pct amt incl mode in
    length (perItem r) = length items
    /\ map (fun p => map t_note (item_taxes p)) (perItem r)
       = map (fun it => map note (taxes_of it)) items.
Proof.
  intros items pct amt incl mode r.
  pose proof (perItem_notes items pct amt incl mode) as E. fold r in E.
  split; [|exact E].
  apply (f_equal (@length _)) in E. now rewrite !length_map in E.
Qed.

Module SummaryOrder.

Import ExactFacts.
Local Open Scope Q_scope.

Lemma strict_eq_true (x y : Q) : (x === y)%js = true <-> x == y.
Proof. cbn. apply Qeq_bool_iff. Qed.

Lemma strict_eq_false (x y : Q) : (x === y)%js = false <-> ~ x == y.
Proof. rewrite <- not_true_iff_false, strict_eq_true. reflexivity. Qed.

Lemma map_key_exact (k : Q) : map_key k == k.
Proof.
  unfold map_key. destruct (k === zero)%js eqn:E; [|reflexivity].
  apply strict_eq_true in E. now rewrite E.
Qed.

Lemma InA_summary_set (m : list (Q * (Q * Q))) (k : Q) (v : Q * Q) (x : Q) :
  InA Qeq x (summary_keys (summary_set m k v)) -> InA Qeq x (summary_keys m) \/ x == k.
Proof.
  induction m as [|[k' v'] m IH]; cbn [summary_set summary_keys map fst].
  - intros Hin. inversion Hin as [? ? E|? ? Hin']; subst;
      [right; now rewrite E, map_key_exact|].
    inversion Hin'.
  - destruct (k' === k)%js; cbn [summary_keys map fst]; intros Hin.
    + now left.
    + inversion Hin as [? ? E|? ? Hin']; subst.
      * left. now constructor.
      * destruct (IH Hin') as [Hm|Hk]; [left; now constructor 2 | now right].
Qed.

Lemma summary_set_NoDup (m : list (Q * (Q * Q))) (k : Q) (v : Q * Q) :
  NoDupA Qeq (summary_keys m) -> NoDupA Qeq (summary_keys (summary_set m k v)).
Proof.
  induction m as [|[k' v'] m IH]; cbn [summary_set summary_keys map fst]; intros Hm.
  - constructor; [|constructor]. intros Hin. inversion Hin.
  - inversion Hm as [|? ? Hnotin Hm']; subst.
    destruct (k' === k)%js eqn:E; cbn [summary_keys map fst].
    + now constructor.
    + constructor; [|now apply IH].
      intros Hin. destruct (InA_summary_set m k v k' Hin) as [H1|H1].
      * now apply Hnotin.
      * apply strict_eq_false in E. now apply E.
Qed.

Lemma taxLoop_NoDup (net : Q) (ts : list (LineTaxInput Q))
      (itemTaxes : list (ItemTax Q)) (m : list (Q * (Q * Q))) :
  NoDupA Qeq (summary_keys m) -> NoDupA Qeq (summary_keys (snd (taxLoop net ts itemTaxes m))).
Proof.
  revert itemTaxes m. induction ts as [|t ts IH]; intros itemTaxes m Hm; cbn [taxLoop].
  - exact Hm.
  - cbv zeta. apply IH. now apply summary_set_NoDup.
Qed.

Lemma fold_perLineStep_NoDup (incl : bool) (L : list (ItemInput Q * (Q * Q)))
      (st : PerLineState) :
  NoDupA Qeq (summary_keys (st_summaryMap st)) ->
  NoDupA Qeq (summary_keys (st_summaryMap (fold_left (perLineStep incl) L st))).
Proof.
  revert st. induction L as [|x L IH]; intros st Hst; simpl; [exact Hst|].
  apply IH. unfold perLineStep. cbv zeta.
  destruct incl; cbn [st_summaryMap]; now apply taxLoop_NoDup.
Qed.

Lemma InA_sort_insert (x : SummaryRow Q) (l : list (SummaryRow Q)) (k : Q) :
  InA Qeq k (percents (sort_insert x l)) ->
  k == s_percent x \/ InA Qeq k (percents l).
Proof.
  induction l as [|y l IH]; cbn [sort_insert percents map].
  - intros Hin. inversion Hin as [? ? E|? ? Hin']; subst; [now left | inversion Hin'].
  - destruct ((s_percent y - s_percent x)%js >? zero)%js; cbn [percents map]; intros Hin.
    + inversion Hin as [? ? E|? ? Hin']; subst; [now left | now right].
    + inversion Hin as [? ? E|? ? Hin']; subst.
      * right. now constructor.
      * destruct (IH Hin') as [H1|H1]; [now left | right; now constructor 2].
Qed.

Lemma sort_insert_ascending (x : SummaryRow Q) (l : list (SummaryRow Q)) :
  ascending l -> ~ InA Qeq (s_percent x) (percents l) -> ascending (sort_insert x l).
Proof.
  unfold ascending. induction 1 as [|y l Hl IH Hy]; intros Hx; cbn [sort_insert].
  - constructor; constructor.
  - destruct ((s_percent y - s_percent x)%js >? zero)%js eqn:E.
    + apply gt_true in E. qsimpl.
      assert (Hxy : s_percent x < s_percent y) by lra.
      constructor; [now constructor|].
      constructor; [exact Hxy|].
      eapply List.Forall_impl; [|exact Hy]. cbv beta. intros a Ha. lra.
    + apply gt_false in E. qsimpl.
      assert (Hne : ~ s_percent x == s_percent y).
      { intros Heq. apply Hx. now constructor. }
      assert (Hyx : s_percent y < s_percent x).
      { destruct (Qlt_le_dec (s_percent y) (s_percent x)) as [Hlt|Hle]; [exact Hlt|].
        exfalso. apply Hne. apply Qle_antisym; lra. }
      constructor.
      * apply IH. intros Hin. apply Hx. now constructor 2.
      * apply TaxSign.sort_insert_Forall; assumption.
Qed.

Lemma sort_summary_ascending (l : list (SummaryRow Q)) :
  NoDupA Qeq (percents l) -> ascending (sort_summary l).
Proof.
  unfold sort_summary.
  assert (G : forall acc : list (SummaryRow Q),
             ascending acc -> NoDupA Qeq (percents l) ->
             (forall x, In x l -> ~ InA Qeq (s_percent x) (percents acc)) ->
             ascending (fold_left (fun acc x => sort_insert x acc) l acc)).
  { induction l as [|x l IH]; intros acc Hacc Hl Hfresh; simpl; [exact Hacc|].
    inversion Hl as [|? ? Hx Hl']; subst.
    apply IH; [|exact Hl'|].
    - apply sort_insert_ascending; [exact Hacc|]. apply Hfresh. now left.
    - intros y Hy Hin. destruct (InA_sort_insert x acc _ Hin) as [H1|H1].
      + apply Hx. rewrite <- H1. apply InA_alt. exists (s_percent y).
        split; [reflexivity|]. now apply in_map.
      + apply (Hfresh y); [now right | exact H1]. }
  intros Hl. apply G; [constructor | exact Hl|].
  intros x _ Hin. inversion Hin.
Qed.

End SummaryOrder.

(** X6.  In exact arithmetic the tax summary of [calculatePerLineTotals]
    lists its percents in strictly ascending order: every percent has one
    row. *)
Theorem summary_is_ascending :
  forall (items : list (ItemInput Q)) (pct amt : Q) (incl : bool) (mode : RoundingMode),
    ascending (summary (calculatePerLineTotals items pct amt incl mode)).
Proof.
  intros items pct amt incl mode. unfold calculatePerLineTotals. cbn [summary].
  apply SummaryOrder.sort_summary_ascending.
  unfold percents. rewrite map_map. cbn [s_percent].
  apply (SummaryOrder.fold_perLineStep_NoDup incl). constructor.
Qed.


(** ** The rate-modifier store: round trips *)

(** X7.  [createRateModifier] under a fresh id returns the row it was given,
    stamped with the time of the call; [getRateModifierById] finds that row
    under the id, every other id still leads to its row (with [isDefault]
    cleared when the new row is the default), and no invoice item is
    touched. *)
Theorem create_then_get :
  forall (num : Type) (now : Z) (rid : string) (data : CreateRateModifierData num)
         (db : Db num),
    getRateModifierById db rid = None ->
    let db' := fst (createRateModifier now rid data db) in
    snd (createRateModifier now rid data db) = inr (created_row now data)
    /\ getRateModifierById db' rid = Some (created_row now data)
    /\ (forall j, j <> rid ->
          getRateModifierById db' j
          = (if isDefault (created_row now data) then unset_default else (fun m => m))
              <$> getRateModifierById db j)
    /\ invoice_items db' = invoice_items db.
Proof.
  intros num now rid data db.
  unfold getRateModifierById, createRateModifier, created_row. intros Hfresh.
  set (nd := match c_isDefault data with Some b => b | None => false end).
  set (tbl := if nd then unset_all_defaults (rate_modifiers db) else rate_modifiers db).
  assert (Hnone : tbl !! rid = None).
  { subst tbl. destruct nd; [|exact Hfresh].
    now rewrite lookup_unset_all_defaults, Hfresh. }
  rewrite Hnone. cbn [fst snd rate_modifiers invoice_items isDefault].
  split; [reflexivity|]. split; [apply lookup_insert_eq|]. split; [|reflexivity].
  intros j Hj. rewrite lookup_insert_ne by auto. subst tbl.
  destruct nd; [apply lookup_unset_all_defaults|].
  now destruct (rate_modifiers db !! j).
Qed.

Lemma create_then_get_witness :
  getRateModifierById
    (fst (createRateModifier 7 "night"
            {| c_name := "Night"; c_multiplier := 2%float; c_description := None;
               c_isDefault := Some true |} seeded_db)) "night"
  = Some {| name := "Night"; multiplier := 2%float; rm_description := None;
            isDefault := true; createdAt := 7; updatedAt := 7 |}.
Proof.
  refine (proj1 (proj2 (create_then_get float 7 "night"
            {| c_name := "Night"; c_multiplier := 2%float; c_description := None;
               c_isDefault := Some true |} seeded_db _))).
  reflexivity.
Defined.

(** X8.  [updateRateModifier] returns [null] exactly when the id is unknown,
    and then changes nothing; otherwise it returns the stored row with the
    given fields written over it and [updated_at] set to the time of the call,
    neither adds nor removes a row, and leaves every other row as it was but
    for the flag [is_default]; an update that gives no field changes nothing
    but the [updated_at] of that row. *)
Theorem update_keeps_the_rows :
  forall (num : Type) (now : Z) (rid : string) (data : UpdateRateModifierData num)
         (db : Db num),
    let db' := fst (updateRateModifier now rid data db) in
    let res := snd (updateRateModifier now rid data db) in
    (getRateModifierById db rid = None -> res = None /\ db' = db)
    /\ (forall existing, getRateModifierById db rid = Some existing ->
          res = Some (updated_row now data existing)
          /\ getRateModifierById db' rid = Some (updated_row now data existing))
    /\ (forall j, is_Some (getRateModifierById db' j) <-> is_Some (getRateModifierById db j))
    /\ (forall j m', j <> rid -> getRateModifierById db' j = Some m' ->
          exists m, getRateModifierById db j = Some m /\ same_but_default m m')
    /\ (data = {| u_name := None; u_multiplier := None; u_description := None;
                  u_isDefault := None |} ->
        forall existing, getRateModifierById db rid = Some existing ->
          rate_modifiers db' = <[rid := touched now existing]> (rate_modifiers db)
          /\ invoice_items db' = invoice_items db).
Proof.
  intros num now rid data db. unfold updateRateModifier, getRateModifierById.
  destruct (rate_modifiers db !! rid) as [existing|] eqn:Hid; cbn [fst snd].
  2:{ split; [auto|]. split; [discriminate|]. split; [reflexivity|].
      split; [|discriminate]. intros j m' _ Hj. exists m'. now repeat split. }
  cbn [rate_modifiers invoice_items].
  set (nd := match u_isDefault data with Some b => b | None => isDefault existing end).
  set (row := fun r : RateModifier num =>
                {| name := _; multiplier := _; rm_description := _; isDefault := nd;
                   createdAt := createdAt r; updatedAt := now |}).
  set (tbl := if nd && negb (isDefault existing)
              then unset_all_defaults (rate_modifiers db) else rate_modifiers db).
  assert (Htbl : forall j, tbl !! j
                           = (if nd && negb (isDefault existing)
                              then unset_default else (fun m => m))
                               <$> rate_modifiers db !! j).
  { intros j. subst tbl.
    destruct (nd && negb (isDefault existing));
      [apply lookup_unset_all_defaults | now destruct (rate_modifiers db !! j)]. }
  assert (Hrid : alter row rid tbl !! rid = Some (updated_row now data existing)).
  { rewrite lookup_alter_eq, Htbl, Hid. cbn [fmap option_fmap option_map].
    f_equal. subst row. unfold updated_row. cbn beta. fold nd.
    now destruct (nd && negb (isDefault existing)). }
  split; [discriminate|]. split.
  { intros ? [= <-]. split; exact Hrid. }
  split.
  { intros j. destruct (decide (j = rid)) as [->|Hne].
    - rewrite Hrid, Hid. split; eauto.
    - rewrite lookup_alter_ne by auto. rewrite Htbl. apply fmap_is_Some. }
  split.
  { intros j m' Hne. rewrite lookup_alter_ne by auto. rewrite Htbl.
    destruct (rate_modifiers db !! j) as [m|]; simpl; [|discriminate].
    intros [= <-]. exists m. split; [reflexivity|].
    match goal with |- context [if ?c then _ else _] => destruct c end;
      repeat split. }
  intros -> ? [= <-]. split; [|reflexivity].
  apply map_eq. intros j. destruct (decide (j = rid)) as [->|Hne].
  - rewrite Hrid, lookup_insert_eq. reflexivity.
  - rewrite lookup_alter_ne, lookup_insert_ne by auto. rewrite Htbl.
    subst nd. cbn [u_isDefault]. rewrite andb_negb_r.
    now destruct (rate_modifiers db !! j).
Qed.

Lemma update_keeps_the_rows_witness :
  snd (updateRateModifier 7 "holiday"
         {| u_name := None; u_multiplier := Some 2%float; u_description := None;
            u_isDefault := None |} seeded_db)
  = Some {| name := "Holiday"; multiplier := 2%float; rm_description := None;
            isDefault := false; createdAt := 0; updatedAt := 7 |}.
Proof.
  refine (proj1 (proj1 (proj2 (update_keeps_the_rows float 7 "holiday"
            {| u_name := None; u_multiplier := Some 2%float; u_description := None;
               u_isDefault := None |} seeded_db))
            (modifier "Holiday" 1.5%float false) _)).
  reflexivity.
Defined.

(** X9.  [updateRateModifier] with [isDefault: true] on a row that is not the
    default leaves that row the only default, whatever the store held; on a
    row that is the default already it does so when no other row was
    flagged. *)
Theorem promote_makes_sole_default :
  forall (num : Type) (now : Z) (rid : string) (data : UpdateRateModifierData num)
         (db : Db num) (existing : RateModifier num),
    getRateModifierById db rid = Some existing ->
    u_isDefault data = Some true ->
    isDefault existing = false \/ at_most_one_default (rate_modifiers db) ->
    sole_default (rate_modifiers (fst (updateRateModifier now rid data db))) rid.
Proof.
  intros num now rid data db existing Hid Hd Hcase.
  unfold updateRateModifier. rewrite Hid. unfold getRateModifierById in Hid.
  cbn [fst rate_modifiers]. rewrite Hd.
  set (row := fun r : RateModifier num =>
                {| name := _; multiplier := _; rm_description := _; isDefault := true;
                   createdAt := createdAt r; updatedAt := now |}).
  split.
  - rewrite lookup_alter_eq.
    destruct (true && negb (isDefault existing));
      [rewrite lookup_unset_all_defaults|]; rewrite Hid; cbn;
      eexists; (split; [reflexivity|reflexivity]).
  - intros j mj Hj Hdj. destruct (decide (j = rid)) as [|Hne]; [assumption|exfalso].
    rewrite lookup_alter_ne in Hj by auto.
    destruct (isDefault existing) eqn:He; cbn [andb negb] in Hj.
    + destruct Hcase as [|Hone]; [discriminate|].
      apply Hne. exact (Hone j rid mj existing Hj Hid Hdj He).
    + apply unset_all_defaults_none in Hj. congruence.
Qed.

Lemma promote_makes_sole_default_witness :
  sole_default
    (rate_modifiers
       (fst (updateRateModifier 7 "holiday"
               {| u_name := None; u_multiplier := None; u_description := None;
                  u_isDefault := Some true |} seeded_db))) "holiday".
Proof.
  apply (promote_makes_sole_default float 7 "holiday"
           {| u_name := None; u_multiplier := None; u_description := None;
              u_isDefault := Some true |} seeded_db (modifier "Holiday" 1.5%float false)).
  - reflexivity.
  - reflexivity.
  - left. reflexivity.
Defined.

Section DefaultLookup.

Context {num : Type}.
Implicit Types (tbl : gmap string (RateModifier num)) (db : Db num).

Lemma head_filter_Some {A : Type} (f : A -> bool) (l : list A) (x : A) :
  head (List.filter f l) = Some x -> In x l /\ f x = true.
Proof.
  intros Hh. assert (Hin : In x (List.filter f l)).
  { destruct (List.filter f l) as [|y l'] eqn:E; [discriminate|].
    injection Hh as ->. now left. }
  now apply filter_In in Hin.
Qed.

Lemma head_filter_None {A : Type} (f : A -> bool) (l : list A) :
  head (List.filter f l) = None <-> forall x, In x l -> f x = false.
Proof.
  split.
  - intros Hh x Hx. destruct (f x) eqn:E; [|reflexivity].
    assert (Hin : In x (List.filter f l)) by (apply filter_In; auto).
    destruct (List.filter f l); [destruct Hin | discriminate].
  - intros Hall. destruct (List.filter f l) as [|y l'] eqn:E; [reflexivity|].
    assert (Hin : In y (List.filter f l)) by (rewrite E; now left).
    apply filter_In in Hin. destruct Hin as [Hy Hf]. rewrite (Hall y Hy) in Hf.
    discriminate.
Qed.

Lemma In_map_to_list tbl (i : string) (m : RateModifier num) :
  In (i, m) (map_to_list tbl) <-> tbl !! i = Some m.
Proof. rewrite <- list_elem_of_In. apply elem_of_map_to_list. Qed.

Lemma default_count_zero tbl :
  default_count tbl = 0%nat <-> forall i m, tbl !! i = Some m -> isDefault m = false.
Proof.
  unfold default_count. rewrite map_size_empty_iff, map_empty_filter.
  unfold map_Forall. split.
  - intros Hall i m Hi. specialize (Hall i m Hi). cbn in Hall.
    now destruct (isDefault m).
  - intros Hall i m Hi. cbn. rewrite (Hall i m Hi). discriminate.
Qed.

End DefaultLookup.

(** X10.  [getDefaultRateModifier] returns [null] exactly when no row is
    flagged default; a row it returns is stored and flagged; and in a store
    with at most one default it returns that default. *)
Theorem getDefaultRateModifier_spec :
  forall (num : Type) (db : Db num),
    (getDefaultRateModifier db = None <-> default_count (rate_modifiers db) = 0%nat)
    /\ (forall i m, getDefaultRateModifier db = Some (i, m) ->
          getRateModifierById db i = Some m /\ isDefault m = true)
    /\ (at_most_one_default (rate_modifiers db) ->
        forall i m, getRateModifierById db i = Some m -> isDefault m = true ->
                    getDefaultRateModifier db = Some (i, m)).
Proof.
  intros num db. unfold getDefaultRateModifier, getRateModifierById.
  assert (Hsome : forall i m,
             head (List.filter (fun kv => isDefault (snd kv))
                               (map_to_list (rate_modifiers db))) = Some (i, m) ->
             rate_modifiers db !! i = Some m /\ isDefault m = true).
  { intros i m Hh. apply head_filter_Some in Hh. destruct Hh as [Hin Hd].
    split; [now apply In_map_to_list | exact Hd]. }
  split; [|split].
  - rewrite head_filter_None, default_count_zero. split.
    + intros Hall i m Hi. apply (Hall (i, m)). now apply In_map_to_list.
    + intros Hall [i m] Hin. apply (Hall i m). now apply In_map_to_list.
  - exact Hsome.
  - intros Hone i m Hi Hd.
    destruct (head (List.filter (fun kv => isDefault (snd kv))
                                (map_to_list (rate_modifiers db))))
      as [[j mj]|] eqn:Hh.
    + destruct (Hsome j mj eq_refl) as [Hj Hdj].
      assert (j = i) by exact (Hone j i mj m Hj Hi Hdj Hd). subst j.
      congruence.
    + exfalso. rewrite head_filter_None in Hh.
      specialize (Hh (i, m) (proj2 (In_map_to_list _ i m) Hi)). cbn in Hh. congruence.
Qed.

Lemma getDefaultRateModifier_spec_witness :
  getDefaultRateModifier seeded_db = Some ("standard", modifier "Standard" 1%float true).
Proof.
  apply (proj2 (proj2 (getDefaultRateModifier_spec float seeded_db))
               seeded_db_at_most_one).
  - reflexivity.
  - reflexivity.
Defined.

(** ** Texts *)

Section TextFacts.

Local Open Scope string_scope.


Lemma length_append (s t : string) :
  String.length (s ++ t) = (String.length s + String.length t)%nat.
Proof. induction s as [|c s IH]; simpl; [reflexivity | now rewrite IH]. Qed.

Lemma append_cons (a : ascii) (s t : string) : String a s ++ t = String a (s ++ t).
Proof. reflexivity. Qed.

Lemma append_nil_l (t : string) : "" ++ t = t.
Proof. reflexivity. Qed.

Lemma append_assoc (s t u : string) : (s ++ t) ++ u = s ++ (t ++ u).
Proof.
  induction s as [|c s IH]; [reflexivity|]. rewrite !append_cons. now rewrite IH.
Qed.

Lemma append_nil_r (s : string) : s ++ "" = s.
Proof. induction s as [|c s IH]; [reflexivity|]. rewrite append_cons. now rewrite IH. Qed.

Lemma chars_append (s t : string) : chars (s ++ t) = (chars s ++ chars t)%list.
Proof. induction s as [|c s IH]; simpl; [reflexivity | now rewrite IH]. Qed.

Lemma substring_prefix (d s : string) :
  String.substring 0 (String.length d) (d ++ s) = d.
Proof. induction d as [|a d IH]; simpl; [now destruct s | now rewrite IH]. Qed.

Lemma prefix_append (p s : string) : String.prefix p (p ++ s) = true.
Proof. apply String.prefix_correct, substring_prefix. Qed.

Lemma cryptoRandom_pick (b : N) :
  exists c, In c (chars alphabet)
            /\ match String.get (N.to_nat (b mod N.of_nat (String.length alphabet))) alphabet with
               | Some c => String c ""
               | None => "undefined"
               end = String c "".
Proof.
  assert (Hlt : (N.to_nat (b mod N.of_nat (String.length alphabet)) < 32)%nat).
  { change (N.of_nat (String.length alphabet)) with 32%N.
    pose proof (N.mod_lt b 32 ltac:(discriminate)). lia. }
  set (i := N.to_nat (b mod N.of_nat (String.length alphabet))) in *.
  clearbody i.
  do 32 (destruct i as [|i]; [eexists; split; [|reflexivity]; cbn; tauto|]).
  lia.
Qed.

Lemma cryptoRandom_fold (bytes : list N) (out : string) :
  String.length (fold_left cryptoRandom_step bytes out)
  = (String.length out + length bytes)%nat
  /\ (Forall (fun c => In c (chars alphabet)) (chars out) ->
      Forall (fun c => In c (chars alphabet))
             (chars (fold_left cryptoRandom_step bytes out))).
Proof.
  revert out. induction bytes as [|b bytes IH]; intros out; simpl.
  - split; [lia | auto].
  - destruct (cryptoRandom_pick b) as (c & Hc & E).
    destruct (IH (cryptoRandom_step out b)) as [Hlen Hall].
    unfold cryptoRandom_step in *. rewrite E in *.
    split.
    + rewrite Hlen, length_append. simpl. lia.
    + intros Hout. apply Hall. rewrite chars_append. apply Forall_app.
      split; [exact Hout|]. constructor; [exact Hc | constructor].
Qed.

(** X11.  [cryptoRandom] returns as many characters as it is given random
    bytes, all of them from its alphabet of 32 distinct characters, and each
    character of the alphabet stands for exactly 8 of the 256 byte values: the
    choice has no bias.  A draft invoice number is [DRAFT-] followed by these
    characters. *)
Theorem cryptoRandom_spec :
  (forall bytes : list N,
      String.length (cryptoRandom bytes) = length bytes
      /\ Forall (fun c => In c (chars alphabet)) (chars (cryptoRandom bytes))
      /\ String.prefix "DRAFT-" (generateDraftInvoiceNumber bytes) = true
      /\ String.length (generateDraftInvoiceNumber bytes) = (6 + length bytes)%nat)
  /\ Forall (fun c => length (bytes_giving c) = 8%nat) (chars alphabet)
  /\ List.NoDup (chars alphabet).
Proof.
  split; [|split].
  - intros bytes. destruct (cryptoRandom_fold bytes "") as [Hlen Hall].
    split; [exact Hlen|]. split; [apply Hall; constructor|].
    split; [apply prefix_append|].
    unfold generateDraftInvoiceNumber. rewrite length_append.
    unfold cryptoRandom. rewrite Hlen. reflexivity.
  - unfold chars. cbn [alphabet list_ascii_of_string].
    repeat (constructor; [vm_compute; reflexivity|]). constructor.
  - unfold chars. cbn [alphabet list_ascii_of_string].
    repeat (constructor; [cbn; intuition discriminate|]).
    constructor.
Qed.


Lemma lastIndexOf_from_free (c : ascii) (s : string) (i found : Z) :
  free_of c s -> lastIndexOf_from c s i found = found.
Proof.
  revert i found. induction s as [|a s IH]; intros i found Hs; simpl; [reflexivity|].
  destruct (Ascii.eqb_spec a c) as [->|Hne].
  - exfalso. apply Hs. now left.
  - apply IH. intros Hin. apply Hs. now right.
Qed.

Lemma lastIndexOf_from_last (c : ascii) (d b : string) (i found : Z) :
  free_of c b ->
  lastIndexOf_from c (d ++ String c b) i found = (i + Z.of_nat (String.length d))%Z.
Proof.
  intros Hb. revert i found. induction d as [|a d IH]; intros i found; simpl.
  - rewrite Ascii.eqb_refl. rewrite lastIndexOf_from_free by exact Hb. lia.
  - rewrite IH. lia.
Qed.

(** X12.  [simpleDirname] returns what stands before the last [/] of a path,
    when something does; for a path without [/], or whose only [/] comes
    first, it returns [/]. *)
Theorem simpleDirname_spec :
  (forall d b : string,
      d <> "" -> free_of "/" b -> simpleDirname (d ++ "/" ++ b) = d)
  /\ (forall b : string,
         free_of "/" b -> simpleDirname b = "/" /\ simpleDirname ("/" ++ b) = "/").
Proof.
  split.
  - intros d b Hd Hb. unfold simpleDirname, lastIndexOf.
    change (d ++ "/" ++ b) with (d ++ String "/" b).
    rewrite lastIndexOf_from_last by exact Hb.
    destruct d as [|a d]; [congruence|].
    destruct (0 + Z.of_nat (String.length (String a d)) <=? 0)%Z eqn:E.
    + apply Z.leb_le in E. simpl String.length in E. lia.
    + unfold slice. rewrite Z.add_0_l, Nat2Z.id, Nat.sub_0_r. apply substring_prefix.
  - intros b Hb. unfold simpleDirname, lastIndexOf. split.
    + now rewrite lastIndexOf_from_free by exact Hb.
    + change ("/" ++ b) with ("" ++ String "/" b).
      now rewrite lastIndexOf_from_last by exact Hb.
Qed.

Lemma simpleDirname_spec_witness :
  simpleDirname "data/db/invio.db" = "data/db" /\ simpleDirname "invio.db" = "/".
Proof.
  split.
  - apply (proj1 simpleDirname_spec "data/db" "invio.db").
    + discriminate.
    + unfold free_of, chars. cbn. intuition discriminate.
  - apply (proj2 simpleDirname_spec "invio.db").
    unfold free_of, chars. cbn. intuition discriminate.
Defined.

Lemma replace_char_append (c : ascii) (by_ s t : string) :
  replace_char c by_ (s ++ t) = replace_char c by_ s ++ replace_char c by_ t.
Proof.
  induction s as [|a s IH]; simpl; [reflexivity|].
  destruct (Ascii.eqb a c); rewrite IH; [|reflexivity].
  symmetry. apply append_assoc.
Qed.

Lemma escapeHtml_append (s t : string) :
  escapeHtml (Some (s ++ t)) = escapeHtml (Some s) ++ escapeHtml (Some t).
Proof. unfold escapeHtml. now rewrite !replace_char_append. Qed.

Lemma escapeHtml_cons (a : ascii) (s : string) :
  escapeHtml (Some (String a s)) = escaped a ++ escapeHtml (Some s).
Proof. exact (escapeHtml_append (String a "") s). Qed.

Lemma escaped_cases (a : ascii) :
  (special a = false /\ escaped a = String a "")
  \/ (a = "&"%char /\ escaped a = "&amp;")
  \/ (a = "<"%char /\ escaped a = "&lt;")
  \/ (a = ">"%char /\ escaped a = "&gt;")
  \/ (a = "034"%char /\ escaped a = "&quot;")
  \/ (a = "'"%char /\ escaped a = "&#39;").
Proof.
  destruct a as [[] [] [] [] [] [] [] []]; cbn; tauto.
Qed.


Lemma escaped_no_markup (a : ascii) : forallb (fun c => negb (markup c)) (chars (escaped a)) = true.
Proof.
  destruct (escaped_cases a) as [[Ha ->]|[[-> ->]|[[-> ->]|[[-> ->]|[[-> ->]|[-> ->]]]]]];
    try reflexivity.
  cbn. rewrite andb_true_r. apply negb_true_iff.
  unfold special in Ha. unfold markup.
  repeat (apply orb_false_iff in Ha; destruct Ha as [Ha ?]).
  repeat (apply orb_false_iff; split); assumption.
Qed.

Lemma forallb_chars_append (f : ascii -> bool) (s t : string) :
  forallb f (chars (s ++ t)) = forallb f (chars s) && forallb f (chars t).
Proof. rewrite chars_append. apply forallb_app. Qed.

Lemma escapeHtml_no_markup (s : string) :
  forallb (fun c => negb (markup c)) (chars (escapeHtml (Some s))) = true.
Proof.
  induction s as [|a s IH]; [reflexivity|].
  rewrite escapeHtml_cons, forallb_chars_append, IH, escaped_no_markup. reflexivity.
Qed.

Lemma escapeHtml_plain (s : string) :
  forallb (fun c => negb (special c)) (chars s) = true -> escapeHtml (Some s) = s.
Proof.
  induction s as [|a s IH]; [reflexivity|].
  cbn [chars list_ascii_of_string forallb]. intros Hs.
  apply andb_true_iff in Hs. destruct Hs as [Ha Hs]. apply negb_true_iff in Ha.
  rewrite escapeHtml_cons, (IH Hs).
  destruct (escaped_cases a) as [[_ ->]|[[-> _]|[[-> _]|[[-> _]|[[-> _]|[-> _]]]]]];
    try discriminate Ha.
  reflexivity.
Qed.

(** X13.  The text [escapeHtml] returns holds none of the characters
    [<] and [>] and neither quote; escaping a text in pieces or at once gives the
    same; a text without the five characters it replaces is returned as it
    is, and [undefined] or [null] give the empty text. *)
Theorem escapeHtml_removes_markup :
  (forall value : option string,
      forallb (fun c => negb (markup c)) (chars (escapeHtml value)) = true)
  /\ (forall s t : string,
         escapeHtml (Some (s ++ t)) = escapeHtml (Some s) ++ escapeHtml (Some t))
  /\ (forall s : string,
         forallb (fun c => negb (special c)) (chars s) = true -> escapeHtml (Some s) = s)
  /\ escapeHtml None = "".
Proof.
  split; [|split; [|split]].
  - intros [s|]; [apply escapeHtml_no_markup | reflexivity].
  - exact escapeHtml_append.
  - exact escapeHtml_plain.
  - reflexivity.
Qed.

Lemma escapeHtml_removes_markup_witness :
  escapeHtml (Some "net 30 days") = "net 30 days".
Proof.
  apply (proj1 (proj2 (proj2 escapeHtml_removes_markup)) "net 30 days"). reflexivity.
Defined.

Lemma escaped_nonempty (a : ascii) : escaped a <> "".
Proof.
  destruct (escaped_cases a) as [[Ha ->]|[[-> ->]|[[-> ->]|[[-> ->]|[[-> ->]|[-> ->]]]]]];
    discriminate.
Qed.

Lemma append_eq_nil (s t : string) : s ++ t = "" -> s = "".
Proof. destruct s; [reflexivity | discriminate]. Qed.

Ltac strip H :=
  repeat rewrite append_cons in H; repeat rewrite append_nil_l in H.

(** X14.  [escapeHtml] loses nothing: two different texts have different
    escaped forms. *)
Theorem escapeHtml_keeps_texts_apart :
  forall s t : string, s <> t -> escapeHtml (Some s) <> escapeHtml (Some t).
Proof.
  assert (Hinj : forall s t : string,
             escapeHtml (Some s) = escapeHtml (Some t) -> s = t).
  { induction s as [|a s IH]; intros [|b t] H.
    - reflexivity.
    - rewrite escapeHtml_cons in H. symmetry in H. apply append_eq_nil in H.
      now apply escaped_nonempty in H.
    - rewrite escapeHtml_cons in H. apply append_eq_nil in H.
      now apply escaped_nonempty in H.
    - rewrite !escapeHtml_cons in H.
      destruct (escaped_cases a)
        as [[Ha Ea]|[[-> Ea]|[[-> Ea]|[[-> Ea]|[[-> Ea]|[-> Ea]]]]]];
        destruct (escaped_cases b)
          as [[Hb Eb]|[[-> Eb]|[[-> Eb]|[[-> Eb]|[[-> Eb]|[-> Eb]]]]]];
        rewrite Ea in H; rewrite ?Eb in H; strip H;
        try discriminate H;
        try (injection H as H; f_equal; now apply IH);
        try (injection H as -> H; discriminate Ha);
        try (injection H as <- H; discriminate Hb).
      injection H as -> H. f_equal. now apply IH. }
  intros s t Hne H. apply Hne, Hinj, H.
Qed.

Lemma escapeHtml_keeps_texts_apart_witness :
  escapeHtml (Some "<") <> escapeHtml (Some "&lt;").
Proof.
  apply (escapeHtml_keeps_texts_apart "<" "&lt;"). discriminate.
Defined.


Lemma in_all_ascii (a : ascii) : In a all_ascii.
Proof.
  apply in_map_iff. exists (nat_of_ascii a). split; [apply ascii_nat_embedding|].
  apply in_seq. pose proof (nat_ascii_bounded a). lia.
Qed.

Lemma for_all_ascii (P : ascii -> bool) :
  forallb P all_ascii = true -> forall a, P a = true.
Proof. intros H a. rewrite forallb_forall in H. apply H, in_all_ascii. Qed.

Lemma hex_not_space (a : ascii) : is_hex a = true -> is_space a = false.
Proof.
  assert (H : forallb (fun a => implb (is_hex a) (negb (is_space a))) all_ascii = true)
    by (vm_compute; reflexivity).
  intros Ha. pose proof (for_all_ascii _ H a) as Hall. cbv beta in Hall.
  rewrite Ha in Hall. now apply negb_true_iff in Hall.
Qed.

Lemma hex_not_hash (a : ascii) : is_hex a = true -> Ascii.eqb a "#" = false.
Proof.
  assert (H : forallb (fun a => implb (is_hex a) (negb (Ascii.eqb a "#"))) all_ascii = true)
    by (vm_compute; reflexivity).
  intros Ha. pose proof (for_all_ascii _ H a) as Hall. cbv beta in Hall.
  rewrite Ha in Hall. now apply negb_true_iff in Hall.
Qed.

(** The texts [hex6] accepts. *)
Lemma hex6_inv (d : string) :
  hex6 d = true ->
  exists a1 a2 a3 a4 a5 a6,
    d = String a1 (String a2 (String a3 (String a4 (String a5 (String a6 "")))))
    /\ is_hex a1 = true /\ is_hex a2 = true /\ is_hex a3 = true
    /\ is_hex a4 = true /\ is_hex a5 = true /\ is_hex a6 = true.
Proof.
  unfold hex6. intros H. apply andb_true_iff in H. destruct H as [Hlen Hall].
  apply Nat.eqb_eq in Hlen.
  destruct d as [|a1 [|a2 [|a3 [|a4 [|a5 [|a6 [|a7 d]]]]]]]; try discriminate Hlen.
  cbn in Hall. repeat (apply andb_true_iff in Hall; destruct Hall as [? Hall]).
  exists a1, a2, a3, a4, a5, a6. repeat split; assumption.
Qed.

Lemma normalizeHex_canonical (d : string) :
  hex6 d = true -> normalizeHex (Some ("#" ++ d)) = Some ("#" ++ d).
Proof.
  intros Hd. pose proof Hd as Hd'.
  apply hex6_inv in Hd' as (a1 & a2 & a3 & a4 & a5 & a6 & -> & H1 & H2 & H3 & H4 & H5 & H6).
  unfold normalizeHex. rewrite append_cons, append_nil_l.
  assert (Ht : trim (String "#" (String a1 (String a2 (String a3 (String a4
                       (String a5 (String a6 "")))))))
               = String "#" (String a1 (String a2 (String a3 (String a4
                       (String a5 (String a6 ""))))))).
  { unfold trim. cbn [trimStart]. change (is_space "#") with false. cbv iota.
    unfold trimEnd, reverse. cbn [list_ascii_of_string rev app string_of_list_ascii trimStart].
    rewrite (hex_not_space a6 H6). reflexivity. }
  assert (E : is_hex_colour (String "#" (String a1 (String a2 (String a3 (String a4
                       (String a5 (String a6 ""))))))) = true).
  { unfold is_hex_colour. rewrite Hd. reflexivity. }
  cbv zeta. rewrite Ht, E. reflexivity.
Qed.

(** X15.  A colour that [normalizeHex] returns is [#] followed by six
    hexadecimal digits, and [normalizeHex] returns it unchanged when given
    it again; [undefined] and the empty text give [undefined]. *)
Theorem normalizeHex_is_canonical :
  (forall (hex : option string) (h : string),
      normalizeHex hex = Some h ->
      (exists d, h = "#" ++ d /\ hex6 d = true)
      /\ normalizeHex (Some h) = Some h)
  /\ normalizeHex None = None /\ normalizeHex (Some "") = None.
Proof.
  split; [|split; reflexivity].
  intros hex h Hh.
  assert (Hd : exists d, h = "#" ++ d /\ hex6 d = true).
  { unfold normalizeHex in Hh. destruct hex as [[|c hex]|]; try discriminate Hh.
    set (t := trim (String c hex)) in *.
    destruct (is_hex_colour t) eqn:Ht; [|discriminate Hh].
    injection Hh as <-. unfold is_hex_colour in Ht.
    destruct t as [|a t]; [discriminate Ht|].
    destruct (Ascii.eqb_spec a "#") as [->|Hne].
    - change (String.prefix "#" (String "#" t)) with (String.prefix "" t).
      assert (Hp : String.prefix "" t = true) by now destruct t.
      rewrite Hp. exists t. split; [reflexivity|].
      assert (H6 : hex6 (String "#" t) = false).
      { unfold hex6. cbn [chars list_ascii_of_string forallb].
        change (is_hex "#") with false. now rewrite andb_false_r. }
      rewrite H6, orb_false_r in Ht. exact Ht.
    - assert (Ht' : hex6 (String a t) = true).
      { destruct a as [[] [] [] [] [] [] [] []]; try exact Ht. congruence. }
      assert (Hp : String.prefix "#" (String a t) = false).
      { apply not_true_iff_false. intros Hp. apply String.prefix_correct in Hp.
        cbn in Hp. injection Hp as Hp. congruence. }
      rewrite Hp. exists (String a t). split; [reflexivity | exact Ht']. }
  split; [exact Hd|]. destruct Hd as (d & -> & Hd). now apply normalizeHex_canonical.
Qed.

Lemma normalizeHex_is_canonical_witness :
  normalizeHex (Some "#a1B2c3") = Some "#a1B2c3".
Proof.
  apply (proj1 normalizeHex_is_canonical (Some " a1B2c3  ") "#a1B2c3"). reflexivity.
Defined.

Lemma in_hex_chars (a : ascii) : is_hex a = true -> In a hex_chars.
Proof. intros Ha. apply filter_In. split; [apply in_all_ascii | exact Ha]. Qed.

Lemma channel_hex2_on (l : list ascii) (amount : float) :
  forallb (fun a => forallb (fun b => hex2 (channel amount (String a (String b "")))) l) l
  = true ->
  forall a b, In a l -> In b l -> hex2 (channel amount (String a (String b ""))) = true.
Proof.
  intros Hc a b Ha Hb.
  pose proof (proj1 (forallb_forall _ _) Hc a Ha) as H1. cbv beta in H1.
  exact (proj1 (forallb_forall _ _) H1 b Hb).
Qed.

Lemma hex2_inv (s : string) :
  hex2 s = true ->
  exists x y, s = String x (String y "") /\ is_hex x = true /\ is_hex y = true.
Proof.
  unfold hex2. intros H. apply andb_true_iff in H. destruct H as [Hlen Hall].
  apply Nat.eqb_eq in Hlen.
  destruct s as [|x [|y [|z s]]]; try discriminate Hlen.
  cbn in Hall. repeat (apply andb_true_iff in Hall; destruct Hall as [? Hall]).
  exists x, y. repeat split; assumption.
Qed.

Lemma lighten_valid (amount : float) (hex : string) :
  (forall a b, is_hex a = true -> is_hex b = true ->
               hex2 (channel amount (String a (String b ""))) = true) ->
  normalizeHex (Some (lighten hex amount)) = Some (lighten hex amount).
Proof.
  intros Hc.
  assert (Hn : exists d, match normalizeHex (Some hex) with
                         | Some n => n
                         | None => "#2563eb"
                         end = "#" ++ d /\ hex6 d = true).
  { destruct (normalizeHex (Some hex)) as [n|] eqn:E.
    - exact (proj1 (proj1 normalizeHex_is_canonical _ _ E)).
    - exists "2563eb". split; reflexivity. }
  destruct Hn as (d & En & Hd).
  apply hex6_inv in Hd as (a1 & a2 & a3 & a4 & a5 & a6 & -> & H1 & H2 & H3 & H4 & H5 & H6).
  assert (El : lighten hex amount
               = "#" ++ channel amount (String a1 (String a2 ""))
                     ++ channel amount (String a3 (String a4 ""))
                     ++ channel amount (String a5 (String a6 ""))).
  { unfold lighten. rewrite En. reflexivity. }
  rewrite El.
  destruct (hex2_inv _ (Hc a1 a2 H1 H2)) as (x1 & y1 & -> & ? & ?).
  destruct (hex2_inv _ (Hc a3 a4 H3 H4)) as (x2 & y2 & -> & ? & ?).
  destruct (hex2_inv _ (Hc a5 a6 H5 H6)) as (x3 & y3 & -> & ? & ?).
  apply normalizeHex_canonical. unfold hex6. cbn.
  repeat (apply andb_true_iff; split); assumption || reflexivity.
Qed.

Lemma channels_085 (a b : ascii) :
  is_hex a = true -> is_hex b = true ->
  hex2 (channel 0.85 (String a (String b ""))) = true.
Proof.
  intros Ha Hb.
  apply (channel_hex2_on hex_chars 0.85);
    [vm_compute; reflexivity | now apply in_hex_chars | now apply in_hex_chars].
Qed.

Lemma channels_086 (a b : ascii) :
  is_hex a = true -> is_hex b = true ->
  hex2 (channel 0.86 (String a (String b ""))) = true.
Proof.
  intros Ha Hb.
  apply (channel_hex2_on hex_chars 0.86);
    [vm_compute; reflexivity | now apply in_hex_chars | now apply in_hex_chars].
Qed.

(** X16.  With the amounts it is called with, 0.85 (its default) and 0.86,
    [lighten] returns a colour in the form of [normalizeHex], whatever text
    it is given; a text that is no colour is treated as [#2563eb]. *)
Theorem lighten_returns_a_colour :
  forall hex : string,
    normalizeHex (Some (lighten hex 0.85)) = Some (lighten hex 0.85)
    /\ normalizeHex (Some (lighten hex 0.86)) = Some (lighten hex 0.86)
    /\ (normalizeHex (Some hex) = None ->
        forall amount, lighten hex amount = lighten "#2563eb" amount).
Proof.
  intros hex. split; [|split].
  - apply lighten_valid, channels_085.
  - apply lighten_valid, channels_086.
  - intros E amount. unfold lighten. rewrite E. reflexivity.
Qed.

Lemma lighten_returns_a_colour_witness :
  lighten "not a colour" 0.85 = lighten "#2563eb" 0.85.
Proof.
  exact (proj2 (proj2 (lighten_returns_a_colour "not a colour")) eq_refl 0.85%float).
Defined.

End TextFacts.

(** ** Invoice numbers *)

Section InvoiceNumberFacts.

Local Open Scope string_scope.

Lemma digits_value_app (l : list ascii) (d : ascii) :
  digits_value (l ++ [d]) = (digits_value l * 10 + digit_value d)%Z.
Proof. unfold digits_value. now rewrite fold_left_app. Qed.

Lemma dec_digit_spec (d : Z) :
  (0 <= d < 10)%Z -> is_digit (dec_digit d) = true /\ digit_value (dec_digit d) = d.
Proof.
  intros Hd.
  assert (H : (d = 0 \/ d = 1 \/ d = 2 \/ d = 3 \/ d = 4 \/ d = 5 \/ d = 6 \/ d = 7
               \/ d = 8 \/ d = 9)%Z) by lia.
  repeat (destruct H as [->|H]; [split; reflexivity|]). subst d. split; reflexivity.
Qed.

Lemma dec_digits_acc (fuel : nat) (n : Z) (acc : string) :
  dec_digits fuel n acc = dec_digits fuel n "" ++ acc.
Proof.
  revert n acc. induction fuel as [|fuel IH]; intros n acc; [reflexivity|].
  cbn [dec_digits]. destruct (n <? 10)%Z; [reflexivity|].
  rewrite IH, (IH _ (String _ "")), append_assoc. reflexivity.
Qed.

Lemma dec_digits_spec (fuel : nat) (n : Z) :
  (0 < fuel)%nat -> (0 <= n < 2 ^ Z.of_nat fuel)%Z ->
  let ds := chars (dec_digits fuel n "") in
  ds <> [] /\ forallb is_digit ds = true /\ digits_value ds = n.
Proof.
  revert n. induction fuel as [|fuel IH]; intros n Hfuel Hn ds; subst ds; [lia|].
  cbn [dec_digits]. destruct (n <? 10)%Z eqn:E.
  - apply Z.ltb_lt in E.
    destruct (dec_digit_spec n ltac:(lia)) as [H1 H2].
    rewrite Z.mod_small by lia.
    cbn [chars list_ascii_of_string forallb]. rewrite H1.
    split; [discriminate|]. split; [reflexivity|].
    unfold digits_value. cbn [fold_left]. lia.
  - apply Z.ltb_ge in E.
    rewrite dec_digits_acc, chars_append.
    rewrite Nat2Z.inj_succ, Z.pow_succ_r in Hn by lia.
    assert (Hq : (0 <= n / 10 < 2 ^ Z.of_nat fuel)%Z).
    { split; [apply Z.div_pos; lia|]. apply Z.div_lt_upper_bound; lia. }
    assert (Hf : (0 < fuel)%nat).
    { destruct fuel; [|lia]. change (2 ^ Z.of_nat 0)%Z with 1%Z in Hn. lia. }
    destruct (IH (n / 10)%Z Hf Hq) as (Hne & Hall & Hval).
    destruct (dec_digit_spec (n mod 10) (Z.mod_pos_bound n 10 ltac:(lia))) as [H1 H2].
    split.
    { intros Hnil. apply app_eq_nil in Hnil. destruct Hnil as [_ Hnil]. discriminate. }
    split.
    { rewrite forallb_app, Hall. cbn. now rewrite H1. }
    change (chars (String (dec_digit (n mod 10)) "")) with [dec_digit (n mod 10)].
    rewrite digits_value_app, Hval, H2.
    pose proof (Z.div_mod n 10 ltac:(lia)). lia.
Qed.

(** [String(n)] is read back as [n]. *)
Lemma string_of_int_spec (n : Z) :
  (0 <= n)%Z ->
  let ds := chars (string_of_int n) in
  ds <> [] /\ forallb is_digit ds = true /\ digits_value ds = n.
Proof.
  intros Hn. unfold string_of_int.
  assert (E : (n <? 0)%Z = false) by (apply Z.ltb_ge; lia). rewrite E.
  apply dec_digits_spec; [lia|]. split; [exact Hn|].
  rewrite Nat2Z.inj_add, Z2Nat.id by apply Z.log2_nonneg.
  change (Z.of_nat 1) with 1%Z.
  destruct (Z.eq_dec n 0%Z) as [->|Hne]; [reflexivity|].
  apply Z.log2_spec. lia.
Qed.

Lemma chars_string_of_list (l : list ascii) : chars (string_of_list_ascii l) = l.
Proof. apply list_ascii_of_string_of_list_ascii. Qed.

Lemma digits_value_zeros (k : nat) (l : list ascii) :
  digits_value (repeat "0"%char k ++ l) = digits_value l.
Proof.
  unfold digits_value. rewrite fold_left_app. f_equal.
  induction k as [|k IH]; [reflexivity|]. cbn [repeat fold_left]. exact IH.
Qed.

Lemma padStart0_spec (k : nat) (s : string) :
  chars s <> [] -> forallb is_digit (chars s) = true ->
  let ds := chars (padStart0 k s) in
  ds <> [] /\ forallb is_digit ds = true /\ digits_value ds = digits_value (chars s)
  /\ (k <= length ds)%nat.
Proof.
  intros Hne Hall ds. subst ds. unfold padStart0.
  rewrite chars_append, chars_string_of_list.
  split; [intros H; apply app_eq_nil in H; tauto|].
  split.
  { rewrite forallb_app, Hall, andb_true_r.
    induction (k - String.length s)%nat as [|j IH]; [reflexivity | exact IH]. }
  split; [apply digits_value_zeros|].
  rewrite length_app, repeat_length.
  assert (E : String.length s = length (chars s)).
  { clear. induction s as [|a s IH]; [reflexivity|]. cbn. now rewrite IH. }
  lia.
Qed.

Lemma like_anything (s : list ascii) : like ["%"%char] s = true.
Proof.
  cbn [like]. change (Ascii.eqb "%" "%") with true. cbv iota.
  induction s as [|a s IH]; [reflexivity|]. exact IH.
Qed.

Lemma like_char_refl (c : ascii) : like_char c c = true.
Proof. apply Ascii.eqb_refl. Qed.

Lemma like_percent_skip (pat : list ascii) (s : list ascii) :
  like pat s = true -> like ("%"%char :: pat) s = true.
Proof.
  intros H. cbn [like]. change (Ascii.eqb "%" "%") with true. cbv iota.
  destruct s; rewrite H; reflexivity.
Qed.

Lemma like_percent_cons (pat : list ascii) (a : ascii) (s : list ascii) :
  like ("%"%char :: pat) s = true -> like ("%"%char :: pat) (a :: s) = true.
Proof.
  intros H.
  change (like ("%"%char :: pat) (a :: s))
    with (like pat (a :: s) || like ("%"%char :: pat) s).
  rewrite H. apply orb_true_r.
Qed.

(** [LIKE] with the pattern [start%] takes every text that begins with
    [start]. *)
Lemma like_start (p rest : list ascii) : like (p ++ ["%"%char]) (p ++ rest) = true.
Proof.
  induction p as [|c p IH]; [apply like_anything|].
  cbn [app]. destruct (Ascii.eqb_spec c "%") as [->|Hne].
  - apply like_percent_cons, like_percent_skip, IH.
  - cbn [like]. apply Ascii.eqb_neq in Hne. rewrite Hne.
    rewrite like_char_refl, orb_true_r. exact IH.
Qed.

Lemma drop_chars_append (s t : string) : drop_chars (String.length s) (s ++ t) = t.
Proof.
  induction s as [|a s IH]; [now destruct t|]. rewrite append_cons. exact IH.
Qed.

Lemma legacy_sequence_of_digits (base x : string) :
  chars x <> [] -> forallb is_digit (chars x) = true ->
  legacy_sequence base (base ++ x) = Some (chars x).
Proof.
  intros Hne Hall. unfold legacy_sequence.
  rewrite prefix_append, drop_chars_append.
  destruct (chars x) as [|a l]; [congruence|]. now rewrite Hall.
Qed.

Lemma to_double_small (z : Z) : (0 <= z <= 2 ^ 53)%Z -> to_double z = Num z.
Proof.
  intros [H0 H1]. destruct (Z.eq_dec z (2 ^ 53)%Z) as [->|Hne]; [reflexivity|].
  unfold to_double.
  assert (Hd : (Z.log2 z + 1 <= 53)%Z).
  { destruct (Z.eq_dec z 0%Z) as [->|Hz]; [cbn; lia|].
    assert (Z.log2 z < 53)%Z by (apply Z.log2_lt_pow2; lia). lia. }
  apply Z.leb_le in Hd. now rewrite Hd.
Qed.

Lemma is_digit_value (c : ascii) : is_digit c = true -> (0 <= digit_value c <= 9)%Z.
Proof.
  unfold is_digit, in_range, digit_value. intros H.
  apply andb_true_iff in H. destruct H as [H1 H2].
  apply Nat.leb_le in H1, H2.
  change (nat_of_ascii "0") with 48%nat in H1.
  change (nat_of_ascii "9") with 57%nat in H2. lia.
Qed.

Lemma digits_value_nonneg (ds : list ascii) :
  forallb is_digit ds = true -> (0 <= digits_value ds)%Z.
Proof.
  unfold digits_value.
  assert (G : forall acc, (0 <= acc)%Z -> forallb is_digit ds = true ->
                          (0 <= fold_left (fun a d => a * 10 + digit_value d) ds acc)%Z).
  { induction ds as [|d ds IH]; intros acc Hacc Hall; simpl; [exact Hacc|].
    simpl in Hall. apply andb_true_iff in Hall. destruct Hall as [Hd Hall].
    apply IH; [|exact Hall]. pose proof (is_digit_value d Hd). lia. }
  apply G. lia.
Qed.

Section Loop.

Variable sequence : string -> option (list ascii).

(** Below [2^53] the loop computes the largest sequence number. *)
Lemma fold_sequence_safe (rows : list string) (B m : Z) :
  (0 <= m <= B)%Z -> (B <= 2 ^ 53)%Z ->
  (forall inv ds, In inv rows -> sequence inv = Some ds ->
                  (0 <= digits_value ds <= B)%Z) ->
  exists m',
    fold_left (fun maxNum inv =>
                 match sequence inv with
                 | Some ds => natural_max maxNum (to_double (digits_value ds))
                 | None => maxNum
                 end) rows (Num m) = Num m'
    /\ (m <= m' <= B)%Z
    /\ (forall inv ds, In inv rows -> sequence inv = Some ds ->
                       (digits_value ds <= m')%Z).
Proof.
  intros Hm HB. revert m Hm. induction rows as [|r rows IH]; intros m Hm Hall; simpl.
  - exists m. split; [reflexivity|]. split; [lia|]. intros inv ds [].
  - destruct (sequence r) as [ds|] eqn:E.
    + pose proof (Hall r ds (or_introl eq_refl) E) as Hds.
      rewrite (to_double_small (digits_value ds)) by lia. cbn [natural_max].
      destruct (IH (Z.max m (digits_value ds)) ltac:(lia)
                   ltac:(intros inv ds' Hin; apply Hall; now right))
        as (m' & Hfold & Hm' & Hge).
      exists m'. split; [exact Hfold|]. split; [lia|].
      intros inv ds' [<-|Hin] Hs; [|now apply (Hge inv)].
      rewrite E in Hs. injection Hs as <-. lia.
    + destruct (IH m Hm ltac:(intros inv ds' Hin; apply Hall; now right))
        as (m' & Hfold & Hm' & Hge).
      exists m'. split; [exact Hfold|]. split; [exact Hm'|].
      intros inv ds' [<-|Hin] Hs; [congruence | now apply (Hge inv)].
Qed.

Lemma max_sequence_safe (rows : list string) :
  (forall inv ds, In inv rows -> sequence inv = Some ds ->
                  (0 <= digits_value ds <= MAX_SAFE_INTEGER)%Z) ->
  exists m,
    max_sequence sequence rows = Num m
    /\ (0 <= m <= MAX_SAFE_INTEGER)%Z
    /\ (forall inv ds, In inv rows -> sequence inv = Some ds ->
                       (digits_value ds <= m)%Z).
Proof.
  intros Hall. unfold max_sequence.
  apply (fold_sequence_safe rows MAX_SAFE_INTEGER 0); [|discriminate|exact Hall].
  split; [lia | discriminate].
Qed.

End Loop.

Lemma legacy_sequence_digits (base inv : string) (ds : list ascii) :
  legacy_sequence base inv = Some ds -> forallb is_digit ds = true.
Proof.
  unfold legacy_sequence. destruct (String.prefix base inv); [|discriminate].
  destruct (chars (drop_chars (String.length base) inv)) as [|a l]; [discriminate|].
  destruct (forallb is_digit (a :: l)) eqn:E; [|discriminate].
  now intros [= <-].
Qed.

End InvoiceNumberFacts.

(** The number of the legacy numbering continues the sequence. *)
Lemma legacy_number_fresh :
  forall (settings : gmap string string) (now : Today) (rand4 : nat -> string)
         (invoices : list string),
    let nb := numbering settings in
    let base := legacy_base nb now in
    nb_enabled nb = false \/ nb_pattern nb = None ->
    (forall inv ds, In inv invoices -> legacy_sequence base inv = Some ds ->
                    (digits_value ds <= MAX_SAFE_INTEGER)%Z) ->
    exists n ds,
      getNextInvoiceNumber settings now rand4 invoices = Some n
      /\ legacy_sequence base n = Some ds
      /\ (nb_pad nb <= length ds)%nat
      /\ (forall inv ds', In inv invoices -> legacy_sequence base inv = Some ds' ->
                          (digits_value ds' < digits_value ds)%Z)
      /\ ~ In n invoices.
Proof.
  intros settings now rand4 invoices nb base Hlegacy Hsafe.
  unfold getNextInvoiceNumber. fold nb.
  assert (E : (if nb_enabled nb then nb_pattern nb else None) = None).
  { destruct Hlegacy as [-> | ->]; [reflexivity | now destruct (nb_enabled nb)]. }
  rewrite E. fold base.
  set (rows := rows_like base invoices).
  assert (Hrows : forall inv, In inv rows -> In inv invoices).
  { intros inv Hin. apply filter_In in Hin. tauto. }
  destruct (max_sequence_safe (legacy_sequence base) rows) as (maxNum & Emax & Hmax & Hge).
  { intros inv ds Hin Hs. split.
    - apply digits_value_nonneg. now apply (legacy_sequence_digits base inv).
    - apply (Hsafe inv); [now apply Hrows | exact Hs]. }
  rewrite Emax. cbn [natural_succ].
  assert (Hnext : (0 <= maxNum + 1 <= 2 ^ 53)%Z).
  { unfold MAX_SAFE_INTEGER in Hmax. lia. }
  rewrite (to_double_small _ Hnext). cbn [natural_to_string].
  assert (Ele : (maxNum + 1 <=? 2 ^ 53)%Z = true) by (apply Z.leb_le; lia).
  rewrite Ele.
  destruct (string_of_int_spec (maxNum + 1) ltac:(lia)) as (Hne & Hall & Hval).
  destruct (padStart0_spec (nb_pad nb) _ Hne Hall) as (Hne' & Hall' & Hval' & Hlen).
  set (x := padStart0 (nb_pad nb) (string_of_int (maxNum + 1))) in *.
  assert (Hseq : legacy_sequence base (base ++ x)%string = Some (chars x))
    by now apply legacy_sequence_of_digits.
  assert (Hlt : forall inv ds', In inv invoices -> legacy_sequence base inv = Some ds' ->
                                (digits_value ds' < digits_value (chars x))%Z).
  { intros inv ds' Hin Hs.
    assert (Hrow : In inv rows).
    { apply filter_In. split; [exact Hin|].
      unfold legacy_sequence in Hs.
      destruct (String.prefix base inv) eqn:Hp; [|discriminate Hs].
      apply String.prefix_correct in Hp.
      assert (Einv : inv = (base ++ drop_chars (String.length base) inv)%string).
      { clear -Hp. revert inv Hp. induction base as [|a b IH]; intros inv Hp.
        - now destruct inv.
        - destruct inv as [|c inv]; [discriminate Hp|].
          cbn in Hp. injection Hp as -> Hp. rewrite append_cons. cbn [drop_chars String.length].
          f_equal. now apply IH. }
      rewrite Einv at 1. rewrite !chars_append. apply like_start. }
    pose proof (Hge inv ds' Hrow Hs) as Hle. lia. }
  exists (base ++ x)%string, (chars x).
  split; [reflexivity|]. split; [exact Hseq|]. split; [exact Hlen|].
  split; [exact Hlt|].
  intros Hin. specialize (Hlt _ _ Hin Hseq). lia.
Qed.




(** ** The invoice store *)

Lemma applyDerivedOverdue_cases (today : Z) (inv : Invoice) :
  (past_due today inv /\ applyDerivedOverdue today inv = with_status inv Overdue)
  \/ (~ past_due today inv /\ applyDerivedOverdue today inv = inv).
Proof.
  unfold applyDerivedOverdue, past_due.
  destruct (is_paid (status inv)) eqn:Hp.
  { right. split; [|reflexivity]. intros [Hn _]. destruct (status inv); try discriminate Hp.
    now apply Hn. }
  assert (Hnp : status inv <> Paid) by (intros E; rewrite E in Hp; discriminate Hp).
  destruct (dueDate inv) as [[|d]|] eqn:Hd.
  - right. split; [|reflexivity]. intros (_ & d' & Hd' & _). discriminate Hd'.
  - destruct (d <? today)%Z eqn:E.
    + left. apply Z.ltb_lt in E. split; [|reflexivity]. split; [exact Hnp|].
      exists d. now split.
    + right. apply Z.ltb_ge in E. split; [|reflexivity].
      intros (_ & d' & Hd' & Hlt). injection Hd' as <-. lia.
  - right. split; [|reflexivity]. intros (_ & d' & Hd' & _). discriminate Hd'.
Qed.

Lemma with_status_same (inv : Invoice) : with_status inv (status inv) = inv.
Proof. now destruct inv. Qed.

(** X18.  [applyDerivedOverdue] changes nothing but the status; the status
    it returns is [overdue] exactly when the stored one is, or when the
    invoice is not paid and its due day lies before today (an invoice due
    today is not overdue); in every other case the invoice is returned as it
    is.  Applying it twice is the same as once, and an invoice seen as
    overdue stays so on every later day. *)
Theorem derived_overdue_spec :
  forall (today : Z) (inv : Invoice),
    let inv' := applyDerivedOverdue today inv in
    same_but_status inv' inv
    /\ (status inv' = Overdue <-> status inv = Overdue \/ past_due today inv)
    /\ (status inv' <> Overdue -> inv' = inv)
    /\ applyDerivedOverdue today inv' = inv'
    /\ (forall later, (today <= later)%Z -> status inv' = Overdue ->
                      status (applyDerivedOverdue later inv) = Overdue).
Proof.
  intros today inv inv'. subst inv'. unfold same_but_status.
  destruct (applyDerivedOverdue_cases today inv) as [[Hpd ->] | [Hn ->]].
  - split; [now destruct inv|]. split; [split; auto|].
    split; [intros H; now contradiction H|]. split.
    + destruct (applyDerivedOverdue_cases today (with_status inv Overdue))
        as [[_ ->] | [_ ->]]; reflexivity.
    + intros later Hl _.
      destruct (applyDerivedOverdue_cases later inv) as [[_ ->] | [Hn ->]]; [reflexivity|].
      exfalso. apply Hn. destruct Hpd as (Hp & d & Hd & Hlt).
      split; [exact Hp|]. exists d. split; [exact Hd | lia].
  - split; [apply with_status_same|].
    split; [split; [auto | intros [H|H]; [exact H | contradiction]]|].
    split; [reflexivity|]. split.
    + destruct (applyDerivedOverdue_cases today inv) as [[Hpd _] | [_ ->]];
        [contradiction | reflexivity].
    + intros later Hl Hov.
      destruct (applyDerivedOverdue_cases later inv) as [[_ ->] | [_ ->]];
        [reflexivity | exact Hov].
Qed.

Lemma derived_overdue_spec_witness :
  status (applyDerivedOverdue 20
            {| invoiceNumber := "INV-2026-001"; customerId := Some "c1";
               currency := Some "EUR"; status := Sent;
               dueDate := Some (LocalDay 9); shareToken := "t1" |}) = Overdue.
Proof.
  refine (proj2 (proj2 (proj2 (proj2 (derived_overdue_spec 10 _)))) 20%Z _ _).
  - discriminate.
  - reflexivity.
Defined.

Section InvoiceStoreFacts.

Local Open Scope string_scope.

Lemma derived_fields (today : Z) (inv : Invoice) :
  let inv' := applyDerivedOverdue today inv in
  invoiceNumber inv' = invoiceNumber inv /\ customerId inv' = customerId inv
  /\ currency inv' = currency inv /\ dueDate inv' = dueDate inv
  /\ shareToken inv' = shareToken inv.
Proof.
  cbv zeta.
  destruct (applyDerivedOverdue_cases today inv) as [[_ ->] | [_ ->]];
    repeat split; reflexivity.
Qed.

Lemma derived_is_draft (today : Z) (inv : Invoice) :
  is_draft (status (applyDerivedOverdue today inv)) = true
  <-> status inv = Draft /\ ~ past_due today inv.
Proof.
  destruct (applyDerivedOverdue_cases today inv) as [[Hpd ->] | [Hn ->]].
  - cbn. split; [discriminate | intros [_ H]; contradiction].
  - split.
    + intros H. split; [|exact Hn]. destruct (status inv); try discriminate H. reflexivity.
    + intros [-> _]. reflexivity.
Qed.

(** What [getInvoiceById] reads of the store. *)
Lemma getInvoiceById_found (today : Z) (db : InvoiceDb) (id : string)
      (found : InvoiceWithDetails) :
  getInvoiceById today db id = Some found ->
  exists row,
    invoices db !! id = Some row
    /\ invoice found = applyDerivedOverdue today row
    /\ getCustomerById db (customerId row) = Some (customer_name found)
    /\ item_count found = length (List.filter (String.eqb id) (item_rows db)).
Proof.
  unfold getInvoiceById. destruct (invoices db !! id) as [row|]; [|discriminate].
  cbv zeta. destruct (derived_fields today row) as (_ & Hc & _). rewrite Hc.
  destruct (getCustomerById db (customerId row)) as [name|] eqn:Hname; [|discriminate].
  intros [= <-]. exists row. repeat split; try reflexivity. exact Hname.
Qed.

Lemma publish_unchanged (today : Z) (next : string) (base_url : option string)
      (id : string) (db : InvoiceDb) (row : Invoice) :
  invoices db !! id = Some row ->
  status row <> Draft \/ past_due today row ->
  fst (publishInvoice today next base_url id db) = db.
Proof.
  intros Hrow Hcase. unfold publishInvoice.
  destruct (getInvoiceById today db id) as [found|] eqn:Hget; [|reflexivity].
  destruct (missing_fields found); [|reflexivity].
  destruct (getInvoiceById_found _ _ _ _ Hget) as (row' & Hrow' & Hinv & _).
  rewrite Hrow in Hrow'. injection Hrow' as <-.
  destruct (is_draft (status (invoice found))) eqn:Hd; [|reflexivity].
  rewrite Hinv in Hd. apply derived_is_draft in Hd. destruct Hd as [Hs Hn].
  destruct Hcase; contradiction.
Qed.

End InvoiceStoreFacts.

(** X19.  [publishInvoice] leaves the store as it is whenever the stored
    status is not [draft], and also when it is [draft] but the due day has
    passed: [getInvoiceById] then shows the invoice as overdue.  In that case
    a complete invoice is still answered with its share token and URL, while
    it stays a draft with the number it had. *)
Theorem publish_skips_overdue_drafts :
  forall (today : Z) (next : string) (base_url : option string) (id : string)
         (db : InvoiceDb) (row : Invoice),
    invoices db !! id = Some row ->
    status row <> Draft \/ past_due today row ->
    fst (publishInvoice today next base_url id db) = db
    /\ (forall found,
           getInvoiceById today db id = Some found -> missing_fields found = [] ->
           exists url,
             snd (publishInvoice today next base_url id db)
             = inr (shareToken row, url)).
Proof.
  intros today next base_url id db row Hrow Hcase.
  split; [now apply (publish_unchanged today next base_url id db row)|].
  intros found Hget Hmiss. unfold publishInvoice. rewrite Hget, Hmiss.
  destruct (getInvoiceById_found _ _ _ _ Hget) as (row' & Hrow' & Hinv & _).
  rewrite Hrow in Hrow'. injection Hrow' as <-.
  destruct (derived_fields today row) as (_ & _ & _ & _ & Htok).
  rewrite Hinv, Htok.
  destruct (is_draft (status (applyDerivedOverdue today row))) eqn:Hd.
  - apply derived_is_draft in Hd. destruct Hd as [Hs Hn]. destruct Hcase; contradiction.
  - eexists. reflexivity.
Qed.

Lemma publish_skips_overdue_drafts_witness :
  fst (publishInvoice 10 "INV-2026-001" None "i1" late_draft_db) = late_draft_db.
Proof.
  refine (proj1 (publish_skips_overdue_drafts 10 "INV-2026-001" None "i1" late_draft_db
                   _ _ _)).
  - reflexivity.
  - right. split; [discriminate|]. exists 9%Z. split; [reflexivity | reflexivity].
Defined.

Section InvoiceLifecycle.

Local Open Scope string_scope.

Lemma row_kept_refl (row : Invoice) : row_kept row row.
Proof. repeat split; reflexivity. Qed.

Lemma same_rows_but_refl (id : string) (db : InvoiceDb) : same_rows_but id db db.
Proof.
  split; [reflexivity|]. split; [reflexivity|]. split; [auto|].
  intros j row Hj. exists row. split; [exact Hj|]. split; [apply row_kept_refl | auto].
Qed.

Lemma same_rows_but_set (id : string) (db : InvoiceDb) (row row' : Invoice) :
  invoices db !! id = Some row -> row_kept row row' ->
  same_rows_but id db (set_invoice db id row').
Proof.
  intros Hid Hk. split; [reflexivity|]. split; [reflexivity|].
  cbn [set_invoice invoices]. split.
  - intros j Hj. rewrite lookup_insert_ne; [exact Hj|]. intros <-. congruence.
  - intros j r Hj. destruct (decide (j = id)) as [->|Hne].
    + rewrite lookup_insert_eq. exists row'. rewrite Hid in Hj. injection Hj as <-.
      split; [reflexivity|]. split; [exact Hk | congruence].
    + rewrite lookup_insert_ne by auto. exists r.
      split; [exact Hj|]. split; [apply row_kept_refl | auto].
Qed.

Lemma publish_same_rows (today : Z) (next : string) (base_url : option string)
      (id : string) (db : InvoiceDb) :
  same_rows_but id db (fst (publishInvoice today next base_url id db)).
Proof.
  unfold publishInvoice.
  destruct (getInvoiceById today db id) as [found|] eqn:Hget;
    [|apply same_rows_but_refl].
  destruct (missing_fields found); [|apply same_rows_but_refl].
  destruct (is_draft (status (invoice found))); [|apply same_rows_but_refl].
  destruct (getInvoiceById_found _ _ _ _ Hget) as (row & Hrow & Hinv & _).
  rewrite Hrow.
  destruct (number_taken db id _); [apply same_rows_but_refl|].
  cbn [fst]. apply same_rows_but_set with (row := row); [exact Hrow|].
  repeat split; try reflexivity. cbn [invoiceNumber].
  destruct (derived_fields today row) as (Hnum & _).
  rewrite Hinv, Hnum. intros ->. reflexivity.
Qed.

Lemma unpublish_same_rows (today : Z) (newToken : string) (id : string) (db : InvoiceDb) :
  same_rows_but id db (fst (unpublishInvoice today newToken id db)).
Proof.
  unfold unpublishInvoice.
  destruct (getInvoiceById today db id) as [found|] eqn:Hget;
    [|apply same_rows_but_refl].
  destruct (invoices db !! id) as [row|] eqn:Hrow; [|apply same_rows_but_refl].
  destruct (token_taken db id newToken); [apply same_rows_but_refl|].
  cbn [fst]. apply same_rows_but_set with (row := row); [exact Hrow|].
  repeat split; reflexivity.
Qed.

End InvoiceLifecycle.

(** X21.  [publishInvoice] and [unpublishInvoice] neither add nor remove an
    invoice, touch no customer, no item and no other invoice, and leave the
    customer, the currency and the due date of the invoice as they are;
    [publishInvoice] changes its number only when that begins with
    [DRAFT-], and [unpublishInvoice] never changes it. *)
Theorem numbers_survive_publishing :
  forall (today : Z) (next newToken : string) (base_url : option string) (id : string)
         (db : InvoiceDb),
    same_rows_but id db (fst (publishInvoice today next base_url id db))
    /\ same_rows_but id db (fst (unpublishInvoice today newToken id db))
    /\ (forall row row',
           invoices db !! id = Some row ->
           invoices (fst (unpublishInvoice today newToken id db)) !! id = Some row' ->
           invoiceNumber row' = invoiceNumber row).
Proof.
  intros today next newToken base_url id db.
  split; [apply publish_same_rows|]. split; [apply unpublish_same_rows|].
  intros row row' Hrow. unfold unpublishInvoice.
  destruct (getInvoiceById today db id); [|cbn [fst]; congruence].
  rewrite Hrow. destruct (token_taken db id newToken); [cbn [fst]; congruence|].
  cbn [fst set_invoice invoices]. rewrite lookup_insert_eq. intros [= <-]. reflexivity.
Qed.

Lemma numbers_survive_publishing_witness :
  same_rows_but "i1" draft_db
    (fst (publishInvoice 10 "INV-2026-001" None "i1" draft_db)).
Proof.
  exact (proj1 (numbers_survive_publishing 10 "INV-2026-001" "t2" None "i1" draft_db)).
Defined.


Section InvoiceLifecycle2.

Local Open Scope string_scope.

Lemma getInvoiceById_set (today : Z) (db : InvoiceDb) (id : string) (row row' : Invoice)
      (found : InvoiceWithDetails) :
  getInvoiceById today db id = Some found ->
  invoices db !! id = Some row ->
  customerId row' = customerId row ->
  getInvoiceById today (set_invoice db id row') id
  = Some {| invoice := applyDerivedOverdue today row';
            customer_name := customer_name found;
            item_count := item_count found |}.
Proof.
  intros Hget Hrow Hc.
  destruct (getInvoiceById_found _ _ _ _ Hget) as (r & Hr & _ & Hname & Hcount).
  rewrite Hrow in Hr. injection Hr as <-.
  destruct (derived_fields today row') as (_ & Hc' & _).
  unfold getInvoiceById, getCustomerById in *.
  cbn [set_invoice invoices customers item_rows].
  rewrite lookup_insert_eq. cbv zeta. rewrite Hc', Hc, Hname, Hcount. reflexivity.
Qed.

Lemma publish_again (today : Z) (next next' : string) (base_url : option string)
      (id : string) (db db1 : InvoiceDb) (r : string * string) :
  publishInvoice today next base_url id db = (db1, inr r) ->
  publishInvoice today next' base_url id db1 = (db1, inr r).
Proof.
  unfold publishInvoice at 1.
  destruct (getInvoiceById today db id) as [found|] eqn:Hget; [|discriminate].
  destruct (missing_fields found) eqn:Hmiss; [|discriminate].
  destruct (getInvoiceById_found _ _ _ _ Hget) as (row & Hrow & Hinv & Hname & Hcount).
  destruct (derived_fields today row) as (Hnum & Hcust & Hcur & Hdue & Htok).
  destruct (is_draft (status (invoice found))) eqn:Hd.
  - rewrite Hrow. destruct (number_taken db id _); [discriminate|].
    intros [= <- <-].
    set (row' := {| invoiceNumber := _; customerId := customerId row;
                    currency := currency row; status := Sent;
                    dueDate := dueDate row; shareToken := shareToken row |}).
    unfold publishInvoice.
    rewrite (getInvoiceById_set today db id row row' found Hget Hrow eq_refl).
    destruct (derived_fields today row') as (Hnum' & Hcust' & Hcur' & Hdue' & Htok').
    assert (Hm : missing_fields
                   {| invoice := applyDerivedOverdue today row';
                      customer_name := customer_name found;
                      item_count := item_count found |} = []).
    { unfold missing_fields in *. cbn [customer_name item_count invoice].
      rewrite Hcur'. cbn [row' currency]. rewrite Hinv, Hcur in Hmiss. exact Hmiss. }
    rewrite Hm. cbn [invoice].
    assert (Hnd : is_draft (status (applyDerivedOverdue today row')) = false).
    { apply not_true_iff_false. intros H. apply derived_is_draft in H.
      destruct H as [H _]. discriminate H. }
    rewrite Hnd, Htok'. cbn [row' shareToken]. now rewrite Hinv, Htok.
  - intros [= <- <-]. unfold publishInvoice. rewrite Hget, Hmiss, Hd. reflexivity.
Qed.

Lemma number_taken_true (db : InvoiceDb) (id num : string) :
  number_taken db id num = true ->
  exists j row, j <> id /\ invoices db !! j = Some row /\ invoiceNumber row = num.
Proof.
  unfold number_taken. intros H. apply existsb_exists in H.
  destruct H as ([j row] & Hin & H). cbn [fst snd] in H.
  apply andb_true_iff in H. destruct H as [Hne Heq].
  apply negb_true_iff, String.eqb_neq in Hne. apply String.eqb_eq in Heq.
  exists j, row. split; [exact Hne|]. split; [|exact Heq].
  apply elem_of_map_to_list. now apply list_elem_of_In.
Qed.

Lemma in_invoice_numbers (db : InvoiceDb) (j : string) (row : Invoice) :
  invoices db !! j = Some row -> In (invoiceNumber row) (invoice_numbers db).
Proof.
  intros Hj. unfold invoice_numbers. apply in_map_iff. exists (j, row).
  split; [reflexivity|]. apply list_elem_of_In. now apply elem_of_map_to_list.
Qed.

Lemma filter_filter_out (id : string) (l : list string) :
  List.filter (String.eqb id) (List.filter (fun r => negb (String.eqb r id)) l) = [].
Proof.
  induction l as [|r l IH]; [reflexivity|]. cbn [List.filter].
  destruct (String.eqb_spec r id) as [->|Hne]; cbn [negb]; [exact IH|].
  cbn [List.filter]. destruct (String.eqb_spec id r) as [->|_]; [congruence | exact IH].
Qed.

Lemma filter_other (id j : string) (l : list string) :
  j <> id ->
  List.filter (String.eqb j) (List.filter (fun r => negb (String.eqb r id)) l)
  = List.filter (String.eqb j) l.
Proof.
  intros Hne. induction l as [|r l IH]; [reflexivity|]. cbn [List.filter].
  destruct (String.eqb_spec r id) as [->|Hr]; cbn [negb].
  - destruct (String.eqb_spec j id) as [->|_]; [congruence | exact IH].
  - cbn [List.filter]. destruct (String.eqb j r); [now rewrite IH | exact IH].
Qed.

End InvoiceLifecycle2.

(** X20.  Publishing is idempotent: once [publishInvoice] has answered with
    a share token and URL, publishing the same invoice again (on the same
    day, whatever number would be next) changes nothing and gives the same
    answer. *)
Theorem publish_is_idempotent :
  forall (today : Z) (next next' : string) (base_url : option string) (id : string)
         (db db1 : InvoiceDb) (r : string * string),
    publishInvoice today next base_url id db = (db1, inr r) ->
    publishInvoice today next' base_url id db1 = (db1, inr r).
Proof. exact publish_again. Qed.

Lemma publish_is_idempotent_witness :
  publishInvoice 10 "INV-2026-002" None "i1"
    (fst (publishInvoice 10 "INV-2026-001" None "i1" draft_db))
  = publishInvoice 10 "INV-2026-001" None "i1" draft_db.
Proof.
  assert (E : publishInvoice 10 "INV-2026-001" None "i1" draft_db
              = (fst (publishInvoice 10 "INV-2026-001" None "i1" draft_db),
                 inr ("t1", "http://localhost:3000/api/v1/public/invoices/t1")%string))
    by (vm_compute; reflexivity).
  rewrite E at 2.
  exact (publish_is_idempotent 10 "INV-2026-001" "INV-2026-002" None "i1" draft_db _ _ E).
Defined.

(** X22.  [deleteInvoice] returns [true] whether or not the invoice exists;
    afterwards [getInvoiceById] no longer finds the invoice, every other
    invoice is found as before, and deleting once more changes nothing. *)
Theorem delete_then_get :
  forall (today : Z) (id : string) (db : InvoiceDb),
    let db' := fst (deleteInvoice id db) in
    snd (deleteInvoice id db) = true
    /\ getInvoiceById today db' id = None
    /\ (forall j, j <> id -> getInvoiceById today db' j = getInvoiceById today db j)
    /\ fst (deleteInvoice id db') = db'.
Proof.
  intros today id db db'. subst db'. unfold deleteInvoice. cbn [fst snd].
  split; [reflexivity|]. split; [|split].
  - unfold getInvoiceById. cbn [invoices]. now rewrite lookup_delete_eq.
  - intros j Hne. unfold getInvoiceById, getCustomerById.
    cbn [invoices customers item_rows].
    rewrite lookup_delete_ne by auto. now rewrite filter_other.
  - cbn [invoices customers item_rows]. f_equal.
    + apply delete_id. apply lookup_delete_eq.
    + induction (item_rows db) as [|r l IH]; [reflexivity|]. cbn [List.filter].
      destruct (negb (String.eqb r id)) eqn:E; [|exact IH].
      cbn [List.filter]. rewrite E. now f_equal.
Qed.

Lemma delete_then_get_witness :
  getInvoiceById 10 (fst (deleteInvoice "i2" draft_db)) "i1"
  = getInvoiceById 10 draft_db "i1".
Proof.
  refine (proj1 (proj2 (proj2 (delete_then_get 10 "i2" draft_db))) "i1" _).
  discriminate.
Defined.

(** From the sequence number [2^53] on the next number is no longer new:
    [2^53 + 1] is not a double, the sum is [2^53] again, and publishing with
    it runs into the [UNIQUE] constraint. *)
Lemma sequence_beyond_safe_integers_repeats :
  getNextInvoiceNumber ∅ a_day (fun _ => "AAAA"%string) (invoice_numbers huge_db)
  = Some "INV-2026-9007199254740992"%string
  /\ snd (publishInvoice 10 "INV-2026-9007199254740992" None "i1" huge_db)
     = inl UniqueConflict.
Proof. vm_compute. split; reflexivity. Qed.

Lemma numbered_db_unique : numbers_unique numbered_db.
Proof.
  intros i j ri rj Hi Hj Heq. cbn [numbered_db invoices] in Hi, Hj.
  apply lookup_insert_Some in Hi, Hj.
  destruct Hi as [[<- <-]|[Hi1 Hi]], Hj as [[<- <-]|[Hj1 Hj]]; try reflexivity.
  - apply lookup_singleton_Some in Hj. destruct Hj as [<- <-]. discriminate Heq.
  - apply lookup_singleton_Some in Hi. destruct Hi as [<- <-]. discriminate Heq.
  - apply lookup_singleton_Some in Hi, Hj. destruct Hi as [<- _], Hj as [<- _].
    reflexivity.
Qed.

(** X23.  When the numbers of the store are pairwise different, the legacy
    numbering is in force and the sequence numbers of the store are at most
    [2^53 - 1], giving [publishInvoice] the number that
    [getNextInvoiceNumber] returns for the numbers of the store never runs
    into the [UNIQUE] constraint of [invoice_number]. *)
Theorem publish_meets_no_conflict :
  forall (settings : gmap string string) (now : Today) (rand4 : nat -> string)
         (today : Z) (base_url : option string) (id next : string) (db : InvoiceDb),
    let nb := numbering settings in
    nb_enabled nb = false \/ nb_pattern nb = None ->
    (forall inv ds, In inv (invoice_numbers db) ->
                    legacy_sequence (legacy_base nb now) inv = Some ds ->
                    (digits_value ds <= MAX_SAFE_INTEGER)%Z) ->
    numbers_unique db ->
    getNextInvoiceNumber settings now rand4 (invoice_numbers db) = Some next ->
    snd (publishInvoice today next base_url id db) <> inl UniqueConflict.
Proof.
  intros settings now rand4 today base_url id next db nb Hlegacy Hsafe Huniq Hnext.
  destruct (legacy_number_fresh settings now rand4 (invoice_numbers db)
              Hlegacy Hsafe) as (n & ds & Hn & _ & _ & _ & Hfresh).
  rewrite Hnext in Hn. injection Hn as <-.
  unfold publishInvoice.
  destruct (getInvoiceById today db id) as [found|] eqn:Hget; [|discriminate].
  destruct (missing_fields found); [|discriminate].
  destruct (is_draft (status (invoice found))); [|discriminate].
  destruct (getInvoiceById_found _ _ _ _ Hget) as (row & Hrow & Hinv & _).
  rewrite Hrow.
  destruct (number_taken db id _) eqn:Htaken; [|discriminate].
  exfalso. apply number_taken_true in Htaken.
  destruct Htaken as (j & rj & Hne & Hj & Hnum).
  destruct (String.prefix "DRAFT-" (invoiceNumber (invoice found))).
  - apply Hfresh. rewrite <- Hnum. now apply (in_invoice_numbers db j).
  - destruct (derived_fields today row) as (Hn' & _).
    rewrite Hinv, Hn' in Hnum. apply Hne. exact (Huniq j id rj row Hj Hrow Hnum).
Qed.

Lemma publish_meets_no_conflict_witness :
  getNextInvoiceNumber ∅ a_day (fun _ => "AAAA"%string) (invoice_numbers numbered_db)
  = Some "INV-2026-002"%string
  /\ snd (publishInvoice 10 "INV-2026-002" None "i1" numbered_db) <> inl UniqueConflict.
Proof.
  assert (E : getNextInvoiceNumber ∅ a_day (fun _ => "AAAA"%string)
                (invoice_numbers numbered_db) = Some "INV-2026-002"%string)
    by (vm_compute; reflexivity).
  split; [exact E|].
  apply (publish_meets_no_conflict ∅ a_day (fun _ => "AAAA"%string) 10 None "i1"
           "INV-2026-002" numbered_db).
  - right. reflexivity.
  - intros inv ds Hin H.
    assert (Hc : inv = "INV-2026-001"%string \/ inv = "DRAFT-ABC234"%string).
    { revert Hin. vm_compute. intuition. }
    destruct Hc as [-> | ->]; vm_compute in H; [|discriminate H].
    injection H as <-. vm_compute. discriminate.
  - exact numbered_db_unique.
  - exact E.
Defined.
